(** * A shallow embedding of the CTI ingestion pipeline (preprocessing.py)

    The development follows the layout of the Python module:
    text and regular expressions (the [re] calls of [IndicatorExtractor]),
    the indicator extractor, the chunker, the two repositories and the
    orchestrator.  Python [str] values are sequences of Unicode code
    points; they are modelled as lists of [N].  Collaborators that live
    outside the repository (PyMuPDF, langdetect, the text splitters, the
    embedding model, phonenumbers, the two database servers, the file
    system and the Unicode character database beyond ASCII) are section
    variables. *)

From Stdlib Require Import NArith ZArith String Ascii List Bool Lia DecimalString.
From stdpp Require Import gmap sets list sorting.
Import ListNotations.

Local Open Scope N_scope.

(** ** Text *)

Module Text.

Abbreviation char := N.
Abbreviation text := (list char).

(** Text of an ASCII literal of the source. *)
Definition str (s : string) : text :=
  map N_of_ascii (list_ascii_of_string s).

Definition ch (a : ascii) : char := N_of_ascii a.

Fixpoint text_eqb (a b : text) : bool :=
  match a, b with
  | [], [] => true
  | x :: a', y :: b' => (x =? y) && text_eqb a' b'
  | _, _ => false
  end.

Definition in_range (lo hi c : char) : bool := (lo <=? c) && (c <=? hi).

Definition is_upper_ascii (c : char) : bool := in_range 65 90 c.
Definition is_lower_ascii (c : char) : bool := in_range 97 122 c.
Definition is_alpha_ascii (c : char) : bool := is_upper_ascii c || is_lower_ascii c.
Definition is_digit_ascii (c : char) : bool := in_range 48 57 c.
Definition is_alnum_ascii (c : char) : bool := is_alpha_ascii c || is_digit_ascii c.

(** [str.startswith] and [str.endswith]. *)
Fixpoint startswith (s p : text) : bool :=
  match p, s with
  | [], _ => true
  | _ :: _, [] => false
  | y :: p', x :: s' => (x =? y) && startswith s' p'
  end.

Definition endswith (s p : text) : bool := startswith (rev s) (rev p).

(** [str.replace(old, new)]: non-overlapping occurrences, left to right;
    an empty [old] matches before every character and at the end. *)
Fixpoint replace_nonempty (old new s : text) (fuel : nat) : text :=
  match fuel with
  | O => s
  | S fuel' =>
    match s with
    | [] => []
    | c :: s' =>
      if startswith s old
      then new ++ replace_nonempty old new (skipn (length old) s) fuel'
      else c :: replace_nonempty old new s' fuel'
    end
  end.

Definition replace (old new s : text) : text :=
  match old with
  | [] => new ++ flat_map (fun c => c :: new) s
  | _ :: _ => replace_nonempty old new s (S (length s))
  end.

(** [s.split(sep)] for a one-character separator. *)
Fixpoint split_on (sep : char) (s : text) : list text :=
  match s with
  | [] => [[]]
  | c :: s' =>
    if c =? sep then [] :: split_on sep s'
    else match split_on sep s' with
         | w :: ws => (c :: w) :: ws
         | [] => [[c]]
         end
  end.

(** [sep.join(parts)] *)
Fixpoint join (sep : char) (parts : list text) : text :=
  match parts with
  | [] => []
  | [w] => w
  | w :: ws => w ++ sep :: join sep ws
  end.

(** [s.count(x)] for one character. *)
Fixpoint count (x : char) (s : text) : nat :=
  match s with
  | [] => O
  | c :: s' => if c =? x then S (count x s') else count x s'
  end.

(** The longest prefix of characters of a class, and what follows it. *)
Fixpoint take_while (p : char -> bool) (s : text) : text :=
  match s with
  | c :: s' => if p c then c :: take_while p s' else []
  | [] => []
  end.

Fixpoint drop_while (p : char -> bool) (s : text) : text :=
  match s with
  | c :: s' => if p c then drop_while p s' else s
  | [] => []
  end.

(** Python compares strings code point by code point. *)
Fixpoint text_leb (a b : text) : bool :=
  match a, b with
  | [], _ => true
  | _ :: _, [] => false
  | x :: a', y :: b' =>
    if x <? y then true else if y <? x then false else text_leb a' b'
  end.

Definition text_le (a b : text) : Prop := text_leb a b = true.

#[global] Instance text_le_dec (a b : text) : Decision (text_le a b).
Proof. unfold text_le. apply _. Defined.

(** Strictly below: the order of a sorted sequence without repeats. *)
Definition text_lt (a b : text) : Prop := text_le a b /\ a <> b.

Definition strictly_sorted (l : list text) : Prop := StronglySorted text_lt l.

(** [str(n)] for a non-negative integer. *)
Definition decimal (n : nat) : text :=
  str (NilEmpty.string_of_uint (Nat.to_uint n)).

End Text.
Export Text.

(** ** The Unicode character database

    [re] and [str.lower] consult the Unicode database.  Its ASCII part is
    written out below; for code points from 128 on it is a parameter. *)

Record Unicode := {
  uni_alnum : char -> bool;     (* str.isalnum, used by \w and \b *)
  uni_space : char -> bool;     (* str.isspace, used by \s *)
  uni_decimal : char -> bool;   (* str.isdecimal, used by \d *)
  uni_lower : char -> text      (* str.lower of one code point *)
}.

(** The database restricted to ASCII: nothing beyond it is a word,
    space or digit character, and nothing beyond it changes case. *)
Definition ascii_only : Unicode := {|
  uni_alnum := fun _ => false;
  uni_space := fun _ => false;
  uni_decimal := fun _ => false;
  uni_lower := fun c => [c]
|}.

(** ** Regular expressions: Python's [re] on the constructs the module uses

    [re] is a backtracking matcher: alternatives are tried in priority
    order and the first complete match wins; quantifiers are greedy.
    [exec] is written in continuation-passing style, the continuation
    standing for the rest of the pattern. *)

Module Re.

Inductive regex :=
| Eps                                           (* empty pattern *)
| Cls (p : char -> bool)                        (* one character of a class *)
| Bnd                                           (* \b *)
| Seq (a b : regex)                             (* ab *)
| Rep (a : regex) (lo : nat) (hi : option nat). (* a{lo,hi}, greedy *)

Definition below (n : nat) (hi : option nat) : bool :=
  match hi with
  | None => true
  | Some h => Nat.ltb n h
  end.

(** The strings a pattern can match, position tests aside. *)
Fixpoint den (r : regex) (w : text) : Prop :=
  match r with
  | Eps => w = []
  | Cls p => exists c, w = [c] /\ p c = true
  | Bnd => w = []
  | Seq a b => exists u v, w = u ++ v /\ den a u /\ den b v
  | Rep a lo hi =>
    exists ws, w = concat ws /\ Forall (den a) ws /\ (lo <= length ws)%nat /\
               match hi with
               | Some h => (length ws <= h)%nat
               | None => True
               end
  end.

(** The characters a pattern can read. *)
Fixpoint alphabet (r : regex) (c : char) : bool :=
  match r with
  | Eps | Bnd => false
  | Cls p => p c
  | Seq a b => alphabet a c || alphabet b c
  | Rep a _ _ => alphabet a c
  end.

(** The character before the position reached after reading [w]. *)
Definition last_char (prev : option char) (w : text) : option char :=
  match last w with
  | Some c => Some c
  | None => prev
  end.

(** What it means for a matcher of [a] to be sound, and for a number of
    rounds to be within the upper bound of a quantifier. *)
Definition body_sound {A : Type} (a : regex)
    (body : option char -> text -> (option char -> text -> option A) -> option A)
    : Prop :=
  forall prev s k x, body prev s k = Some x ->
    exists w s', s = w ++ s' /\ den a w /\ k (last_char prev w) s' = Some x.

Definition within (n : nat) (hi : option nat) : Prop :=
  match hi with
  | Some h => (n <= h)%nat
  | None => True
  end.

Section Engine.

Variable U : Unicode.

Definition is_word (c : char) : bool :=
  if c <? 128 then is_alnum_ascii c || (c =? 95) else uni_alnum U c.

Definition is_space (c : char) : bool :=
  if c <? 128 then in_range 9 13 c || in_range 28 31 c || (c =? 32)
  else uni_space U c.

Definition is_digit (c : char) : bool :=
  if c <? 128 then is_digit_ascii c else uni_decimal U c.

Definition word_before (prev : option char) : bool :=
  match prev with
  | Some c => is_word c
  | None => false
  end.

Definition word_after (s : text) : bool :=
  match s with
  | c :: _ => is_word c
  | [] => false
  end.

(** [\b]: exactly one side of the position is a word character. *)
Definition at_boundary (prev : option char) (s : text) : bool :=
  xorb (word_before prev) (word_after s).

(** The loop of a greedy quantifier [a{lo,hi}] after [n] rounds: try one
    more round of [body] (which must move on in the text), and fall back
    to leaving the loop when that fails.  No more than [fuel] rounds are
    tried; a round consumes a character, so the length of the text is
    enough fuel. *)
Fixpoint iter {A : Type}
    (body : option char -> text -> (option char -> text -> option A) -> option A)
    (lo : nat) (hi : option nat) (k : option char -> text -> option A)
    (fuel n : nat) (prev : option char) (s : text) {struct fuel} : option A :=
  let stop := if Nat.leb lo n then k prev s else None in
  match fuel with
  | O => stop
  | S fuel' =>
    if below n hi then
      match body prev s
              (fun prev' s' =>
                 if Nat.ltb (length s') (length s)
                 then iter body lo hi k fuel' (S n) prev' s'
                 else None) with
      | Some x => Some x
      | None => stop
      end
    else stop
  end.

(** [exec r prev s k]: match [r] at the head of [s], where [prev] is the
    character before it, then hand the position reached to [k]. *)
Fixpoint exec {A : Type} (r : regex) (prev : option char) (s : text)
    (k : option char -> text -> option A) {struct r} : option A :=
  match r with
  | Eps => k prev s
  | Cls p =>
    match s with
    | c :: s' => if p c then k (Some c) s' else None
    | [] => None
    end
  | Bnd => if at_boundary prev s then k prev s else None
  | Seq a b => exec a prev s (fun prev' s' => exec b prev' s' k)
  | Rep a lo hi => iter (exec a) lo hi k (length s) O prev s
  end.

(** One attempt at a position: the text matched and what follows it. *)
Definition match_here (r : regex) (prev : option char) (s : text)
    : option (option char * text) :=
  exec r prev s (fun prev' s' => Some (prev', s')).

Definition advance (s : text) : option (option char * text) :=
  match s with
  | c :: s' => Some (Some c, s')
  | [] => None
  end.

(** [re.findall] for a pattern without capturing groups: scan left to
    right, collect the non-overlapping matches.  After an empty match the
    scan moves one character on (none of the module's patterns can match
    the empty string). *)
Fixpoint findall_from (r : regex) (fuel : nat) (prev : option char) (s : text)
    : list text :=
  match fuel with
  | O => []
  | S fuel' =>
    match match_here r prev s with
    | Some (prev', rest) =>
      let m := take (length s - length rest) s in
      match m with
      | [] =>
        [] :: match advance s with
              | Some (p, s') => findall_from r fuel' p s'
              | None => []
              end
      | _ :: _ => m :: findall_from r fuel' prev' rest
      end
    | None =>
      match advance s with
      | Some (p, s') => findall_from r fuel' p s'
      | None => []
      end
    end
  end.

Definition findall (r : regex) (s : text) : list text :=
  findall_from r (S (length s)) None s.

(** [re.sub(r, repl, s)] for a literal replacement. *)
Fixpoint sub_from (r : regex) (repl : text) (fuel : nat) (prev : option char)
    (s : text) : text :=
  match fuel with
  | O => s
  | S fuel' =>
    match match_here r prev s with
    | Some (prev', rest) =>
      if Nat.ltb (length rest) (length s)
      then repl ++ sub_from r repl fuel' prev' rest
      else repl ++ match s with
                   | c :: s' => c :: sub_from r repl fuel' (Some c) s'
                   | [] => []
                   end
    | None =>
      match s with
      | c :: s' => c :: sub_from r repl fuel' (Some c) s'
      | [] => []
      end
    end
  end.

Definition sub (r : regex) (repl s : text) : text :=
  sub_from r repl (S (length s)) None s.

(** *** Pattern constructors *)

Definition chr (a : ascii) : regex := Cls (N.eqb (ch a)).

Definition lit (s : string) : regex :=
  fold_right (fun a r => Seq (chr a) r) Eps (list_ascii_of_string s).

Definition one_of (s : string) (c : char) : bool :=
  existsb (N.eqb c) (str s).

Definition plus (r : regex) : regex := Rep r 1 None.
Definition star (r : regex) : regex := Rep r 0 None.
Definition opt (r : regex) : regex := Rep r 0 (Some 1%nat).

Fixpoint seqs (rs : list regex) : regex :=
  match rs with
  | [] => Eps
  | [r] => r
  | r :: rs' => Seq r (seqs rs')
  end.

(** [.] without DOTALL: anything but a line feed. *)
Definition dot : regex := Cls (fun c => negb (c =? 10)).

End Engine.

End Re.
Export Re.

(** ** [ipaddress.ip_address] on strings (standard library, CPython 3.9.5
    and later).  [None] stands for the [ValueError] it raises. *)

Module Ipaddress.

(** [int(s, 10)] on a string of ASCII digits. *)
Definition int_of_digits (s : text) : N :=
  fold_left (fun acc c => 10 * acc + (c - 48)) s 0.

(** [IPv4Address._parse_octet]. *)
Definition parse_octet (o : text) : option N :=
  match o with
  | [] => None                                   (* empty octet *)
  | c :: rest =>
    if negb (forallb is_digit_ascii o) then None (* isascii and isdigit *)
    else if Nat.ltb 3 (length o) then None       (* at most 3 characters *)
    else if negb (text_eqb o (str "0")) && (c =? 48) then None (* leading zero *)
    else let n := int_of_digits o in
         if 255 <? n then None else Some n
  end.

Fixpoint parse_octets (os : list text) : option (list N) :=
  match os with
  | [] => Some []
  | o :: os' =>
    match parse_octet o with
    | None => None
    | Some n =>
      match parse_octets os' with
      | None => None
      | Some ns => Some (n :: ns)
      end
    end
  end.

(** [IPv4Address(s)]: the four octets, big end first. *)
Definition IPv4Address (s : text) : option (list N) :=
  if existsb (N.eqb 47) s then None              (* '/' in address *)
  else match s with
       | [] => None                              (* empty address *)
       | _ :: _ =>
         let octets := split_on 46 s in
         if negb (Nat.eqb (length octets) 4) then None
         else parse_octets octets
       end.

(** The dotted-decimal notation of four octets, and the strings that are
    one: the valid IPv4 addresses of the specification. *)
Definition dec (n : N) : text := decimal (N.to_nat n).

Definition dotted_quad (a b c d : N) : text :=
  dec a ++ [46] ++ dec b ++ [46] ++ dec c ++ [46] ++ dec d.

Definition valid_ipv4 (s : text) : Prop :=
  exists a b c d : N,
    a <= 255 /\ b <= 255 /\ c <= 255 /\ d <= 255 /\ s = dotted_quad a b c d.

Definition digits : list char := map N.of_nat (seq 48 10).

(** Every string of one to three ASCII digits. *)
Definition digit_strings : list text :=
  flat_map (fun a => [[a]]) digits ++
  flat_map (fun a => flat_map (fun b => [[a; b]]) digits) digits ++
  flat_map (fun a => flat_map (fun b => flat_map (fun c => [[a; b; c]]) digits)
                              digits) digits.

Section IpAddress.

(** [IPv6Address] raises at once on a string with fewer than two colons;
    what it does with the hextets of any other string is a parameter. *)
Variable ipv6_hextets : text -> bool.

Definition IPv6Address (s : text) : bool :=
  if existsb (N.eqb 47) s then false
  else if Nat.ltb (count 58 s) 2 then false
  else ipv6_hextets s.

(** [ip_address(s)] returns normally: IPv4 is tried first, then IPv6. *)
Definition ip_address (s : text) : bool :=
  match IPv4Address s with
  | Some _ => true
  | None => IPv6Address s
  end.

End IpAddress.

End Ipaddress.
Export Ipaddress.

(** ** IndicatorExtractor *)

Module Extractor.

Section IndicatorExtractor.

Variable U : Unicode.

(** [phonenumbers.PhoneNumberMatcher(text, region)]: the E.164 forms of
    the matches it yields before it stops (by exhaustion or by raising;
    the source swallows either way). *)
Variable phone_matches : text -> text -> list text.

Variable ipv6_hextets : text -> bool.

(** [str.lower], character by character: written out on ASCII, a
    parameter beyond it.  The module lowers only matches of the domain
    and e-mail patterns, which are ASCII. *)
Definition lower_ascii (c : char) : char :=
  if is_upper_ascii c then c + 32 else c.

Definition lower_char (c : char) : text :=
  if c <? 128 then [lower_ascii c] else uni_lower U c.

Definition lower (s : text) : text := flat_map lower_char s.

Definition file_exts : list text :=
  map str ["pdf"; "html"; "htm"; "jpg"; "jpeg"; "png"; "gif"; "bmp";
           "tiff"; "mp4"; "mov"; "avi"; "webp"]%string.

(** [[a-zA-Z0-9-]] *)
Definition label_char (c : char) : bool := is_alnum_ascii c || (c =? 45).

(** [\b(?:[a-zA-Z0-9-]+\.)+[a-zA-Z]{2,6}\b] *)
Definition domain_pattern : regex :=
  seqs [Bnd;
        plus (Seq (plus (Cls label_char)) (chr "."));
        Rep (Cls is_alpha_ascii) 2 (Some 6%nat);
        Bnd].

Definition has_file_ext (m : text) : bool :=
  existsb (fun ext => endswith (lower m) (str "." ++ ext)) file_exts.

(** [https?://[^\s/$.?#].[^\s]*] *)
Definition url_pattern : regex :=
  seqs [lit "http"; opt (chr "s"); lit "://";
        Cls (fun c => negb (is_space U c || one_of "/$.?#" c));
        dot;
        star (Cls (fun c => negb (is_space U c)))].

(** [\b(?:\d{1,3}\.){3}\d{1,3}\b] *)
Definition ip_pattern : regex :=
  seqs [Bnd;
        Rep (Seq (Rep (Cls (is_digit U)) 1 (Some 3%nat)) (chr ".")) 3 (Some 3%nat);
        Rep (Cls (is_digit U)) 1 (Some 3%nat);
        Bnd].

(** [[a-zA-Z0-9._%+-]] and [[a-zA-Z0-9.-]] *)
Definition local_char (c : char) : bool := is_alnum_ascii c || one_of "._%+-" c.
Definition host_char (c : char) : bool := is_alnum_ascii c || one_of ".-" c.

(** [[a-zA-Z0-9._%+-]+@[a-zA-Z0-9.-]+\.[a-zA-Z]{2,}] *)
Definition email_pattern : regex :=
  seqs [plus (Cls local_char); chr "@"; plus (Cls host_char); chr ".";
        Rep (Cls is_alpha_ascii) 2 None].

Definition regions : list text := map str ["US"; "NP"; "FR"; "DE"]%string.

(** [[\w\-]] and the pattern [@[\w\-]+] *)
Definition handle_char (c : char) : bool := is_word U c || (c =? 45).

Definition social_pattern : regex :=
  Seq (chr "@") (plus (Cls handle_char)).

(** [\bUA-\d{4,}-\d+\b] and [\bPub-\d{5,}\b] *)
Definition ua_pattern : regex :=
  seqs [Bnd; lit "UA-"; Rep (Cls (is_digit U)) 4 None; chr "-";
        plus (Cls (is_digit U)); Bnd].

Definition pub_pattern : regex :=
  seqs [Bnd; lit "Pub-"; Rep (Cls (is_digit U)) 5 None; Bnd].

(** The sets built by the body of [extract_indicators_by_category]. *)
Definition domains_set (t : text) : gset text :=
  list_to_set (map lower (filter (fun m => negb (has_file_ext m))
                                 (findall U domain_pattern t))).

Definition urls_set (t : text) : gset text :=
  list_to_set (findall U url_pattern t).

Definition ips_set (t : text) : gset text :=
  list_to_set (filter (ip_address ipv6_hextets) (findall U ip_pattern t)).

Definition emails_set (t : text) : gset text :=
  list_to_set (map lower (findall U email_pattern t)).

Definition phones_set (t : text) : gset text :=
  list_to_set (flat_map (phone_matches t) regions).

Definition social_handles_set (t : text) : gset text :=
  list_to_set (findall U social_pattern t).

Definition tracking_ids_set (t : text) : gset text :=
  list_to_set (findall U ua_pattern t) ∪ list_to_set (findall U pub_pattern t).

(** [sorted] on the elements of a set, handed over in the order [e] in
    which the set happens to enumerate them. *)
Definition sorted_from (e : list text) : list text := merge_sort text_le e.

Definition sorted (v : gset text) : list text := sorted_from (elements v).

(** The dictionary [indicators] when the body has run, in key insertion
    order. *)
Definition indicators (t : text) : list (text * gset text) :=
  [ (str "domains", domains_set t);
    (str "urls", urls_set t);
    (str "ips", ips_set t);
    (str "emails", emails_set t);
    (str "phones", phones_set t);
    (str "social_handles", social_handles_set t);
    (str "tracking_ids", tracking_ids_set t) ].

(** [{k: sorted(v) for k, v in indicators.items()}] *)
Definition extract_indicators_by_category (t : text)
    : list (text * list text) :=
  map (fun kv => (fst kv, sorted (snd kv))) (indicators t).

(** [d[key]] on such a dictionary. *)
Fixpoint dict_get {V : Type} (key : text) (d : list (text * V)) : option V :=
  match d with
  | [] => None
  | (k, v) :: d' => if text_eqb k key then Some v else dict_get key d'
  end.

(** The sample text of the end-to-end scenario of the specification. *)
Definition sample : text :=
  str "Email: alerts@ti-example.com, IP 10.0.0.5, see https://bad-domain.test/payload.exe".

Definition category_names : list text :=
  map str ["domains"; "urls"; "ips"; "emails"; "phones"; "social_handles";
           "tracking_ids"]%string.

(** What the extractor returns on the sample text of the end-to-end
    scenario, as the specification states it. *)
Definition sample_as_specified : Prop :=
  let d := extract_indicators_by_category sample in
  dict_get (str "emails") d = Some [str "alerts@ti-example.com"] /\
  dict_get (str "ips") d = Some [str "10.0.0.5"] /\
  dict_get (str "urls") d = Some [str "https://bad-domain.test/payload.exe"] /\
  dict_get (str "domains") d = Some [str "bad-domain.test"] /\
  forall v, dict_get (str "domains") d = Some v -> str "payload.exe" ∉ v.

(** The statement that an e-mail address [l@d] found in [t] always comes
    with the social handle made of "@" and the leading word or hyphen
    characters of [d]. *)
Definition email_has_handle (t : text) : Prop :=
  forall l d, (l ++ [64] ++ d) ∈ findall U email_pattern t ->
    exists v, dict_get (str "social_handles") (extract_indicators_by_category t)
                = Some v /\
              ([64] ++ take_while handle_char d) ∈ v.

End IndicatorExtractor.

End Extractor.
Export Extractor.


(** ** [uuid.uuid5]: name-based identifiers (standard library)

    [uuid5(namespace, name)] is the SHA-1 digest of the namespace bytes
    followed by the UTF-8 encoding of the name, cut to 16 bytes and
    stamped with version 5 and the RFC 4122 variant. *)

Module Uuid.

Definition byte := N.

(** [bytes(name, "utf-8")]; [None] is the [UnicodeEncodeError] raised on a
    surrogate code point. *)
Definition utf8_char (c : char) : option (list byte) :=
  if c <? 128 then Some [c]
  else if c <? 2048 then
    Some [192 + N.shiftr c 6; 128 + N.land c 63]
  else if in_range 55296 57343 c then None
  else if c <? 65536 then
    Some [224 + N.shiftr c 12; 128 + N.land (N.shiftr c 6) 63; 128 + N.land c 63]
  else if c <? 1114112 then
    Some [240 + N.shiftr c 18; 128 + N.land (N.shiftr c 12) 63;
          128 + N.land (N.shiftr c 6) 63; 128 + N.land c 63]
  else None.

Fixpoint utf8 (s : text) : option (list byte) :=
  match s with
  | [] => Some []
  | c :: s' =>
    match utf8_char c, utf8 s' with
    | Some bs, Some rest => Some (bs ++ rest)
    | _, _ => None
    end
  end.

(** *** SHA-1 (FIPS 180-4) on 32-bit words *)

Definition w32 (x : N) : N := x mod 4294967296.

Definition rotl (n x : N) : N :=
  w32 (N.lor (N.shiftl x n) (N.shiftr x (32 - n))).

Definition lnot32 (x : N) : N := 4294967295 - x.

(** The length in bits as eight bytes, big end first. *)
Definition be_bytes (width : nat) (x : N) : list byte :=
  map (fun i => N.land (N.shiftr x (8 * N.of_nat i)) 255) (rev (seq 0 width)).

Definition pad (m : list byte) : list byte :=
  let len := length m in
  let zeros := ((119 - len mod 64) mod 64)%nat in
  m ++ [128] ++ repeat 0 zeros ++ be_bytes 8 (8 * N.of_nat len).

Definition be_word (bs : list byte) : N :=
  fold_left (fun acc b => 256 * acc + b) bs 0.

Fixpoint words (n : nat) (bs : list byte) : list N :=
  match n with
  | O => []
  | S n' => be_word (firstn 4 bs) :: words n' (skipn 4 bs)
  end.

(** The message schedule, latest word first: [rev_w] holds W[t-1], W[t-2], ... *)
Fixpoint schedule (n : nat) (rev_w : list N) : list N :=
  match n with
  | O => rev_w
  | S n' =>
    let w := rotl 1 (N.lxor (N.lxor (nth 2 rev_w 0) (nth 7 rev_w 0))
                            (N.lxor (nth 13 rev_w 0) (nth 15 rev_w 0))) in
    schedule n' (w :: rev_w)
  end.

Definition state := (N * N * N * N * N)%type.

Definition round (t : nat) (st : state) (w : N) : state :=
  let '(a, b, c, d, e) := st in
  let '(f, k) :=
    if Nat.ltb t 20 then (N.lor (N.land b c) (N.land (lnot32 b) d), 1518500249)
    else if Nat.ltb t 40 then (N.lxor (N.lxor b c) d, 1859775393)
    else if Nat.ltb t 60 then
      (N.lor (N.lor (N.land b c) (N.land b d)) (N.land c d), 2400959708)
    else (N.lxor (N.lxor b c) d, 3395469782) in
  (w32 (rotl 5 a + f + e + k + w), a, rotl 30 b, c, d).

Fixpoint rounds (t : nat) (ws : list N) (st : state) : state :=
  match ws with
  | [] => st
  | w :: ws' => rounds (S t) ws' (round t st w)
  end.

Definition compress (h : state) (block : list byte) : state :=
  let ws := rev (schedule 64 (rev (words 16 block))) in
  let '(a, b, c, d, e) := rounds 0 ws h in
  let '(h0, h1, h2, h3, h4) := h in
  (w32 (h0 + a), w32 (h1 + b), w32 (h2 + c), w32 (h3 + d), w32 (h4 + e)).

Fixpoint blocks (n : nat) (bs : list byte) (h : state) : state :=
  match n with
  | O => h
  | S n' => blocks n' (skipn 64 bs) (compress h (firstn 64 bs))
  end.

Definition sha1 (m : list byte) : list byte :=
  let p := pad m in
  let '(h0, h1, h2, h3, h4) :=
    blocks (length p / 64)
           p (1732584193, 4023233417, 2562383102, 271733878, 3285377520) in
  flat_map (be_bytes 4) [h0; h1; h2; h3; h4].

(** *** UUIDs *)

(** [UUID(bytes=b, version=5)] as a 128-bit integer. *)
Definition stamp_v5 (b : list byte) : N :=
  let i := be_word b in
  let i := N.ldiff i (N.shiftl 49152 48) in
  let i := N.lor i (N.shiftl 32768 48) in
  let i := N.ldiff i (N.shiftl 61440 64) in
  N.lor i (N.shiftl 5 76).

Definition hex_digit (d : N) : char := if d <? 10 then 48 + d else 87 + d.

(** The [width] lowest hexadecimal digits of [x]. *)
Definition hex (width : nat) (x : N) : text :=
  map (fun i => hex_digit (N.land (N.shiftr x (4 * N.of_nat i)) 15))
      (rev (seq 0 width)).

(** [str(UUID(int=i))]: 8-4-4-4-12 hexadecimal digits. *)
Definition uuid_str (i : N) : text :=
  hex 8 (N.shiftr i 96) ++ [45] ++ hex 4 (N.shiftr i 80) ++ [45] ++
  hex 4 (N.shiftr i 64) ++ [45] ++ hex 4 (N.shiftr i 48) ++ [45] ++ hex 12 i.

(** [uuid.NAMESPACE_DNS.bytes] *)
Definition NAMESPACE_DNS : list byte :=
  [107; 167; 184; 16; 157; 173; 17; 209; 128; 180; 0; 192; 79; 212; 48; 200].

(** [str(uuid.uuid5(namespace, name))]; [None] when the name cannot be
    encoded. *)
Definition uuid5 (namespace : list byte) (name : text) : option text :=
  match utf8 name with
  | Some bs => Some (uuid_str (stamp_v5 (firstn 16 (sha1 (namespace ++ bs)))))
  | None => None
  end.

End Uuid.
Export Uuid.

(** ** The pipeline: state, exceptions and the collaborators *)

Module Pipeline.

(** Every exception the module handles is caught as [Exception]. *)
Inductive exn := Exception (message : text).

Inductive result (A : Type) : Type :=
| Ok (a : A)
| Raise (e : exn).

Arguments Ok {A} a.
Arguments Raise {A} e.

(** *** config.py *)

Record Config := {
  RAW_DIR : text;
  CLEAN_DIR : text;
  PDF_DIR : text;
  PDFS : option (list text);       (* [None]: the module has no such attribute *)
  CHUNK_SIZE : option nat;
  CHUNK_OVERLAP : option nat;
  MAX_PAGES : nat
}.

(** [dir / name] for a relative [name]. *)
Definition path_join (dir name : text) : text := dir ++ [47] ++ name.

(** The module as written, for a base directory and the PDF files found
    in its "pdfs" directory. *)
Definition repository_config (base_dir : text) (pdfs : list text) : Config := {|
  RAW_DIR := path_join base_dir (str "raw");
  CLEAN_DIR := path_join base_dir (str "clean");
  PDF_DIR := path_join base_dir (str "pdfs");
  PDFS := Some pdfs;
  CHUNK_SIZE := Some 500%nat;
  CHUNK_OVERLAP := Some 200%nat;
  MAX_PAGES := 100
|}.

(** [getattr(config, name, default)] *)
Definition getattr {A : Type} (field : option A) (default : A) : A :=
  match field with
  | Some a => a
  | None => default
  end.

(** *** Paths *)

Fixpoint rfind_from (x : char) (s : text) (i : nat) (found : option nat)
    : option nat :=
  match s with
  | [] => found
  | c :: s' => rfind_from x s' (S i) (if c =? x then Some i else found)
  end.

(** [Path.name] and [Path.stem] of a path given by its string. *)
Definition path_name (p : text) : text :=
  match last (split_on 47 p) with
  | Some n => n
  | None => []
  end.

Definition path_stem (p : text) : text :=
  let name := path_name p in
  match rfind_from 46 name 0 None with
  | Some i =>
    if Nat.ltb 0 i && Nat.ltb i (length name - 1) then take i name else name
  | None => name
  end.

(** *** Rows, graph statements, files and log lines *)

Record DocRow := {
  doc_uuid : text;
  doc_name : text;
  doc_path : text;
  doc_language : text
}.

(** [WHERE name = %s], and the first row it selects. *)
Definition has_name (name : text) (r : DocRow) : bool :=
  text_eqb (doc_name r) name.

Definition find_document (name : text) (rows : list DocRow) : option DocRow :=
  head (List.filter (has_name name) rows).

(** One entry of the list returned by [extract_text_from_pdf]. *)
Record Page := {
  page_number : nat;
  page_text : text
}.

(** The "_metadata" entry of the indicators file. *)
Record Metadata := {
  document_uuid : text;
  document_name : text;
  language : text;
  total_pages : nat;
  neo4j_success : bool
}.

(** The Cypher statements the module sends, with their parameters. *)
Inductive Cypher :=
| ReturnOne
| MergeDocument (uuid name path lang : text)
| MergeIndicator (ind_uuid val cat doc_uuid page rel_uuid : text).

(** The operations on the disk.  [open(path, "w")] creates the file or
    empties it; the content comes with the write that follows, which
    stands for the body of the [with] block and the close that ends it.
    An operation that raises has not been completed and is not recorded:
    after a write that raised, the file is as [OpenWrite] left it, up to
    what the interrupted write may have put in it. *)
Inductive FileOp :=
| Mkdir (path : text)
| OpenWrite (path : text)
| WriteText (path : text) (content : text)
| WriteJson (path : text) (indicators : list (text * list text))
            (metadata : Metadata).

(** The lines printed. *)
Inductive LogEvent :=
| LogSpacyFailed (e : exn)
| LogSavedClean (path : text)
| LogSavedIndicators (path : text)
| LogNeo4jConnected
| LogNeo4jConnectionFailed (e : exn)
| LogNeo4jDocumentFailed (e : exn)
| LogNeo4jIndicatorsFailed (e : exn)
| LogNoPdfs
| LogErrorProcessing (path : text) (e : exn)
| LogFileNotFound (path : text)
| LogSummary (processed total : nat)
| LogProcessing (name : text)
| LogCreatedChunks (count : nat) (name : text)
| LogNeo4jOperationsFailed (name : text) (e : exn)
| LogProcessed (graph_ok : bool) (name : text) (chunks pages : nat)
| LogFailedToProcess (name : text) (e : exn).

(** The handle returned by [GraphDatabase.driver]. *)
Record Neo4jDriver := { neo4j_uri : text }.

Section Model.

(** The vectors of the embedding model. *)
Variable Embedding : Type.

Record ChunkRow := {
  chunk_uuid : text;
  chunk_document_uuid : text;
  chunk_text_of : text;
  chunk_embedding : Embedding;
  chunk_indicators : list text;
  chunk_page : nat;
  chunk_language : text
}.

Inductive Sql :=
| SelectDocumentUuid (name : text)
| InsertDocument (row : DocRow)
| InsertChunk (row : ChunkRow).

(** What the pipeline acts on: the two tables and the cursor's pending
    result, the statements the graph server has run, the file operations
    done, the lines printed and the number of random UUIDs drawn. *)
Record World := {
  documents : list DocRow;
  chunks : list ChunkRow;
  pending : list text;
  graph : list Cypher;
  files : list FileOp;
  log : list LogEvent;
  draws : nat
}.

Definition set_documents (x : list DocRow) (w : World) : World :=
  {| documents := x; chunks := chunks w; pending := pending w;
     graph := graph w; files := files w; log := log w; draws := draws w |}.

Definition set_chunks (x : list ChunkRow) (w : World) : World :=
  {| documents := documents w; chunks := x; pending := pending w;
     graph := graph w; files := files w; log := log w; draws := draws w |}.

Definition set_pending (x : list text) (w : World) : World :=
  {| documents := documents w; chunks := chunks w; pending := x;
     graph := graph w; files := files w; log := log w; draws := draws w |}.

Definition set_graph (x : list Cypher) (w : World) : World :=
  {| documents := documents w; chunks := chunks w; pending := pending w;
     graph := x; files := files w; log := log w; draws := draws w |}.

Definition set_files (x : list FileOp) (w : World) : World :=
  {| documents := documents w; chunks := chunks w; pending := pending w;
     graph := graph w; files := x; log := log w; draws := draws w |}.

Definition set_log (x : list LogEvent) (w : World) : World :=
  {| documents := documents w; chunks := chunks w; pending := pending w;
     graph := graph w; files := files w; log := x; draws := draws w |}.

Definition set_draws (x : nat) (w : World) : World :=
  {| documents := documents w; chunks := chunks w; pending := pending w;
     graph := graph w; files := files w; log := log w; draws := x |}.

(** The calls that reach a server or the disk, each of which may raise. *)
Inductive Op :=
| OpExecute (q : Sql)          (* cursor.execute *)
| OpSession                    (* driver.session() *)
| OpRun (c : Cypher)           (* session.run *)
| OpFile (f : FileOp).         (* mkdir, open and write *)

(** *** The state and exception monad *)

Definition M (A : Type) : Type := World -> result A * World.

Definition ret {A : Type} (a : A) : M A := fun w => (Ok a, w).

Definition bind {A B : Type} (m : M A) (f : A -> M B) : M B :=
  fun w =>
    match m w with
    | (Ok a, w') => f a w'
    | (Raise e, w') => (Raise e, w')
    end.

Definition raise {A : Type} (e : exn) : M A := fun w => (Raise e, w).

(** [try: m except Exception as e: h e] *)
Definition try_except {A : Type} (m : M A) (h : exn -> M A) : M A :=
  fun w =>
    match m w with
    | (Ok a, w') => (Ok a, w')
    | (Raise e, w') => h e w'
    end.

Definition lift {A : Type} (r : result A) : M A := fun w => (r, w).

Definition get : M World := fun w => (Ok w, w).

Definition modify (f : World -> World) : M unit := fun w => (Ok tt, f w).

Notation "'let*' x ':=' m 'in' k" := (bind m (fun x => k))
  (at level 10, x pattern, m at level 100, k at level 200, only parsing).

Fixpoint for_each {A : Type} (l : list A) (f : A -> M unit) : M unit :=
  match l with
  | [] => ret tt
  | x :: l' => let* _ := f x in for_each l' f
  end.

(** [print]; writing to the standard output is taken not to fail. *)
Definition print (ev : LogEvent) : M unit :=
  modify (fun w => set_log (log w ++ [ev]) w).

(** *** Collaborators *)

Variable U : Unicode.
Variable phone_matches : text -> text -> list text.
Variable ipv6_hextets : text -> bool.

(** The [config] module. *)
Variable config : Config.

(** Whether a call to a server or the disk raises, in the state it is
    made in. *)
Variable fault : World -> Op -> option exn.

(** [str(uuid.uuid4())], by the number of the draw. *)
Variable uuid4_draw : nat -> text.

(** [fitz.open(path)]: the pages, each with the outcome of [get_text]. *)
Variable fitz_open : text -> result (list (result text)).

(** [langdetect.detect] *)
Variable detect : text -> result text.

(** [SpacyTextSplitter(pipeline, chunk_size, chunk_overlap).split_text] and
    [RecursiveCharacterTextSplitter(chunk_size, chunk_overlap,
    separators).split_text], construction included. *)
Variable spacy_split : text -> nat -> nat -> text -> result (list text).
Variable recursive_split : nat -> nat -> text -> result (list text).

(** [SentenceTransformer.encode(text).tolist()] *)
Variable encode : text -> result Embedding.

(** [Path.exists] *)
Variable path_exists : World -> text -> bool.

Definition perform (op : Op) (effect : World -> World) : M unit :=
  fun w =>
    match fault w op with
    | Some e => (Raise e, w)
    | None => (Ok tt, effect w)
    end.

Definition uuid4 : M text :=
  fun w => (Ok (uuid4_draw (draws w)), set_draws (S (draws w)) w).

(** The identity a call uses when none is found: the one given, or the
    next random one. *)
Definition drawn (given : option text) (w : World) : text :=
  match given with
  | None => uuid4_draw (draws w)
  | Some u => u
  end.

Abbreviation extract := (extract_indicators_by_category U phone_matches ipv6_hextets).

(** *** PDFExtractor *)

(** The loop over [enumerate(doc, start=1)], from page [n] on. *)
Fixpoint read_pages (n : nat) (pages : list (result text)) : result (list Page) :=
  match pages with
  | [] => Ok []
  | p :: pages' =>
    if Nat.ltb (MAX_PAGES config) n then Ok []
    else match p with
         | Raise e => Raise e
         | Ok t =>
           match read_pages (S n) pages' with
           | Raise e => Raise e
           | Ok rest => Ok ({| page_number := n; page_text := t |} :: rest)
           end
         end
  end.

Definition extract_text_from_pdf (pdf_path : text) : result (list Page) :=
  match fitz_open pdf_path with
  | Raise e => Raise e
  | Ok pages => read_pages 1 pages
  end.

(** *** TextProcessor *)

(** [str.strip()] *)
Definition strip (s : text) : text :=
  rev (drop_while (is_space U) (rev (drop_while (is_space U) s))).

(** The four [replace] calls as the source file spells them: its first
    string literal is triple-quoted and runs up to the second call. *)
Definition clean_text (t : text) : text :=
  let t := sub U (plus (Cls (is_space U))) (str " ") t in
  let t := replace (str ", " ++ [34; 34; 34] ++ str ").replace(") [34] t in
  let t := replace [39] [39] t in
  let t := replace [8211] (str "-") t in
  strip t.

Definition detect_language (t : text) : text :=
  match detect t with
  | Ok lang =>
    if startswith lang (str "en") then str "en"
    else if startswith lang (str "fr") then str "fr"
    else if startswith lang (str "de") then str "de"
    else str "en"
  | Raise _ => str "en"
  end.

(** [pipeline_map.get(language, "en_core_web_sm")] *)
Definition pipeline_for (language : text) : text :=
  if text_eqb language (str "en") then str "en_core_web_sm"
  else if text_eqb language (str "fr") then str "fr_core_news_sm"
  else if text_eqb language (str "de") then str "de_core_news_sm"
  else str "en_core_web_sm".

(** The post-processing loop over the chunks of the primary splitter. *)
Fixpoint resplit (chunk_size chunk_overlap : nat) (chunks : list text)
    : result (list text) :=
  match chunks with
  | [] => Ok []
  | chunk :: chunks' =>
    if Nat.ltb chunk_size (length chunk) then
      match recursive_split chunk_size chunk_overlap chunk with
      | Raise e => Raise e
      | Ok sub_chunks =>
        match resplit chunk_size chunk_overlap chunks' with
        | Raise e => Raise e
        | Ok rest => Ok (sub_chunks ++ rest)
        end
      end
    else
      match resplit chunk_size chunk_overlap chunks' with
      | Raise e => Raise e
      | Ok rest => Ok (chunk :: rest)
      end
  end.

Definition chunk_text (t language : text) (use_spacy : bool) : M (list text) :=
  let chunk_size := getattr (CHUNK_SIZE config) 500%nat in
  let chunk_overlap := getattr (CHUNK_OVERLAP config) 50%nat in
  let secondary := lift (recursive_split chunk_size chunk_overlap t) in
  if use_spacy then
    try_except
      (let* chunks :=
         lift (spacy_split (pipeline_for language) chunk_size chunk_overlap t) in
       lift (resplit chunk_size chunk_overlap chunks))
      (fun e => let* _ := print (LogSpacyFailed e) in secondary)
  else secondary.

(** *** FileManager *)

(** One operation on the disk: it raises, or it is completed and
    recorded. *)
Definition file_op (f : FileOp) : M unit :=
  perform (OpFile f) (fun w => set_files (files w ++ [f]) w).

(** Each [with open(file, "w", ...) as f:] block is the opening of the
    file, which creates or empties it, followed by the write of its
    body: when the write raises, the file has been opened already. *)
Definition save_clean_and_json (name full_text : text)
    (indicators_dict : list (text * list text)) (metadata : Metadata) : M unit :=
  let* _ := file_op (Mkdir (RAW_DIR config)) in
  let* _ := file_op (Mkdir (CLEAN_DIR config)) in
  let clean_file := path_join (CLEAN_DIR config) (name ++ str "_clean.txt") in
  let* _ := file_op (OpenWrite clean_file) in
  let* _ := file_op (WriteText clean_file full_text) in
  let raw_file := path_join (RAW_DIR config) (name ++ str "_indicators.json") in
  let* _ := file_op (OpenWrite raw_file) in
  let* _ := file_op (WriteJson raw_file indicators_dict metadata) in
  let* _ := print (LogSavedClean clean_file) in
  print (LogSavedIndicators raw_file).

(** *** PostgreSQLRepository

    The cursor is the one shared by the whole batch.  A SELECT leaves the
    matching rows, in table order, as the pending result. *)

Definition run_sql (q : Sql) (w : World) : World :=
  match q with
  | SelectDocumentUuid name =>
    set_pending (map doc_uuid (List.filter (has_name name) (documents w))) w
  | InsertDocument row => set_pending [] (set_documents (documents w ++ [row]) w)
  | InsertChunk row => set_pending [] (set_chunks (chunks w ++ [row]) w)
  end.

Definition execute (q : Sql) : M unit := perform (OpExecute q) (run_sql q).

Definition fetchone : M (option text) :=
  fun w =>
    match pending w with
    | [] => (Ok None, w)
    | r :: rest => (Ok (Some r), set_pending rest w)
    end.

Definition insert_document (name path lang : text) (given_uuid : option text)
    : M text :=
  let* new_uuid := match given_uuid with
                   | None => uuid4
                   | Some u => ret u
                   end in
  let* _ := execute (SelectDocumentUuid name) in
  let* res := fetchone in
  match res with
  | Some found => ret found
  | None =>
    let* _ := execute (InsertDocument {| doc_uuid := new_uuid; doc_name := name;
                                         doc_path := path; doc_language := lang |}) in
    ret new_uuid
  end.

Definition insert_chunk (document : text) (t : text) (indicator_values : list text)
    (page : nat) (lang : text) (given_uuid : option text) : M text :=
  let* new_uuid := match given_uuid with
                   | None => uuid4
                   | Some u => ret u
                   end in
  let* embedding := lift (encode t) in
  let* _ := execute (InsertChunk {| chunk_uuid := new_uuid;
                                    chunk_document_uuid := document;
                                    chunk_text_of := t;
                                    chunk_embedding := embedding;
                                    chunk_indicators := indicator_values;
                                    chunk_page := page;
                                    chunk_language := lang |}) in
  ret new_uuid.

(** *** Neo4jRepository *)

Definition session : M unit := perform OpSession (fun w => w).

Definition run (c : Cypher) : M unit :=
  perform (OpRun c) (fun w => set_graph (graph w ++ [c]) w).

Definition test_connection : M unit :=
  try_except
    (let* _ := session in
     let* _ := run ReturnOne in
     print LogNeo4jConnected)
    (fun e => let* _ := print (LogNeo4jConnectionFailed e) in raise e).

(** [Neo4jRepository(driver)] *)
Definition Neo4jRepository (driver : Neo4jDriver) : M unit := test_connection.

Definition neo4j_insert_document (document name path lang : text) : M unit :=
  try_except
    (let* _ := session in run (MergeDocument document name path lang))
    (fun e => let* _ := print (LogNeo4jDocumentFailed e) in raise e).

(** [uuid.uuid5(uuid.NAMESPACE_DNS, f"{category}:{value}")] *)
Definition indicator_uuid (category value : text) : result text :=
  match uuid5 NAMESPACE_DNS (category ++ str ":" ++ value) with
  | Some u => Ok u
  | None => Raise (Exception (str "UnicodeEncodeError"))
  end.

Definition mention (document : text) (page : nat) (category value : text)
    : M unit :=
  let* rel_uuid := uuid4 in
  let* ind_uuid := lift (indicator_uuid category value) in
  run (MergeIndicator ind_uuid value category document (decimal page) rel_uuid).

Definition insert_indicators (document : text)
    (indicators_by_page : list (nat * list (text * list text))) : M unit :=
  try_except
    (let* _ := session in
     for_each indicators_by_page (fun page_entry =>
       for_each (snd page_entry) (fun category_entry =>
         for_each (snd category_entry) (fun value =>
           mention document (fst page_entry) (fst category_entry) value))))
    (fun e => let* _ := print (LogNeo4jIndicatorsFailed e) in raise e).

(** *** PDFProcessor *)

(** [enumerate(l, start=n)] *)
Fixpoint enumerate {A : Type} (n : nat) (l : list A) : list (nat * A) :=
  match l with
  | [] => []
  | x :: l' => (n, x) :: enumerate (S n) l'
  end.

Definition persist_chunk (document lang : text) (entry : nat * text) : M unit :=
  let chunk_indicators := extract (snd entry) in
  let flat_indicators := flat_map snd chunk_indicators in
  let* _ := insert_chunk document (snd entry) flat_indicators (fst entry) lang None in
  ret tt.

(** The local variables of [process_pdf] when the relational work is
    done. *)
Record Locals := {
  raw_pages : list Page;
  full_text : text;
  lang : text;
  document : text;
  pieces : list text
}.

(** "Extract and clean text" and "PostgreSQL operations". *)
Definition relational_phase (pdf_path name : text) : M Locals :=
  let* raw_pages := lift (extract_text_from_pdf pdf_path) in
  let full_text := join 32 (map (fun p => clean_text (page_text p)) raw_pages) in
  let lang := detect_language full_text in
  let* document := insert_document name pdf_path lang None in
  let* pieces := chunk_text full_text lang true in
  let* _ := print (LogCreatedChunks (length pieces) name) in
  let* _ := for_each (enumerate 1 pieces) (persist_chunk document lang) in
  ret {| raw_pages := raw_pages; full_text := full_text; lang := lang;
         document := document; pieces := pieces |}.

Definition indicators_by_page (l : Locals) : list (nat * list (text * list text)) :=
  map (fun p => (page_number p, extract (clean_text (page_text p)))) (raw_pages l).

(** "Neo4j operations": the body of the inner [try]. *)
Definition graph_body (driver : Neo4jDriver) (pdf_path name : text) (l : Locals)
    : M bool :=
  let* _ := Neo4jRepository driver in
  let* _ := neo4j_insert_document (document l) name pdf_path (lang l) in
  let* _ := insert_indicators (document l) (indicators_by_page l) in
  ret true.

(** The inner [try] with its handler; [neo4j_success] is what it leaves. *)
Definition graph_phase (neo4j_driver : option Neo4jDriver) (pdf_path name : text)
    (l : Locals) : M bool :=
  match neo4j_driver with
  | Some driver =>
    try_except (graph_body driver pdf_path name l)
      (fun e => let* _ := print (LogNeo4jOperationsFailed name e) in ret false)
  | None => ret true
  end.

Definition run_metadata (name : text) (l : Locals) (graph_ok : bool) : Metadata :=
  {| document_uuid := document l; document_name := name; language := lang l;
     total_pages := length (raw_pages l); neo4j_success := graph_ok |}.

(** "Save files" and the closing line. *)
Definition artifact_phase (name : text) (l : Locals) (graph_ok : bool) : M unit :=
  let indicators_dict := extract (full_text l) in
  let* _ := save_clean_and_json name (full_text l) indicators_dict
                                (run_metadata name l graph_ok) in
  print (LogProcessed graph_ok name (length (pieces l)) (length (raw_pages l))).

(** The artifacts written for a document. *)
Definition artifacts (name : text) (l : Locals) (graph_ok : bool) : list FileOp :=
  [ Mkdir (RAW_DIR config);
    Mkdir (CLEAN_DIR config);
    OpenWrite (path_join (CLEAN_DIR config) (name ++ str "_clean.txt"));
    WriteText (path_join (CLEAN_DIR config) (name ++ str "_clean.txt"))
              (full_text l);
    OpenWrite (path_join (RAW_DIR config) (name ++ str "_indicators.json"));
    WriteJson (path_join (RAW_DIR config) (name ++ str "_indicators.json"))
              (extract (full_text l)) (run_metadata name l graph_ok) ].

Definition closing_lines (name : text) (l : Locals) (graph_ok : bool)
    : list LogEvent :=
  [ LogSavedClean (path_join (CLEAN_DIR config) (name ++ str "_clean.txt"));
    LogSavedIndicators
      (path_join (RAW_DIR config) (name ++ str "_indicators.json"));
    LogProcessed graph_ok name (length (pieces l)) (length (raw_pages l)) ].

Definition process_pdf (pdf_path : text) (neo4j_driver : option Neo4jDriver)
    : M unit :=
  let name := path_stem pdf_path in
  let* _ := print (LogProcessing name) in
  try_except
    (let* l := relational_phase pdf_path name in
     let* graph_ok := graph_phase neo4j_driver pdf_path name l in
     artifact_phase name l graph_ok)
    (fun e => let* _ := print (LogFailedToProcess name e) in raise e).

(** The loop of [process_multiple_pdfs] with its counter. *)
Fixpoint process_each (pdfs : list text) (neo4j_driver : option Neo4jDriver)
    (processed_count : nat) : M nat :=
  match pdfs with
  | [] => ret processed_count
  | pdf_path :: pdfs' =>
    let* w := get in
    let* processed_count :=
      if path_exists w pdf_path then
        try_except
          (let* _ := process_pdf pdf_path neo4j_driver in
           ret (S processed_count))
          (fun e => let* _ := print (LogErrorProcessing pdf_path e) in
                    ret processed_count)
      else
        let* _ := print (LogFileNotFound pdf_path) in
        ret processed_count in
    process_each pdfs' neo4j_driver processed_count
  end.

Definition process_multiple_pdfs (neo4j_driver : option Neo4jDriver) : M unit :=
  match PDFS config with
  | None | Some [] => print LogNoPdfs
  | Some pdfs =>
    let* processed_count := process_each pdfs neo4j_driver 0%nat in
    print (LogSummary processed_count (length pdfs))
  end.

End Model.

Arguments documents {Embedding} w.
Arguments chunks {Embedding} w.
Arguments pending {Embedding} w.
Arguments graph {Embedding} w.
Arguments files {Embedding} w.
Arguments log {Embedding} w.
Arguments draws {Embedding} w.
Arguments chunk_uuid {Embedding} c.
Arguments chunk_document_uuid {Embedding} c.
Arguments chunk_text_of {Embedding} c.
Arguments chunk_embedding {Embedding} c.
Arguments chunk_indicators {Embedding} c.
Arguments chunk_page {Embedding} c.
Arguments chunk_language {Embedding} c.
Arguments OpExecute {Embedding} q.
Arguments OpSession {Embedding}.
Arguments OpRun {Embedding} c.
Arguments OpFile {Embedding} f.
Arguments SelectDocumentUuid {Embedding} name.
Arguments InsertDocument {Embedding} row.
Arguments InsertChunk {Embedding} row.

End Pipeline.
Export Pipeline.

(** ** What a run leaves behind *)

Module Observations.

Section Observations.

Variable Embedding : Type.

(** [steps R m]: from any state, running [m] leads to a state related to
    it by [R], whether [m] returns or raises. *)
Definition steps {A : Type} (R : relation (World Embedding)) (m : M Embedding A)
    : Prop :=
  forall w, R w (snd (m w)).

(** The graph statements grew by statements that satisfy [P]. *)
Definition graph_grows (P : Cypher -> Prop) : relation (World Embedding) :=
  fun w w' => exists sent, graph w' = graph w ++ sent /\ Forall P sent.

(** A part of the state is left as it was. *)
Definition same {X : Type} (part : World Embedding -> X) : relation (World Embedding) :=
  fun w w' => part w' = part w.

(** The statements and rows a computation adds to a state. *)
Definition statements_sent {A : Type} (m : M Embedding A) (w : World Embedding)
    : list Cypher :=
  drop (length (graph w)) (graph (snd (m w))).

Definition rows_inserted {A : Type} (m : M Embedding A) (w : World Embedding)
    : list (ChunkRow Embedding) :=
  drop (length (chunks w)) (chunks (snd (m w))).

Definition lines_printed {A : Type} (m : M Embedding A) (w : World Embedding)
    : list LogEvent :=
  drop (length (log w)) (log (snd (m w))).

Definition files_written {A : Type} (m : M Embedding A) (w : World Embedding)
    : list FileOp :=
  drop (length (files w)) (files (snd (m w))).

(** The run printed the batch summary for [total] documents. *)
Definition reports_count (m : M Embedding unit) (w : World Embedding)
    (total : nat) : Prop :=
  exists processed, In (LogSummary processed total) (lines_printed m w).

End Observations.

(** What the post-processing of [chunk_text] puts in the place of one
    chunk of the primary splitter: the chunk itself, or what the secondary
    splitter makes of it when it is longer than [chunk_size]. *)
Definition put_in_place (recursive_split : nat -> nat -> text -> result (list text))
    (chunk_size chunk_overlap : nat) (chunk : text) (part : list text) : Prop :=
  if Nat.ltb chunk_size (length chunk)
  then recursive_split chunk_size chunk_overlap chunk = Ok part
  else part = [chunk].

Definition within_size (chunk_size : nat) (l : list text) : Prop :=
  Forall (fun c => (length c <= chunk_size)%nat) l.

(** A segment is one of those the secondary splitter returned for some
    text. *)
Definition from_secondary (recursive_split : nat -> nat -> text -> result (list text))
    (chunk_size chunk_overlap : nat) (c : text) : Prop :=
  exists s segments,
    recursive_split chunk_size chunk_overlap s = Ok segments /\ In c segments.

(** The chunker as the specification states it, for given splitters and
    a chunk size of at least 1: under the primary strategy it returns,
    whatever the text, and no segment it returns is longer than
    [chunk_size]. *)
Definition chunking_as_specified (Embedding : Type) (config : Config)
    (spacy_split : text -> nat -> nat -> text -> result (list text))
    (recursive_split : nat -> nat -> text -> result (list text)) : Prop :=
  (1 <= getattr (CHUNK_SIZE config) 500)%nat ->
  forall (t language : text) (w : World Embedding),
    exists l w',
      chunk_text Embedding config spacy_split recursive_split t language true w
        = (Ok l, w') /\
      within_size (getattr (CHUNK_SIZE config) 500%nat) l.

(** An indicator statement is about one of the extracted pages: it
    carries the number of that page, and a value and category found in
    the cleaned text of that page. *)
Definition mentions_page (found_on : Page -> list (text * list text))
    (pages : list Page) (c : Cypher) : Prop :=
  match c with
  | MergeIndicator _ val cat _ page _ =>
    exists p vals, In p pages /\ page = decimal (page_number p) /\
                   In (cat, vals) (found_on p) /\ In val vals
  | _ => True
  end.

(** An indicator statement carries the name-based identity of its
    category and value. *)
Definition identity_by_name (c : Cypher) : Prop :=
  match c with
  | MergeIndicator ind_uuid val cat _ _ _ =>
    uuid5 NAMESPACE_DNS (cat ++ str ":" ++ val) = Some ind_uuid
  | _ => True
  end.

End Observations.
Export Observations.

(** ** Test doubles

    Simple collaborators on which the pipeline can be run: a two-page
    document behind every path but one, a primary splitter that returns
    the text whole, a secondary splitter that cuts every [chunk_size]
    characters, servers and a disk that never fail unless told to. *)

Module Doubles.

Definition sample_pdf : text := str "/app/pdfs/report.pdf".
Definition missing_pdf : text := str "/app/pdfs/missing.pdf".
Definition corrupt_pdf : text := str "/app/pdfs/corrupt.pdf".

Definition fitz_open (p : text) : result (list (result text)) :=
  if text_eqb p corrupt_pdf then Raise (Exception (str "cannot open broken document"))
  else Ok [Ok sample; Ok (str "second page")].

Definition detect (t : text) : result text := Ok (str "en").

Definition spacy_split (pipeline : text) (chunk_size chunk_overlap : nat) (t : text)
    : result (list text) := Ok [t].

Fixpoint cut (fuel size : nat) (t : text) : list text :=
  match fuel with
  | O => []
  | S fuel' =>
    match t with
    | [] => []
    | _ :: _ => take size t :: cut fuel' size (drop size t)
    end
  end.

Definition recursive_split (chunk_size chunk_overlap : nat) (t : text)
    : result (list text) :=
  match chunk_size with
  | O => Raise (Exception (str "chunk_size must be positive"))
  | S _ => Ok (cut (length t) chunk_size t)
  end.

Definition encode (t : text) : result unit := Ok tt.

Definition uuid4_draw (n : nat) : text := str "uuid-" ++ decimal n.

Definition path_exists (w : World unit) (p : text) : bool :=
  negb (text_eqb p missing_pdf).

Definition no_fault (w : World unit) (op : Op unit) : option exn := None.

(** A graph server that refuses connections. *)
Definition graph_down (w : World unit) (op : Op unit) : option exn :=
  match op with
  | OpSession => Some (Exception (str "ServiceUnavailable"))
  | _ => None
  end.

Definition no_phones (t region : text) : list text := [].
Definition no_ipv6 (t : text) : bool := false.

Definition empty_world : World unit :=
  {| documents := []; chunks := []; pending := []; graph := []; files := [];
     log := []; draws := 0 |}.

Definition driver : Neo4jDriver := {| neo4j_uri := str "bolt://localhost:7687" |}.

Definition config (pdfs : list text) : Config := repository_config (str "/app") pdfs.

(** A configuration with a small chunk size, so that the sample page is
    cut in several chunks. *)
Definition small_chunks (pdfs : list text) : Config := {|
  RAW_DIR := RAW_DIR (config pdfs);
  CLEAN_DIR := CLEAN_DIR (config pdfs);
  PDF_DIR := PDF_DIR (config pdfs);
  PDFS := Some pdfs;
  CHUNK_SIZE := Some 40%nat;
  CHUNK_OVERLAP := Some 0%nat;
  MAX_PAGES := 100
|}.

(** Splitters that refuse what the constructors of langchain's splitters
    refuse: [TextSplitter.__init__], which both run first, raises a
    [ValueError] when the overlap is larger than the chunk size.  After it
    they split as the doubles above do. *)
Definition text_splitter_init (chunk_size chunk_overlap : nat) : result unit :=
  if Nat.ltb chunk_size chunk_overlap
  then Raise (Exception (str "Got a larger chunk overlap (" ++ decimal chunk_overlap
                         ++ str ") than chunk size (" ++ decimal chunk_size
                         ++ str "), should be smaller."))
  else Ok tt.

Definition strict_spacy (pipeline : text) (chunk_size chunk_overlap : nat) (t : text)
    : result (list text) :=
  match text_splitter_init chunk_size chunk_overlap with
  | Raise e => Raise e
  | Ok _ => spacy_split pipeline chunk_size chunk_overlap t
  end.

Definition strict_recursive (chunk_size chunk_overlap : nat) (t : text)
    : result (list text) :=
  match text_splitter_init chunk_size chunk_overlap with
  | Raise e => Raise e
  | Ok _ => recursive_split chunk_size chunk_overlap t
  end.

(** The configuration of the repository with chunks of 100 characters;
    the overlap stays at the 200 of config.py. *)
Definition narrow_chunks (pdfs : list text) : Config := {|
  RAW_DIR := RAW_DIR (config pdfs);
  CLEAN_DIR := CLEAN_DIR (config pdfs);
  PDF_DIR := PDF_DIR (config pdfs);
  PDFS := Some pdfs;
  CHUNK_SIZE := Some 100%nat;
  CHUNK_OVERLAP := CHUNK_OVERLAP (config pdfs);
  MAX_PAGES := MAX_PAGES (config pdfs)
|}.

End Doubles.

(** ** config.py: the settings read from the environment *)

Module Settings.

(** [REGIONS = os.getenv("REGIONS", "").split(",") if os.getenv("REGIONS")
    else []], for the value of the environment variable ([None] when it
    is unset). *)
Definition REGIONS (env : option text) : list text :=
  match env with
  | Some (c :: s) => split_on 44 (c :: s)
  | Some [] | None => []
  end.

End Settings.
Export Settings.

(** ** Further notions used to state what the rest of the module does *)

Module Notions.

(** [m] occurs in [t], character for character. *)
Definition occurs_in (m t : text) : Prop :=
  exists pre post, t = pre ++ m ++ post.

(** The keys of the categories whose matches are stored as they are
    found, and of those stored in lower case. *)
Definition verbatim_keys : list text :=
  map str ["urls"; "ips"; "social_handles"; "tracking_ids"]%string.

Definition lowered_keys : list text := map str ["domains"; "emails"]%string.

(** Lower-case letters, digits, dots and hyphens. *)
Definition host_lower_char (c : char) : bool :=
  is_lower_ascii c || is_digit_ascii c || (c =? 46) || (c =? 45).

(** A character that every indicator of a category contains, for the
    categories filled by the patterns of the module. *)
Definition markers : list (text * char) :=
  [ (str "domains", 46); (str "ips", 46); (str "emails", 46);
    (str "emails", 64); (str "urls", 58); (str "urls", 47);
    (str "social_handles", 64); (str "tracking_ids", 45) ].

(** The only white space of [s] is single blanks, none of them next to
    another; [after_space] tells whether the character before [s] is
    white space. *)
Fixpoint spaced (space : char -> bool) (after_space : bool) (s : text) : bool :=
  match s with
  | [] => true
  | c :: s' =>
    if space c then (c =? 32) && negb after_space && spaced space true s'
    else spaced space false s'
  end.

(** No two rows of the documents table have the same name. *)
Definition names_unique (rows : list DocRow) : Prop :=
  NoDup (map doc_name rows).

Section Invariants.

Variable Embedding : Type.

(** A property of a part of the state that a step does not break. *)
Definition keeps {X : Type} (part : World Embedding -> X) (Inv : X -> Prop)
    : relation (World Embedding) :=
  fun w w' => Inv (part w) -> Inv (part w').

(** The state when the disk operations [ops] have been completed, in
    this order, and nothing else has happened. *)
Definition after_disk (ops : list FileOp) (w : World Embedding) : World Embedding :=
  set_files Embedding (files w ++ ops) w.

(** What [process_pdf] computed in a run that returned, read off what it
    was given and what it left: the pages are those extracted from the
    document, the full text is their cleaned texts joined by blanks, the
    language is the one detected on it, the identity is the one stored
    under the name of the document when the run is over, and the pieces
    are the texts of the chunk rows it inserted. *)
Definition locals_of (U : Unicode) (config : Config)
    (fitz_open : text -> result (list (result text)))
    (detect : text -> result text)
    (pdf_path : text) (w' : World Embedding) (rows : list (ChunkRow Embedding))
    (l : Locals) : Prop :=
  extract_text_from_pdf config fitz_open pdf_path = Ok (raw_pages l) /\
  full_text l =
    join 32 (map (fun p => clean_text U (page_text p)) (raw_pages l)) /\
  lang l = detect_language detect (full_text l) /\
  (exists row, find_document (path_stem pdf_path) (documents w') = Some row /\
               doc_uuid row = document l) /\
  pieces l = map (fun r => chunk_text_of r) rows.

End Invariants.

(** The disk operations of [save_clean_and_json], in the order of the
    source. *)
Definition save_operations (config : Config) (name full : text)
    (found : list (text * list text)) (metadata : Metadata) : list FileOp :=
  [ Mkdir (RAW_DIR config);
    Mkdir (CLEAN_DIR config);
    OpenWrite (path_join (CLEAN_DIR config) (name ++ str "_clean.txt"));
    WriteText (path_join (CLEAN_DIR config) (name ++ str "_clean.txt")) full;
    OpenWrite (path_join (RAW_DIR config) (name ++ str "_indicators.json"));
    WriteJson (path_join (RAW_DIR config) (name ++ str "_indicators.json"))
              found metadata ].

(** A statement that merges a document node does so for this identity,
    name, path and language. *)
Definition document_node (id name path lang : text) (c : Cypher) : Prop :=
  match c with
  | MergeDocument u n p l => u = id /\ n = name /\ p = path /\ l = lang
  | _ => True
  end.

(** The (page, category, value) triples of [indicators_by_page], in the
    order of the three nested loops of [insert_indicators]. *)
Definition triples (pages : list (nat * list (text * list text)))
    : list (nat * text * text) :=
  flat_map (fun page_entry =>
    flat_map (fun category_entry =>
      map (fun value => (fst page_entry, fst category_entry, value))
          (snd category_entry))
      (snd page_entry))
    pages.

(** What a statement says about a mention, its identities aside. *)
Definition mention_of (c : Cypher) : option (text * text * text * text) :=
  match c with
  | MergeIndicator _ val cat doc page _ => Some (doc, page, cat, val)
  | _ => None
  end.

Definition relationship_of (c : Cypher) : option text :=
  match c with
  | MergeIndicator _ _ _ _ _ rel => Some rel
  | _ => None
  end.

End Notions.
Export Notions.

(** ** Further test doubles *)

Module MoreDoubles.

(** A line with a tracking identifier and a handle, and one with
    nothing to find. *)
Definition tracked : text := str "tag UA-12345-6 set by @bob".
Definition plain : text := str "nothing to report today".

(** The report again, found in another directory. *)
Definition moved_pdf : text := str "/archive/report.pdf".

(** A disk that is full when the indicators are written. *)
Definition disk_full (w : World unit) (op : Op unit) : option exn :=
  match op with
  | OpFile (WriteJson _ _ _) => Some (Exception (str "No space left on device"))
  | _ => None
  end.

Definition sample_metadata : Metadata :=
  {| document_uuid := str "uuid-0"; document_name := str "report";
     language := str "en"; total_pages := 2; neo4j_success := true |}.

(** A document whose second page cannot be read. *)
Definition torn_pdf : text := str "/app/pdfs/torn.pdf".

Definition fitz_torn (p : text) : result (list (result text)) :=
  Ok [Ok (str "first page"); Raise (Exception (str "cannot read page 2"))].

(** The configuration of the repository with a limit of one page. *)
Definition first_page_only : Config := {|
  RAW_DIR := RAW_DIR (Doubles.config []);
  CLEAN_DIR := CLEAN_DIR (Doubles.config []);
  PDF_DIR := PDF_DIR (Doubles.config []);
  PDFS := Some [torn_pdf];
  CHUNK_SIZE := Some 500%nat;
  CHUNK_OVERLAP := Some 200%nat;
  MAX_PAGES := 1
|}.

End MoreDoubles.
(** * Properties *)

(** ** The order on text and [sorted] *)

Module TextOrder.

Lemma text_leb_refl (a : text) : text_leb a a = true.
Proof.
  induction a as [|x a IH]; simpl; [reflexivity|].
  rewrite N.ltb_irrefl. exact IH.
Qed.

Lemma text_eqb_eq (a b : text) : text_eqb a b = true <-> a = b.
Proof.
  revert b. induction a as [|x a IH]; intros [|y b]; simpl;
    try (split; [discriminate | congruence]); [tauto |].
  rewrite andb_true_iff, N.eqb_eq, IH. split.
  - intros [-> ->]. reflexivity.
  - intros H. injection H as -> ->. auto.
Qed.

Lemma text_eqb_refl (a : text) : text_eqb a a = true.
Proof. apply text_eqb_eq. reflexivity. Qed.

#[global] Instance text_le_total : Total text_le.
Proof.
  intros a. unfold text_le. induction a as [|x a IH]; intros [|y b]; simpl; auto.
  destruct (N.ltb_spec x y), (N.ltb_spec y x); auto; try lia.
Qed.

#[global] Instance text_le_trans : Transitive text_le.
Proof.
  intros a. unfold text_le.
  induction a as [|x a IH]; intros [|y b] [|z c]; simpl; auto; try discriminate.
  destruct (N.ltb_spec x y), (N.ltb_spec y x), (N.ltb_spec y z),
    (N.ltb_spec z y), (N.ltb_spec x z), (N.ltb_spec z x);
    try discriminate; try lia; auto.
  apply IH.
Qed.

#[global] Instance text_le_antisym : AntiSymm eq text_le.
Proof.
  intros a. unfold text_le.
  induction a as [|x a IH]; intros [|y b]; simpl; auto; try discriminate.
  destruct (N.ltb_spec x y), (N.ltb_spec y x); try discriminate; try lia.
  intros H1 H2. assert (x = y) by lia. subst. f_equal. auto.
Qed.

Lemma strictly_sorted_NoDup (l : list text) : strictly_sorted l -> NoDup l.
Proof.
  induction 1 as [|x l Hs IH Hall]; constructor; auto.
  intros Hin. rewrite Forall_forall in Hall.
  destruct (Hall x Hin) as [_ Hne]. congruence.
Qed.

Lemma strictly_sorted_of (l : list text) :
  StronglySorted text_le l -> NoDup l -> strictly_sorted l.
Proof.
  induction 1 as [|x l Hs IH Hall]; intros Hnd; [constructor|].
  apply NoDup_cons in Hnd as [Hx Hnd].
  constructor; [apply IH; assumption|].
  apply Forall_forall. intros y Hy. rewrite Forall_forall in Hall.
  split; [auto|]. intros ->. auto.
Qed.

(** Two strictly sorted sequences with the same elements are equal: the
    sorted form of a set does not depend on the order of enumeration. *)
Lemma strictly_sorted_unique (l1 l2 : list text) :
  strictly_sorted l1 -> strictly_sorted l2 ->
  (forall x, x ∈ l1 <-> x ∈ l2) -> l1 = l2.
Proof.
  intros H1. revert l2. induction H1 as [|x l1 Hs1 IH Hall1]; intros l2 H2 Heq.
  - destruct l2 as [|y l2]; [reflexivity|].
    assert (Hy : y ∈ @nil text) by (apply Heq; left). inversion Hy.
  - destruct H2 as [|y l2 Hs2 Hall2].
    + assert (Hx : x ∈ @nil text) by (apply Heq; left). inversion Hx.
    + rewrite Forall_forall in Hall1, Hall2.
      assert (x = y) as ->.
      { assert (Hx : x ∈ y :: l2) by (apply Heq; left).
        assert (Hy : y ∈ x :: l1) by (apply Heq; left).
        apply elem_of_cons in Hx as [?|Hx]; [assumption|].
        apply elem_of_cons in Hy as [?|Hy]; [congruence|].
        destruct (Hall1 y Hy) as [Hxy _]. destruct (Hall2 x Hx) as [Hyx _].
        apply (anti_symm text_le); assumption. }
      f_equal. apply IH; [assumption|]. intros z. split; intros Hz.
      * assert (Hz' : z ∈ y :: l2) by (apply Heq; right; assumption).
        apply elem_of_cons in Hz' as [->|?]; [|assumption].
        destruct (Hall1 y Hz) as [_ Hne]. congruence.
      * assert (Hz' : z ∈ y :: l1) by (apply Heq; right; assumption).
        apply elem_of_cons in Hz' as [->|?]; [|assumption].
        destruct (Hall2 y Hz) as [_ Hne]. congruence.
Qed.

Lemma sorted_elem_of (v : gset text) (x : text) : x ∈ sorted v <-> x ∈ v.
Proof.
  unfold sorted, sorted_from. rewrite merge_sort_Permutation.
  apply elem_of_elements.
Qed.

Lemma sorted_strictly_sorted (v : gset text) : strictly_sorted (sorted v).
Proof.
  apply strictly_sorted_of.
  - apply StronglySorted_merge_sort; apply _.
  - unfold sorted, sorted_from. rewrite merge_sort_Permutation.
    apply NoDup_elements.
Qed.

Lemma sorted_NoDup (v : gset text) : NoDup (sorted v).
Proof. apply strictly_sorted_NoDup, sorted_strictly_sorted. Qed.

(** [sorted] is the only strictly sorted enumeration of the set. *)
Lemma sorted_unique (v : gset text) (l : list text) :
  strictly_sorted l -> (forall x, x ∈ l <-> x ∈ v) -> l = sorted v.
Proof.
  intros Hl Hv. apply strictly_sorted_unique;
    [assumption | apply sorted_strictly_sorted |].
  intros x. rewrite Hv, sorted_elem_of. reflexivity.
Qed.

End TextOrder.
Export TextOrder.

(** ** Soundness of the matcher *)

Module ReFacts.

Section Sound.

Variable U : Unicode.

Lemma last_char_nil (prev : option char) : last_char prev [] = prev.
Proof. reflexivity. Qed.

Lemma last_char_app (prev : option char) (u v : text) :
  last_char (last_char prev u) v = last_char prev (u ++ v).
Proof.
  unfold last_char. rewrite last_app.
  destruct (last v); [reflexivity|]. destruct (last u); reflexivity.
Qed.

Lemma last_char_nonempty (prev : option char) (w : text) :
  w <> [] -> last_char prev w = last w.
Proof.
  unfold last_char. destruct w as [|c w] using rev_ind; [congruence|].
  intros _. rewrite last_snoc. reflexivity.
Qed.

Lemma iter_sound {A : Type} (a : regex) body lo hi
    (k : option char -> text -> option A) :
  body_sound a body ->
  forall fuel n prev s x,
    iter body lo hi k fuel n prev s = Some x ->
    within n hi ->
    exists ws s', s = concat ws ++ s' /\ Forall (den a) ws /\
      (lo <= n + length ws)%nat /\ within (n + length ws) hi /\
      k (last_char prev (concat ws)) s' = Some x.
Proof.
  intros Hbody. induction fuel as [|fuel IH]; intros n prev s x Hrun Hn.
  - simpl in Hrun. destruct (Nat.leb_spec lo n); [|discriminate].
    exists [], s. simpl. rewrite Nat.add_0_r. repeat split; auto.
  - simpl in Hrun.
    assert (Hstop : (if Nat.leb lo n then k prev s else None) = Some x ->
      exists ws s', s = concat ws ++ s' /\ Forall (den a) ws /\
        (lo <= n + length ws)%nat /\ within (n + length ws) hi /\
        k (last_char prev (concat ws)) s' = Some x).
    { intros Hk. destruct (Nat.leb_spec lo n); [|discriminate].
      exists [], s. simpl. rewrite Nat.add_0_r. repeat split; auto. }
    destruct (below n hi) eqn:Hbelow; [|auto].
    match type of Hrun with
    | match ?e with _ => _ end = _ => destruct e as [y|] eqn:Hb
    end; [|auto].
    injection Hrun as ->.
    apply Hbody in Hb as (w & s' & -> & Hw & Hk).
    destruct (Nat.ltb_spec (length s') (length (w ++ s'))); [|discriminate].
    apply IH in Hk as (ws & s'' & -> & Hws & Hlo & Hhi & Hk).
    + exists (w :: ws), s''. simpl. rewrite <- app_assoc.
      rewrite last_char_app in Hk.
      replace (n + S (length ws))%nat with (S n + length ws)%nat by lia.
      repeat split; auto.
    + destruct hi as [h|]; simpl in *; [|exact I].
      apply Nat.ltb_lt in Hbelow. lia.
Qed.

Lemma exec_sound {A : Type} (r : regex) :
  body_sound (A := A) r (exec U r).
Proof.
  revert A. induction r as [|p| |a IHa b IHb|a IHa lo hi];
    intros A prev s k x Hrun; simpl in Hrun.
  - exists [], s. repeat split; assumption.
  - destruct s as [|c s]; [discriminate|].
    destruct (p c) eqn:Hp; [|discriminate].
    exists [c], s. simpl. eauto.
  - destruct (at_boundary U prev s); [|discriminate].
    exists [], s. repeat split; assumption.
  - apply IHa in Hrun as (u & s1 & -> & Hu & Hrun).
    apply IHb in Hrun as (v & s2 & -> & Hv & Hrun).
    exists (u ++ v), s2. rewrite <- app_assoc.
    rewrite last_char_app in Hrun. simpl. eauto 10.
  - eapply iter_sound in Hrun as (ws & s' & -> & Hws & Hlo & Hhi & Hk);
      [| apply IHa | destruct hi; simpl; [lia | exact I] ].
    exists (concat ws), s'. simpl. eauto 10.
Qed.

(** A match at a position: the text read is in the pattern's language. *)
Lemma match_here_sound (r : regex) prev s prev' rest :
  match_here U r prev s = Some (prev', rest) ->
  exists w, s = w ++ rest /\ den r w /\ prev' = last_char prev w /\
            take (length s - length rest) s = w.
Proof.
  unfold match_here. intros H.
  apply exec_sound in H as (w & s' & -> & Hw & Hk).
  injection Hk as <- <-. exists w. repeat split; auto.
  rewrite length_app. replace (length w + length s' - length s')%nat
    with (length w) by lia.
  apply take_app_length.
Qed.

(** Every result of [findall] is a piece of the text in the language of
    the pattern. *)
Lemma findall_from_sound (r : regex) (fuel : nat) :
  forall prev s m, m ∈ findall_from U r fuel prev s ->
    exists pre post, s = pre ++ m ++ post /\ den r m.
Proof.
  induction fuel as [|fuel IH]; intros prev s m Hin; simpl in Hin.
  - inversion Hin.
  - assert (Hadv : m ∈ match advance s with
                       | Some (p, s') => findall_from U r fuel p s'
                       | None => []
                       end ->
                   exists pre post, s = pre ++ m ++ post /\ den r m).
    { destruct s as [|c s]; simpl; [inversion 1|].
      intros H. apply IH in H as (pre & post & -> & Hm).
      exists (c :: pre), post. auto. }
    destruct (match_here U r prev s) as [[prev' rest]|] eqn:Hm; [|auto].
    apply match_here_sound in Hm as (w & Hs & Hw & Hp & Htake).
    rewrite Htake in Hin. destruct w as [|c w].
    + apply elem_of_cons in Hin as [->|Hin]; [|auto].
      exists [], s. auto.
    + apply elem_of_cons in Hin as [->|Hin].
      * exists [], rest. auto.
      * apply IH in Hin as (pre & post & -> & Hm).
        exists ((c :: w) ++ pre), post. rewrite Hs, <- app_assoc. auto.
Qed.

(** A matched string is made of characters the pattern can read. *)
Lemma den_alphabet (r : regex) (w : text) :
  den r w -> Forall (fun c => alphabet r c = true) w.
Proof.
  revert w. induction r as [|p| |a IHa b IHb|a IHa lo hi]; intros w; simpl.
  - intros ->. constructor.
  - intros (c & -> & Hc). repeat constructor. assumption.
  - intros ->. constructor.
  - intros (u & v & -> & Hu & Hv). apply Forall_app. split.
    + eapply Forall_impl; [apply IHa, Hu|]. simpl. intros c ->. reflexivity.
    + eapply Forall_impl; [apply IHb, Hv|]. simpl. intros c ->.
      apply orb_true_r.
  - intros (ws & -> & Hws & _). induction Hws as [|x ws Hx Hws IH]; simpl.
    + constructor.
    + apply Forall_app. split; [apply IHa, Hx | apply IH].
Qed.

Lemma findall_sound (r : regex) (s m : text) :
  m ∈ findall U r s -> exists pre post, s = pre ++ m ++ post /\ den r m.
Proof. apply findall_from_sound. Qed.

Lemma exec_Seq {A : Type} (a b : regex) prev s
    (k : option char -> text -> option A) :
  exec U (Seq a b) prev s k = exec U a prev s (fun p' s' => exec U b p' s' k).
Proof. reflexivity. Qed.

Lemma exec_Cls {A : Type} (p : char -> bool) prev s
    (k : option char -> text -> option A) :
  exec U (Cls p) prev s k =
  match s with
  | c :: s' => if p c then k (Some c) s' else None
  | [] => None
  end.
Proof. reflexivity. Qed.

Lemma exec_Rep {A : Type} (a : regex) lo hi prev s
    (k : option char -> text -> option A) :
  exec U (Rep a lo hi) prev s k = iter (exec U a) lo hi k (length s) O prev s.
Proof. reflexivity. Qed.

(** *** A greedy run of one class *)

Lemma take_drop_while (p : char -> bool) (s : text) :
  take_while p s ++ drop_while p s = s.
Proof.
  induction s as [|c s IH]; simpl; [reflexivity|].
  destruct (p c); simpl; [rewrite IH|]; reflexivity.
Qed.

Lemma take_while_all (p : char -> bool) (s : text) :
  Forall (fun c => p c = true) (take_while p s).
Proof.
  induction s as [|c s IH]; simpl; [constructor|].
  destruct (p c) eqn:Hc; constructor; assumption.
Qed.

Lemma take_prefix (u v : text) : take (length (u ++ v) - length v) (u ++ v) = u.
Proof.
  rewrite length_app.
  replace (length u + length v - length v)%nat with (length u) by lia.
  apply take_app_length.
Qed.

(** A character outside the class stops the run, whatever comes after. *)
Lemma take_while_stop (p : char -> bool) (u v : text) (c : char) :
  p c = false -> take_while p (u ++ c :: v) = take_while p u.
Proof.
  intros Hc. induction u as [|x u IH]; simpl.
  - rewrite Hc. reflexivity.
  - destruct (p x); [rewrite IH|]; reflexivity.
Qed.

Lemma drop_while_stop (p : char -> bool) (u v : text) (c : char) :
  p c = false -> drop_while p (u ++ c :: v) = drop_while p u ++ c :: v.
Proof.
  intros Hc. induction u as [|x u IH]; simpl.
  - rewrite Hc. reflexivity.
  - destruct (p x); [rewrite IH|]; reflexivity.
Qed.

Lemma drop_while_length (p : char -> bool) (s : text) :
  (length (drop_while p s) <= length s)%nat.
Proof.
  induction s as [|c s IH]; simpl; [lia|]. destruct (p c); simpl; lia.
Qed.

(** At the end of a pattern, [p{lo,}] reads the whole run of [p]. *)
Lemma iter_cls_greedy (p : char -> bool) (lo : nat) :
  forall s fuel n prev, (length s <= fuel)%nat ->
    iter (exec U (Cls p)) lo None (fun p' s' => Some (p', s')) fuel n prev s =
    if Nat.leb lo (n + length (take_while p s))
    then Some (last_char prev (take_while p s), drop_while p s)
    else None.
Proof.
  induction s as [|c s IH]; intros fuel n prev Hfuel.
  - simpl. rewrite Nat.add_0_r. destruct fuel; reflexivity.
  - destruct fuel as [|fuel]; [simpl in Hfuel; lia|].
    cbn [iter below exec take_while drop_while].
    destruct (p c) eqn:Hc.
    + replace (Nat.ltb (length s) (length (c :: s))) with true
        by (symmetry; apply Nat.ltb_lt; simpl; lia).
      rewrite IH by (simpl in Hfuel; lia).
      cbn [length].
      replace (n + S (length (take_while p s)))%nat
        with (S n + length (take_while p s))%nat by lia.
      destruct (Nat.leb_spec lo (S n + length (take_while p s))).
      * f_equal. f_equal.
        change (c :: take_while p s) with ([c] ++ take_while p s).
        rewrite <- last_char_app. reflexivity.
      * destruct (Nat.leb_spec lo n); [lia | reflexivity].
    + simpl. rewrite Nat.add_0_r. reflexivity.
Qed.

End Sound.

End ReFacts.
Export ReFacts.

(** ** [ipaddress]: the strings accepted are the dotted quads *)

Module IpaddressFacts.

Lemma split_on_nonempty (sep : char) (s : text) : split_on sep s <> [].
Proof.
  destruct s as [|c s]; simpl; [discriminate|].
  destruct (c =? sep); [discriminate|].
  destruct (split_on sep s); discriminate.
Qed.

Lemma join_split (sep : char) (s : text) : join sep (split_on sep s) = s.
Proof.
  induction s as [|c s IH]; simpl; [reflexivity|].
  destruct (N.eqb_spec c sep) as [->|Hne].
  - pose proof (split_on_nonempty sep s) as Hn.
    destruct (split_on sep s) as [|w ws]; [congruence|].
    simpl. simpl in IH. rewrite IH. reflexivity.
  - pose proof (split_on_nonempty sep s) as Hn.
    destruct (split_on sep s) as [|w ws]; [congruence|].
    simpl in *. destruct ws; simpl in *; rewrite <- IH; reflexivity.
Qed.

Lemma split_on_free (sep : char) (u : text) :
  Forall (fun c => c <> sep) u -> split_on sep u = [u].
Proof.
  induction 1 as [|c u Hc Hu IH]; simpl; [reflexivity|].
  destruct (N.eqb_spec c sep); [contradiction|]. rewrite IH. reflexivity.
Qed.

Lemma split_on_app (sep : char) (u v : text) :
  Forall (fun c => c <> sep) u ->
  split_on sep (u ++ sep :: v) = u :: split_on sep v.
Proof.
  induction 1 as [|c u Hc Hu IH]; simpl.
  - rewrite N.eqb_refl. reflexivity.
  - destruct (N.eqb_spec c sep); [contradiction|]. rewrite IH. reflexivity.
Qed.

Lemma digit_in_digits (c : char) : is_digit_ascii c = true -> In c digits.
Proof.
  unfold is_digit_ascii, in_range. rewrite andb_true_iff, !N.leb_le.
  intros [Hlo Hhi]. unfold digits. apply in_map_iff.
  exists (N.to_nat c). split; [apply N2Nat.id|]. apply in_seq. lia.
Qed.

Lemma digit_string_listed (o : text) :
  o <> [] -> forallb is_digit_ascii o = true -> (length o <= 3)%nat ->
  In o digit_strings.
Proof.
  intros Hne Hd Hlen. unfold digit_strings.
  destruct o as [|a [|b [|c [|]]]]; simpl in Hlen; try congruence; try lia;
    simpl in Hd; rewrite ?andb_true_iff in Hd.
  - apply in_or_app. left. apply in_flat_map. exists a.
    split; [apply digit_in_digits; tauto | left; reflexivity].
  - apply in_or_app. right. apply in_or_app. left.
    apply in_flat_map. exists a. split; [apply digit_in_digits; tauto|].
    apply in_flat_map. exists b. split; [apply digit_in_digits; tauto|].
    left; reflexivity.
  - apply in_or_app. right. apply in_or_app. right.
    apply in_flat_map. exists a. split; [apply digit_in_digits; tauto|].
    apply in_flat_map. exists b. split; [apply digit_in_digits; tauto|].
    apply in_flat_map. exists c. split; [apply digit_in_digits; tauto|].
    left; reflexivity.
Qed.

Lemma parse_octet_digits (o : text) (n : N) :
  parse_octet o = Some n ->
  o <> [] /\ forallb is_digit_ascii o = true /\ (length o <= 3)%nat.
Proof.
  unfold parse_octet. destruct o as [|c o]; [discriminate|].
  destruct (forallb is_digit_ascii (c :: o)) eqn:Hd; cbn [negb];
    [|discriminate].
  destruct (Nat.ltb_spec 3 (length (c :: o))); [discriminate|].
  intros _. repeat split; [discriminate | assumption].
Qed.

Lemma parse_octet_table :
  forallb (fun o => match parse_octet o with
                    | Some n => text_eqb o (dec n) && (n <=? 255)
                    | None => true
                    end) digit_strings = true.
Proof. vm_compute. reflexivity. Qed.

Lemma dec_table :
  forallb (fun n => match parse_octet (dec n) with
                    | Some m => m =? n
                    | None => false
                    end) (map N.of_nat (seq 0 256)) = true.
Proof. vm_compute. reflexivity. Qed.

(** An octet is accepted exactly when it is the decimal numeral, without
    superfluous zeros, of a number up to 255. *)
Lemma parse_octet_some (o : text) (n : N) :
  parse_octet o = Some n -> o = dec n /\ n <= 255.
Proof.
  intros H. pose proof (parse_octet_digits _ _ H) as (Hne & Hd & Hlen).
  pose proof (digit_string_listed o Hne Hd Hlen) as Hin.
  pose proof parse_octet_table as Ht. rewrite forallb_forall in Ht.
  specialize (Ht o Hin). rewrite H in Ht.
  apply andb_true_iff in Ht as [Heq Hle].
  apply text_eqb_eq in Heq. apply N.leb_le in Hle. auto.
Qed.

Lemma parse_octet_dec (n : N) : n <= 255 -> parse_octet (dec n) = Some n.
Proof.
  intros Hn. pose proof dec_table as Ht. rewrite forallb_forall in Ht.
  assert (Hin : In n (map N.of_nat (seq 0 256))).
  { apply in_map_iff. exists (N.to_nat n). split; [apply N2Nat.id|].
    apply in_seq. lia. }
  specialize (Ht n Hin).
  destruct (parse_octet (dec n)) as [m|]; [|discriminate].
  apply N.eqb_eq in Ht. congruence.
Qed.

Lemma digits_not (o : text) (x : char) :
  forallb is_digit_ascii o = true -> is_digit_ascii x = false ->
  Forall (fun c => c <> x) o.
Proof.
  intros Hd Hx. apply Forall_forall. intros c Hc ->.
  rewrite forallb_forall in Hd. apply list_elem_of_In in Hc.
  rewrite (Hd x Hc) in Hx. discriminate.
Qed.

Lemma existsb_eqb_false (x : char) (s : text) :
  Forall (fun c => c <> x) s -> existsb (N.eqb x) s = false.
Proof.
  induction 1 as [|c s Hc Hs IH]; simpl; [reflexivity|].
  rewrite IH. destruct (N.eqb_spec x c); [congruence | reflexivity].
Qed.

Lemma count_absent (x : char) (s : text) :
  Forall (fun c => c <> x) s -> count x s = O.
Proof.
  induction 1 as [|c s Hc Hs IH]; simpl; [reflexivity|].
  destruct (N.eqb_spec c x); [contradiction | exact IH].
Qed.

Lemma dec_digits (n : N) : n <= 255 -> forallb is_digit_ascii (dec n) = true.
Proof.
  intros Hn. apply parse_octet_dec in Hn.
  apply parse_octet_digits in Hn. tauto.
Qed.

Lemma IPv4Address_complete (s : text) :
  valid_ipv4 s -> is_Some (IPv4Address s).
Proof.
  intros (a & b & c & d & Ha & Hb & Hc & Hd & ->).
  pose proof (dec_digits a Ha) as Da. pose proof (dec_digits b Hb) as Db.
  pose proof (dec_digits c Hc) as Dc. pose proof (dec_digits d Hd) as Dd.
  unfold IPv4Address, dotted_quad.
  assert (Hslash : existsb (N.eqb 47)
            (dec a ++ [46] ++ dec b ++ [46] ++ dec c ++ [46] ++ dec d) = false).
  { apply existsb_eqb_false.
    repeat (apply Forall_app; split);
      try (apply digits_not; [assumption | reflexivity]);
      repeat constructor; discriminate. }
  rewrite Hslash.
  destruct (dec a ++ [46] ++ dec b ++ [46] ++ dec c ++ [46] ++ dec d)
    as [|x xs] eqn:Hs.
  { destruct (dec a); discriminate Hs. }
  rewrite <- Hs. simpl app.
  rewrite !split_on_app by (apply digits_not; [assumption | reflexivity]).
  rewrite split_on_free by (apply digits_not; [assumption | reflexivity]).
  simpl. rewrite !parse_octet_dec by assumption. eexists. reflexivity.
Qed.

Lemma IPv4Address_sound (s : text) :
  is_Some (IPv4Address s) -> valid_ipv4 s.
Proof.
  intros [l H]. unfold IPv4Address in H.
  destruct (existsb (N.eqb 47) s); [discriminate|].
  destruct s as [|x xs] eqn:Hs; [discriminate|]. rewrite <- Hs in *.
  pose proof (join_split 46 s) as Hj.
  destruct (split_on 46 s) as [|o1 [|o2 [|o3 [|o4 [|]]]]]; try discriminate H.
  simpl in H.
  destruct (parse_octet o1) as [a|] eqn:H1; [|discriminate].
  destruct (parse_octet o2) as [b|] eqn:H2; [|discriminate].
  destruct (parse_octet o3) as [c|] eqn:H3; [|discriminate].
  destruct (parse_octet o4) as [d|] eqn:H4; [|discriminate].
  apply parse_octet_some in H1 as [-> ?]. apply parse_octet_some in H2 as [-> ?].
  apply parse_octet_some in H3 as [-> ?]. apply parse_octet_some in H4 as [-> ?].
  exists a, b, c, d. repeat split; try assumption.
  rewrite <- Hj. reflexivity.
Qed.

(** A string without a colon is accepted by [ip_address] exactly when it
    is a dotted quad of octets up to 255. *)
Lemma ip_address_valid (ipv6_hextets : text -> bool) (s : text) :
  Forall (fun c => c <> 58) s ->
  ip_address ipv6_hextets s = true <-> valid_ipv4 s.
Proof.
  intros Hcolon. unfold ip_address. split.
  - destruct (IPv4Address s) as [l|] eqn:H4.
    + intros _. apply IPv4Address_sound. rewrite H4. eexists; reflexivity.
    + unfold IPv6Address. destruct (existsb (N.eqb 47) s); [discriminate|].
      rewrite count_absent by assumption. discriminate.
  - intros Hv. apply IPv4Address_complete in Hv as [l ->]. reflexivity.
Qed.

End IpaddressFacts.
Export IpaddressFacts.

(** ** The indicator extractor *)

Module ExtractorFacts.

Section Facts.

Variable U : Unicode.
Variable phone_matches : text -> text -> list text.
Variable ipv6_hextets : text -> bool.

Abbreviation extract := (extract_indicators_by_category U phone_matches ipv6_hextets).
Abbreviation indicator_sets := (indicators U phone_matches ipv6_hextets).

(** Whatever order the set enumerates its elements in, [sorted] returns
    the same sequence. *)
Lemma sorted_from_any_order (v : gset text) (e : list text) :
  e ≡ₚ elements v -> sorted_from e = sorted v.
Proof.
  intros He. apply sorted_unique.
  - apply strictly_sorted_of.
    + apply StronglySorted_merge_sort; apply _.
    + unfold sorted_from. rewrite merge_sort_Permutation, He.
      apply NoDup_elements.
  - intros x. unfold sorted_from.
    rewrite merge_sort_Permutation, He. apply elem_of_elements.
Qed.

Lemma extract_keys (t : text) : map fst (extract t) = category_names.
Proof. reflexivity. Qed.

Lemma extract_get (t : text) (k : text) (v : gset text) :
  dict_get k (indicator_sets t) = Some v ->
  dict_get k (extract t) = Some (sorted v).
Proof.
  unfold extract_indicators_by_category.
  induction (indicator_sets t) as [|[k' v'] d IH]; simpl; [discriminate|].
  destruct (text_eqb k' k); [|exact IH]. intros [= ->]. reflexivity.
Qed.

(** C5: for every text, the dictionary returned has exactly the seven
    category keys; every category is a sequence sorted in strictly
    ascending code-point order, hence without duplicates; and it is the
    same sequence whatever order the underlying set enumerates its
    elements in, so that two runs on the same text agree. *)
Theorem extract_sorted_duplicate_free (t : text) :
  map fst (extract t) = category_names /\
  Forall (fun kv => strictly_sorted (snd kv) /\ NoDup (snd kv)) (extract t) /\
  Forall2 (fun kv out =>
             fst out = fst kv /\
             forall e, e ≡ₚ elements (snd kv) -> sorted_from e = snd out)
          (indicator_sets t) (extract t).
Proof.
  split; [reflexivity|]. unfold extract_indicators_by_category. split.
  - apply Forall_forall. intros kv Hkv. apply list_elem_of_In in Hkv.
    apply in_map_iff in Hkv as (kv' & <- & _). simpl. split.
    + apply sorted_strictly_sorted.
    + apply sorted_NoDup.
  - induction (indicator_sets t) as [|kv d IH]; simpl; constructor; auto.
    simpl. split; [reflexivity|]. apply sorted_from_any_order.
Qed.

(** C1 (as amended): on the sample text the extractor returns the emails,
    ips and urls of the specification, and three domains: the host of the
    URL, the last path segment "payload.exe" (it has the shape of a domain
    and "exe" is not one of the excluded extensions) and the domain of the
    e-mail address. *)
Theorem extract_sample :
  let d := extract sample in
  dict_get (str "emails") d = Some [str "alerts@ti-example.com"] /\
  dict_get (str "ips") d = Some [str "10.0.0.5"] /\
  dict_get (str "urls") d = Some [str "https://bad-domain.test/payload.exe"] /\
  dict_get (str "domains") d =
    Some [str "bad-domain.test"; str "payload.exe"; str "ti-example.com"].
Proof. vm_compute. repeat split; reflexivity. Qed.

(** *** IP addresses *)

Lemma ip_candidate_no_colon (m : text) :
  den (ip_pattern U) m -> Forall (fun c => c <> 58) m.
Proof.
  intros H. apply den_alphabet in H.
  eapply Forall_impl; [exact H|]. simpl. intros c Hc ->.
  vm_compute in Hc. discriminate Hc.
Qed.

Lemma ips_set_elem (t s : text) :
  s ∈ ips_set U ipv6_hextets t <->
  s ∈ findall U (ip_pattern U) t /\ ip_address ipv6_hextets s = true.
Proof.
  unfold ips_set. rewrite elem_of_list_to_set, list_elem_of_filter.
  rewrite Is_true_true. tauto.
Qed.

(** C6: the ips category holds exactly the dotted-quad candidates found in
    the text that are valid IPv4 addresses, that is the decimal notation
    of four octets in 0..255.  An invalid candidate is skipped without
    stopping the scan: on a text with "999.1.1.1" and "8.8.8.8", both are
    candidates and the category is ["8.8.8.8"]. *)
Theorem ips_valid_ipv4_only (t : text) :
  dict_get (str "ips") (extract t) = Some (sorted (ips_set U ipv6_hextets t)) /\
  (forall s, s ∈ sorted (ips_set U ipv6_hextets t) <->
             s ∈ findall U (ip_pattern U) t /\ valid_ipv4 s) /\
  findall U (ip_pattern U) (str "see 999.1.1.1 and 8.8.8.8") =
    [str "999.1.1.1"; str "8.8.8.8"] /\
  dict_get (str "ips") (extract (str "see 999.1.1.1 and 8.8.8.8")) =
    Some [str "8.8.8.8"].
Proof.
  split; [reflexivity|]. split; [|split; vm_compute; reflexivity].
  intros s. rewrite sorted_elem_of, ips_set_elem. split.
  - intros [Hin Hok]. split; [assumption|].
    apply findall_sound in Hin as (pre & post & _ & Hden).
    apply (ip_address_valid ipv6_hextets); [|assumption].
    apply ip_candidate_no_colon, Hden.
  - intros [Hin Hv]. split; [assumption|].
    apply findall_sound in Hin as (pre & post & _ & Hden).
    apply (ip_address_valid ipv6_hextets); [|assumption].
    apply ip_candidate_no_colon, Hden.
Qed.

(** *** Social handles and e-mail addresses *)

Lemma handle_char_at : handle_char U 64 = false.
Proof. reflexivity. Qed.

Lemma handle_char_dot : handle_char U 46 = false.
Proof. reflexivity. Qed.

(** The social pattern at a position: an "@" and the run of handle
    characters after it, which must not be empty. *)
Lemma match_here_social (prev : option char) (s : text) :
  match_here U (social_pattern U) prev s =
  match s with
  | c :: s' =>
    if (64 =? c) && negb (text_eqb (take_while (handle_char U) s') [])
    then Some (last_char (Some c) (take_while (handle_char U) s'),
               drop_while (handle_char U) s')
    else None
  | [] => None
  end.
Proof.
  unfold match_here, social_pattern, plus, chr.
  rewrite exec_Seq, exec_Cls.
  destruct s as [|c s]; [reflexivity|].
  change (ch "@") with 64. destruct (64 =? c); [|reflexivity].
  rewrite exec_Rep, iter_cls_greedy by lia. simpl.
  destruct (take_while (handle_char U) s); reflexivity.
Qed.

(** Every "@" followed by a handle character starts a match of the social
    pattern that [findall] reports. *)
Lemma findall_social_at (fuel : nat) :
  forall (pre : text) (prev : option char) (tail : text),
    (length (pre ++ 64%N :: tail) < fuel)%nat ->
    take_while (handle_char U) tail <> [] ->
    (64 :: take_while (handle_char U) tail)
      ∈ findall_from U (social_pattern U) fuel prev (pre ++ 64 :: tail).
Proof.
  induction fuel as [|fuel IH]; intros pre prev tail Hlen Hne; [lia|].
  cbn [findall_from]. rewrite match_here_social.
  destruct pre as [|c pre]; cbn [app].
  - rewrite N.eqb_refl.
    destruct (take_while (handle_char U) tail) as [|x w] eqn:Hw; [congruence|].
    cbn [text_eqb negb andb].
    match goal with
    | |- context [take ?n ?l] => assert (Hm : take n l = 64 :: x :: w)
    end.
    { pose proof (take_drop_while (handle_char U) tail) as Htd.
      rewrite Hw in Htd.
      remember (drop_while (handle_char U) tail) as D eqn:HD.
      rewrite <- Htd. apply (take_prefix (64 :: x :: w) D). }
    rewrite Hm. left.
  - assert (Hadv : (64 :: take_while (handle_char U) tail)
                     ∈ findall_from U (social_pattern U) fuel (Some c)
                         (pre ++ 64 :: tail)).
    { apply IH; [simpl in Hlen; lia | assumption]. }
    destruct ((64 =? c)
              && negb (text_eqb (take_while (handle_char U) (pre ++ 64 :: tail)) []));
      [|exact Hadv].
    destruct (take _ (c :: pre ++ 64 :: tail)) as [|y m] eqn:Hm.
    + right. exact Hadv.
    + right. rewrite drop_while_stop by apply handle_char_at.
      apply IH; [|assumption].
      rewrite length_app. simpl in Hlen. rewrite length_app in Hlen.
      pose proof (drop_while_length (handle_char U) pre). simpl in *. lia.
Qed.

(** The shape of a string matched by the e-mail pattern. *)
Lemma email_shape (m : text) :
  den email_pattern m ->
  exists l x tl, m = l ++ 64 :: x ++ 46 :: tl /\
    Forall (fun c => local_char c = true) l /\
    Forall (fun c => host_char c = true) x /\
    Forall (fun c => is_alpha_ascii c = true) tl.
Proof.
  unfold email_pattern, plus, chr. cbn [seqs].
  intros (l & r1 & -> & Hl & (a & r2 & -> & (c1 & -> & Hc1)
            & (x & r3 & -> & Hx & (b & tl & -> & (c2 & -> & Hc2) & Htl)))).
  apply N.eqb_eq in Hc1, Hc2. subst c1 c2.
  apply den_alphabet in Hl, Hx, Htl.
  exists l, x, tl. repeat split; assumption.
Qed.

Lemma split_at_unique (c : char) (l0 r0 l d : text) :
  l0 ++ c :: r0 = l ++ c :: d ->
  Forall (fun y => y <> c) l0 -> Forall (fun y => y <> c) r0 ->
  l = l0 /\ d = r0.
Proof.
  intros Heq Hl0 Hr0. revert l Heq.
  induction Hl0 as [|y l0 Hy Hl0 IH]; intros [|z l] Heq; simpl in Heq.
  - injection Heq as <-. auto.
  - injection Heq as <- ->. exfalso.
    rewrite Forall_app, Forall_cons in Hr0. tauto.
  - injection Heq as -> _. congruence.
  - injection Heq as <- Heq. apply IH in Heq as [-> ->]. auto.
Qed.

Lemma social_handles_elem (t s : text) :
  s ∈ sorted (social_handles_set U t) <-> s ∈ findall U (social_pattern U) t.
Proof.
  rewrite sorted_elem_of. unfold social_handles_set.
  apply elem_of_list_to_set.
Qed.

(** C10 (as amended): for every text and every e-mail address [l@d] that
    the e-mail pattern finds in it, if [d] starts with word or hyphen
    characters (it does not start with a dot), then the social_handles
    category contains "@" followed by those leading characters, and the
    emails category contains the address in lower case. *)
Theorem email_yields_social_handle (t l d : text) :
  (l ++ [64] ++ d) ∈ findall U email_pattern t ->
  take_while (handle_char U) d <> [] ->
  dict_get (str "social_handles") (extract t)
    = Some (sorted (social_handles_set U t)) /\
  ([64] ++ take_while (handle_char U) d) ∈ sorted (social_handles_set U t) /\
  dict_get (str "emails") (extract t) = Some (sorted (emails_set U t)) /\
  lower U (l ++ [64] ++ d) ∈ sorted (emails_set U t).
Proof.
  intros Hin Hne. split; [reflexivity|]. split; [|split; [reflexivity|]].
  - rewrite social_handles_elem.
    pose proof Hin as Hfound.
    apply findall_sound in Hfound as (pre & post & Ht & Hden).
    apply email_shape in Hden as (l0 & x & tl & Hm & Hl0 & Hx & Htl).
    assert (Hsplit : l = l0 /\ d = x ++ 46 :: tl).
    { apply (split_at_unique 64); [symmetry; exact Hm | |].
      - eapply Forall_impl; [exact Hl0|]. simpl. intros c Hc ->. discriminate Hc.
      - apply Forall_app. split; [|constructor; [discriminate|]].
        + eapply Forall_impl; [exact Hx|]. simpl. intros c Hc ->.
          discriminate Hc.
        + eapply Forall_impl; [exact Htl|]. simpl. intros c Hc ->.
          discriminate Hc. }
    destruct Hsplit as [-> ->].
    assert (Htw : forall v, take_while (handle_char U) ((x ++ 46 :: tl) ++ v)
                            = take_while (handle_char U) (x ++ 46 :: tl)).
    { intros v. rewrite <- app_assoc. cbn [app].
      rewrite !take_while_stop by apply handle_char_dot. reflexivity. }
    rewrite <- (Htw post). rewrite <- (Htw post) in Hne.
    replace t with ((pre ++ l0) ++ 64 :: ((x ++ 46 :: tl) ++ post)).
    + apply findall_social_at; [lia | assumption].
    + rewrite Ht. rewrite <- !app_assoc. reflexivity.
  - rewrite sorted_elem_of. unfold emails_set.
    rewrite elem_of_list_to_set. apply list_elem_of_In, in_map.
    apply list_elem_of_In. exact Hin.
Qed.

End Facts.

(** C1 (counterexample): whatever the collaborators, the extractor does
    not return the domains of the specification on the sample text. *)
Lemma extract_sample_counterexample :
  ~ exists U phone_matches ipv6_hextets,
      sample_as_specified U phone_matches ipv6_hextets.
Proof.
  intros (U & pm & v6 & (_ & _ & _ & H & _)).
  vm_compute in H. discriminate H.
Qed.

(** C10 (counterexample): in the text "a@.b.com" the e-mail pattern finds
    the address "a@.b.com", whose domain starts with a dot, and the social
    pattern finds nothing: the social_handles category is empty. *)
Lemma email_without_social_handle :
  ~ exists U phone_matches ipv6_hextets,
      email_has_handle U phone_matches ipv6_hextets (str "a@.b.com").
Proof.
  intros (U & pm & v6 & H).
  destruct (H (str "a") (str ".b.com")) as (v & Hv & Hin).
  - apply list_elem_of_In. vm_compute. left. reflexivity.
  - vm_compute in Hv. injection Hv as <-.
    apply list_elem_of_In in Hin. destruct Hin.
Qed.

End ExtractorFacts.

(** ** The pipeline *)

Module PipelineFacts.

Section Monad.

Variable Embedding : Type.

Abbreviation W := (World Embedding).
Abbreviation M' := (M Embedding).

Lemma bind_ok {A B : Type} (m : M' A) (f : A -> M' B) (w w' : W) (b : B) :
  bind Embedding m f w = (Ok b, w') ->
  exists a w1, m w = (Ok a, w1) /\ f a w1 = (Ok b, w').
Proof.
  unfold bind. destruct (m w) as [[a|e] w1]; [eauto | discriminate].
Qed.

Lemma bind_step {A B : Type} (m : M' A) (f : A -> M' B) (w w1 : W) (a : A) :
  m w = (Ok a, w1) -> bind Embedding m f w = f a w1.
Proof. unfold bind. intros ->. reflexivity. Qed.

Lemma bind_raise {A B : Type} (m : M' A) (f : A -> M' B) (w w1 : W) (e : exn) :
  m w = (Raise e, w1) -> bind Embedding m f w = (Raise e, w1).
Proof. unfold bind. intros ->. reflexivity. Qed.

Lemma try_ok {A : Type} (m : M' A) (h : exn -> M' A) (w w1 : W) (a : A) :
  m w = (Ok a, w1) -> try_except Embedding m h w = (Ok a, w1).
Proof. unfold try_except. intros ->. reflexivity. Qed.

Lemma try_raise {A : Type} (m : M' A) (h : exn -> M' A) (w w1 : W) (e : exn) :
  m w = (Raise e, w1) -> try_except Embedding m h w = h e w1.
Proof. unfold try_except. intros ->. reflexivity. Qed.

End Monad.

(** *** PostgreSQLRepository.insert_document *)

Section Relational.

Variable Embedding : Type.
Variable fault : World Embedding -> Op Embedding -> option exn.
Variable uuid4_draw : nat -> text.

(** The database answers every statement. *)
Hypothesis database_up : forall w q, fault w (OpExecute q) = None.

Abbreviation insert_document' := (insert_document Embedding fault uuid4_draw).
Abbreviation drawn := (Pipeline.drawn Embedding uuid4_draw).

Lemma insert_document_new name path lang given w :
  find_document name (documents w) = None ->
  exists w',
    insert_document' name path lang given w = (Ok (drawn given w), w') /\
    documents w' = documents w ++
      [{| doc_uuid := drawn given w; doc_name := name; doc_path := path;
          doc_language := lang |}] /\
    chunks w' = chunks w.
Proof.
  unfold find_document. intros Hnone.
  destruct (List.filter (has_name name) (documents w)) as [|r rs] eqn:Hf;
    [|discriminate].
  unfold insert_document, bind, execute, perform, fetchone, uuid4, ret.
  destruct given as [u|]; simpl; rewrite !database_up; simpl;
    rewrite Hf; simpl; rewrite !database_up; simpl; eauto.
Qed.

Lemma insert_document_found name path lang given w r :
  find_document name (documents w) = Some r ->
  exists w',
    insert_document' name path lang given w = (Ok (doc_uuid r), w') /\
    documents w' = documents w /\ chunks w' = chunks w.
Proof.
  unfold find_document. intros Hsome.
  destruct (List.filter (has_name name) (documents w)) as [|r' rs] eqn:Hf;
    [discriminate|]. injection Hsome as ->.
  unfold insert_document, bind, execute, perform, fetchone, uuid4, ret.
  destruct given as [u|]; simpl; rewrite !database_up; simpl;
    rewrite Hf; simpl; eauto.
Qed.

Lemma find_document_app name rows extra r :
  find_document name rows = Some r ->
  find_document name (rows ++ extra) = Some r.
Proof.
  unfold find_document. rewrite List.filter_app.
  destruct (List.filter (has_name name) rows); [discriminate|].
  simpl. auto.
Qed.

Lemma find_document_new name rows r :
  find_document name rows = None -> doc_name r = name ->
  find_document name (rows ++ [r]) = Some r.
Proof.
  unfold find_document. rewrite List.filter_app.
  destruct (List.filter (has_name name) rows); [|discriminate].
  intros _ Hr. simpl. unfold has_name. rewrite <- Hr, text_eqb_refl.
  reflexivity.
Qed.

(** C2: two calls of [insert_document] with the same name, whatever their
    path and language arguments and whatever rows were inserted in
    between, return the same identity; the second call leaves both tables
    as it found them (no insert, no update); and when the name was new at
    the first call, the row stored under it still carries the path and
    language of the first call. *)
Theorem insert_document_first_write_wins
    (name path1 lang1 path2 lang2 : text) (given1 given2 : option text)
    (w later : World Embedding) :
  let first := insert_document' name path1 lang1 given1 w in
  (exists extra, documents later = documents (snd first) ++ extra) ->
  let second := insert_document' name path2 lang2 given2 later in
  exists id,
    fst first = Ok id /\ fst second = Ok id /\
    documents (snd second) = documents later /\
    chunks (snd second) = chunks later /\
    (find_document name (documents w) = None ->
     find_document name (documents (snd second)) =
       Some {| doc_uuid := id; doc_name := name; doc_path := path1;
               doc_language := lang1 |}).
Proof.
  intros first [extra Hlater] second. subst first second.
  destruct (find_document name (documents w)) as [r|] eqn:Hfind.
  - destruct (insert_document_found name path1 lang1 given1 w r Hfind)
      as (w1 & H1 & Hd1 & _).
    rewrite H1 in *. simpl in Hlater. rewrite Hd1 in Hlater.
    assert (Hfind2 : find_document name (documents later) = Some r)
      by (rewrite Hlater; apply find_document_app, Hfind).
    destruct (insert_document_found name path2 lang2 given2 later r Hfind2)
      as (w2 & -> & Hd2 & Hc2).
    exists (doc_uuid r). simpl. repeat split; auto. discriminate.
  - destruct (insert_document_new name path1 lang1 given1 w Hfind)
      as (w1 & H1 & Hd1 & _).
    rewrite H1 in *. simpl in Hlater. rewrite Hd1 in Hlater.
    set (row := {| doc_uuid := drawn given1 w; doc_name := name;
                   doc_path := path1; doc_language := lang1 |}) in *.
    assert (Hfind2 : find_document name (documents later) = Some row).
    { rewrite Hlater. apply find_document_app.
      apply find_document_new; [assumption | reflexivity]. }
    destruct (insert_document_found name path2 lang2 given2 later row Hfind2)
      as (w2 & -> & Hd2 & Hc2).
    exists (drawn given1 w). simpl. repeat split; auto.
    intros _. rewrite Hd2. exact Hfind2.
Qed.

End Relational.

(** *** Relations between the state before and after *)

Section Steps.

Variable Embedding : Type.
Variable R : relation (World Embedding).
Context `{!PreOrder R}.

Abbreviation steps' := (steps Embedding R).

Lemma steps_ret {A : Type} (a : A) : steps' (ret Embedding a).
Proof. intros w. simpl. reflexivity. Qed.

Lemma steps_lift {A : Type} (r : result A) : steps' (lift Embedding r).
Proof. intros w. simpl. reflexivity. Qed.

Lemma steps_raise {A : Type} (e : exn) : steps' (raise (A := A) Embedding e).
Proof. intros w. simpl. reflexivity. Qed.

Lemma steps_get : steps' (get Embedding).
Proof. intros w. simpl. reflexivity. Qed.

Lemma steps_bind {A B : Type} (m : M Embedding A) (f : A -> M Embedding B) :
  steps' m -> (forall a, steps' (f a)) -> steps' (bind Embedding m f).
Proof.
  intros Hm Hf w. unfold bind. specialize (Hm w).
  destruct (m w) as [[a|e] w1]; simpl in *; [|assumption].
  etransitivity; [exact Hm | apply Hf].
Qed.

(** The continuation need only be considered for the value returned. *)
Lemma steps_bind_lift {A B : Type} (r : result A) (f : A -> M Embedding B) :
  (forall a, r = Ok a -> steps' (f a)) ->
  steps' (bind Embedding (lift Embedding r) f).
Proof.
  intros Hf w. unfold bind, lift. destruct r as [a|e]; simpl.
  - apply Hf. reflexivity.
  - reflexivity.
Qed.

Lemma steps_try {A : Type} (m : M Embedding A) (h : exn -> M Embedding A) :
  steps' m -> (forall e, steps' (h e)) -> steps' (try_except Embedding m h).
Proof.
  intros Hm Hh w. unfold try_except. specialize (Hm w).
  destruct (m w) as [[a|e] w1]; simpl in *; [assumption|].
  etransitivity; [exact Hm | apply Hh].
Qed.

Lemma steps_for_each {A : Type} (l : list A) (f : A -> M Embedding unit) :
  (forall x, x ∈ l -> steps' (f x)) -> steps' (for_each Embedding l f).
Proof.
  induction l as [|x l IH]; intros Hf; simpl.
  - apply steps_ret.
  - apply steps_bind; [apply Hf; left|].
    intros _. apply IH. intros y Hy. apply Hf. right. assumption.
Qed.

Lemma steps_modify (g : World Embedding -> World Embedding) :
  (forall w, R w (g w)) -> steps' (modify Embedding g).
Proof. intros Hg w. simpl. apply Hg. Qed.

Lemma steps_perform fault (op : Op Embedding) (effect : World Embedding -> World Embedding) :
  (forall w, R w (effect w)) -> steps' (perform Embedding fault op effect).
Proof.
  intros Hg w. unfold perform. destruct (fault w op); simpl;
    [reflexivity | apply Hg].
Qed.

End Steps.

(** *** The graph statements only grow *)

Section Graph.

Variable Embedding : Type.
Variable P : Cypher -> Prop.

#[export] Instance graph_grows_preorder : PreOrder (graph_grows Embedding P).
Proof.
  split.
  - intros w. exists []. rewrite app_nil_r. split; [reflexivity | constructor].
  - intros w1 w2 w3 (s1 & H1 & P1) (s2 & H2 & P2). exists (s1 ++ s2).
    rewrite H2, H1, app_assoc. split; [reflexivity|].
    apply Forall_app. split; assumption.
Qed.

Lemma graph_grows_same (w w' : World Embedding) :
  graph w' = graph w -> graph_grows Embedding P w w'.
Proof.
  intros H. exists []. rewrite app_nil_r. split; [assumption | constructor].
Qed.

Lemma graph_grows_sent {A : Type} (m : M Embedding A) (w : World Embedding) :
  steps Embedding (graph_grows Embedding P) m ->
  graph (snd (m w)) = graph w ++ statements_sent Embedding m w /\
  Forall P (statements_sent Embedding m w).
Proof.
  intros H. destruct (H w) as (sent & Hg & Hs). unfold statements_sent.
  rewrite Hg, drop_app_length. auto.
Qed.

Variable fault : World Embedding -> Op Embedding -> option exn.
Variable uuid4_draw : nat -> text.

Abbreviation grows := (steps Embedding (graph_grows Embedding P)).

Lemma grows_print (ev : LogEvent) : grows (print Embedding ev).
Proof. apply steps_modify. intros w. apply graph_grows_same. reflexivity. Qed.

Lemma grows_uuid4 : grows (uuid4 Embedding uuid4_draw).
Proof. unfold steps. intros w. apply graph_grows_same. reflexivity. Qed.

Lemma grows_session : grows (session Embedding fault).
Proof.
  apply steps_perform; [apply _|]. intros w. apply graph_grows_same. reflexivity.
Qed.

Lemma grows_execute (q : Sql Embedding) : grows (execute Embedding fault q).
Proof.
  apply steps_perform; [apply _|]. intros w. apply graph_grows_same.
  destruct q; reflexivity.
Qed.

Lemma grows_fetchone : grows (fetchone Embedding).
Proof.
  unfold steps. intros w. apply graph_grows_same. unfold fetchone.
  destruct (pending w); reflexivity.
Qed.

Lemma grows_file_op (f : FileOp) : grows (file_op Embedding fault f).
Proof.
  apply steps_perform; [apply _|]. intros w. apply graph_grows_same. reflexivity.
Qed.

Lemma grows_run (c : Cypher) : P c -> grows (run Embedding fault c).
Proof.
  intros Hc. apply steps_perform; [apply _|]. intros w.
  exists [c]. split; [reflexivity | repeat constructor; assumption].
Qed.

End Graph.

(** *** Neo4jRepository.insert_indicators *)

Section Identity.

Variable Embedding : Type.
Variable fault : World Embedding -> Op Embedding -> option exn.
Variable uuid4_draw : nat -> text.

Lemma mention_identity (doc : text) (page : nat) (category value : text) :
  steps Embedding (graph_grows Embedding identity_by_name)
        (mention Embedding fault uuid4_draw doc page category value).
Proof.
  unfold mention. apply steps_bind; [apply _ | apply grows_uuid4 |].
  intros rel. apply steps_bind_lift; [apply _|]. intros ind Hind.
  apply grows_run.
  change (uuid5 NAMESPACE_DNS (category ++ str ":" ++ value) = Some ind).
  unfold indicator_uuid in Hind.
  destruct (uuid5 NAMESPACE_DNS (category ++ str ":" ++ value));
    [congruence | discriminate].
Qed.

Lemma insert_indicators_identity (doc : text)
    (pages : list (nat * list (text * list text))) :
  steps Embedding (graph_grows Embedding identity_by_name)
        (insert_indicators Embedding fault uuid4_draw doc pages).
Proof.
  unfold insert_indicators. apply steps_try; [apply _ | |].
  - apply steps_bind; [apply _ | apply grows_session |]. intros _.
    apply steps_for_each; [apply _|]. intros pe _.
    apply steps_for_each; [apply _|]. intros ce _.
    apply steps_for_each; [apply _|]. intros v _.
    apply mention_identity.
  - intros e. apply steps_bind; [apply _ | apply grows_print |].
    intros _. apply steps_raise. apply _.
Qed.

End Identity.

(** C3: the identity of an indicator is the name-based UUID (SHA-1,
    version 5, DNS namespace) of "category:value" and of nothing else.  Any
    two indicator statements sent by [insert_indicators], for whatever
    documents, pages, random draws, server behaviour and earlier state,
    that agree on category and value carry the same identity. *)
Theorem indicator_identity_deterministic
    (E1 E2 : Type) fault1 fault2 (draw1 draw2 : nat -> text)
    (doc1 doc2 : text) (pages1 pages2 : list (nat * list (text * list text)))
    (w1 : World E1) (w2 : World E2)
    (category value u1 u2 d1 d2 p1 p2 r1 r2 : text) :
  MergeIndicator u1 value category d1 p1 r1
    ∈ statements_sent E1 (insert_indicators E1 fault1 draw1 doc1 pages1) w1 ->
  MergeIndicator u2 value category d2 p2 r2
    ∈ statements_sent E2 (insert_indicators E2 fault2 draw2 doc2 pages2) w2 ->
  u1 = u2 /\
  uuid5 NAMESPACE_DNS (category ++ str ":" ++ value) = Some u1.
Proof.
  intros H1 H2.
  pose proof (graph_grows_sent E1 identity_by_name _ w1
                (insert_indicators_identity E1 fault1 draw1 doc1 pages1))
    as [_ G1].
  pose proof (graph_grows_sent E2 identity_by_name _ w2
                (insert_indicators_identity E2 fault2 draw2 doc2 pages2))
    as [_ G2].
  rewrite Forall_forall in G1, G2.
  specialize (G1 _ H1). specialize (G2 _ H2).
  change (uuid5 NAMESPACE_DNS (category ++ str ":" ++ value) = Some u1) in G1.
  change (uuid5 NAMESPACE_DNS (category ++ str ":" ++ value) = Some u2) in G2.
  split; [congruence | assumption].
Qed.

(** *** TextProcessor.chunk_text *)

Section Chunking.

Variable Embedding : Type.
Variable config : Config.
Variable spacy_split : text -> nat -> nat -> text -> result (list text).
Variable recursive_split : nat -> nat -> text -> result (list text).

Abbreviation chunk_size := (getattr (CHUNK_SIZE config) 500%nat).
Abbreviation chunk_overlap := (getattr (CHUNK_OVERLAP config) 50%nat).
Abbreviation secondary := (recursive_split chunk_size chunk_overlap).
Abbreviation chunk_text' :=
  (chunk_text Embedding config spacy_split recursive_split).

(** The post-processing loop: each chunk in its place. *)
Lemma resplit_in_place (chunks : list text) (parts : list (list text)) :
  Forall2 (put_in_place recursive_split chunk_size chunk_overlap) chunks parts ->
  resplit recursive_split chunk_size chunk_overlap chunks = Ok (concat parts).
Proof.
  induction 1 as [|chunk part chunks parts Hput _ IH]; cbn [resplit concat];
    [reflexivity|].
  unfold put_in_place in Hput. rewrite IH.
  destruct (Nat.ltb chunk_size (length chunk)).
  - rewrite Hput. reflexivity.
  - subst part. reflexivity.
Qed.

Lemma resplit_returns (chunks : list text) (l : list text) :
  resplit recursive_split chunk_size chunk_overlap chunks = Ok l ->
  exists parts,
    Forall2 (put_in_place recursive_split chunk_size chunk_overlap) chunks parts /\
    l = concat parts.
Proof.
  revert l. induction chunks as [|chunk chunks IH]; intros l; cbn [resplit].
  - intros [= <-]. exists []. split; [constructor | reflexivity].
  - destruct (Nat.ltb chunk_size (length chunk)) eqn:Hlong.
    + destruct (secondary chunk) as [sub_chunks|e] eqn:Hsub; [|discriminate].
      destruct (resplit recursive_split chunk_size chunk_overlap chunks)
        as [rest|e]; [|discriminate].
      intros [= <-]. destruct (IH rest eq_refl) as (parts & Hparts & ->).
      exists (sub_chunks :: parts). split; [|reflexivity].
      constructor; [|assumption]. unfold put_in_place. rewrite Hlong. exact Hsub.
    + destruct (resplit recursive_split chunk_size chunk_overlap chunks)
        as [rest|e]; [|discriminate].
      intros [= <-]. destruct (IH rest eq_refl) as (parts & Hparts & ->).
      exists ([chunk] :: parts). split; [|reflexivity].
      constructor; [|assumption]. unfold put_in_place. rewrite Hlong. reflexivity.
Qed.

(** The loop raises what the secondary splitter raises on an oversized
    chunk. *)
Lemma resplit_raises (chunks : list text) (e : exn) :
  resplit recursive_split chunk_size chunk_overlap chunks = Raise e ->
  exists chunk,
    In chunk chunks /\ (chunk_size < length chunk)%nat /\
    secondary chunk = Raise e.
Proof.
  induction chunks as [|chunk chunks IH]; cbn [resplit]; [discriminate|].
  destruct (Nat.ltb_spec chunk_size (length chunk)) as [Hlong|Hshort].
  - destruct (secondary chunk) as [sub_chunks|e'] eqn:Hsub.
    + destruct (resplit recursive_split chunk_size chunk_overlap chunks)
        as [rest|e']; [discriminate|].
      intros [= ->]. destruct (IH eq_refl) as (c & Hin & Hc).
      exists c. split; [right; assumption | assumption].
    + intros [= ->]. exists chunk. split; [left; reflexivity | auto].
  - destruct (resplit recursive_split chunk_size chunk_overlap chunks)
      as [rest|e']; [discriminate|].
    intros [= ->]. destruct (IH eq_refl) as (c & Hin & Hc).
    exists c. split; [right; assumption | assumption].
Qed.

Lemma put_in_place_segments (chunks : list text) (parts : list (list text)) :
  Forall2 (put_in_place recursive_split chunk_size chunk_overlap) chunks parts ->
  Forall (fun c => (length c <= chunk_size)%nat \/
                   from_secondary recursive_split chunk_size chunk_overlap c)
         (concat parts).
Proof.
  induction 1 as [|chunk part chunks parts Hput _ IH]; simpl; [constructor|].
  apply Forall_app. split; [|exact IH].
  unfold put_in_place in Hput.
  destruct (Nat.ltb_spec chunk_size (length chunk)).
  - apply Forall_forall. intros c Hc. right.
    exists chunk, part. split; [exact Hput | apply list_elem_of_In, Hc].
  - subst part. constructor; [left; assumption | constructor].
Qed.

(** C7: under the primary strategy every chunk longer than [chunk_size] is
    replaced, in its place, by what the secondary splitter makes of it,
    the others are kept, and the order is that of the primary chunks.
    When the primary strategy raises, or the secondary splitter raises on
    an oversized chunk, a line is printed and the outcome is that of the
    secondary splitter on the whole text: its segments, or the exception
    it raises, which then leaves [chunk_text].  No other exception leaves
    it.  Every segment returned is within [chunk_size] or is one that the
    secondary splitter returned. *)
Theorem chunk_text_resplits_with_fallback (t language : text) (w : World Embedding) :
  let primary := spacy_split (pipeline_for language) chunk_size chunk_overlap t in
  let run := chunk_text' t language true w in
  let fallback e :=
    (secondary t, set_log Embedding (log w ++ [LogSpacyFailed e]) w) in
  (forall chunks parts,
      primary = Ok chunks ->
      Forall2 (put_in_place recursive_split chunk_size chunk_overlap)
              chunks parts ->
      run = (Ok (concat parts), w)) /\
  (forall chunks e,
      primary = Ok chunks ->
      resplit recursive_split chunk_size chunk_overlap chunks = Raise e ->
      run = fallback e /\
      exists chunk,
        In chunk chunks /\ (chunk_size < length chunk)%nat /\
        secondary chunk = Raise e) /\
  (forall e, primary = Raise e -> run = fallback e) /\
  (forall e w', run = (Raise e, w') -> secondary t = Raise e) /\
  (forall l w',
      run = (Ok l, w') ->
      Forall (fun c => (length c <= chunk_size)%nat \/
                       from_secondary recursive_split chunk_size chunk_overlap c)
             l).
Proof.
  cbv zeta. unfold chunk_text, try_except, bind, lift, print, modify.
  split; [|split; [|split; [|split]]].
  - intros chunks parts Hs Hparts.
    rewrite Hs, (resplit_in_place _ _ Hparts). reflexivity.
  - intros chunks e Hs Hre. split; [|apply resplit_raises; assumption].
    rewrite Hs, Hre. destruct (secondary t); reflexivity.
  - intros e Hs. rewrite Hs. destruct (secondary t); reflexivity.
  - intros e w'.
    destruct (spacy_split _ _ _ t) as [chunks|e1].
    + destruct (resplit _ _ _ chunks) as [l|e2]; [discriminate|].
      destruct (secondary t); [discriminate|]. intros [= -> _]. reflexivity.
    + destruct (secondary t); [discriminate|]. intros [= -> _]. reflexivity.
  - intros l w'.
    destruct (spacy_split _ _ _ t) as [chunks|e1].
    + destruct (resplit _ _ _ chunks) as [l0|e2] eqn:Hre.
      * intros [= <- _]. apply resplit_returns in Hre as (parts & Hparts & ->).
        apply (put_in_place_segments chunks). assumption.
      * destruct (secondary t) as [l0|e3] eqn:Hsec; [|discriminate].
        intros [= <- _]. apply Forall_forall. intros c Hc. right.
        exists t, l0. split; [exact Hsec | apply list_elem_of_In, Hc].
    + destruct (secondary t) as [l0|e3] eqn:Hsec; [|discriminate].
      intros [= <- _]. apply Forall_forall. intros c Hc. right.
      exists t, l0. split; [exact Hsec | apply list_elem_of_In, Hc].
Qed.

End Chunking.

(** *** PDFProcessor *)

Section Orchestrator.

Variable Embedding : Type.
Variable U : Unicode.
Variable phone_matches : text -> text -> list text.
Variable ipv6_hextets : text -> bool.
Variable config : Config.
Variable fault : World Embedding -> Op Embedding -> option exn.
Variable uuid4_draw : nat -> text.
Variable fitz_open : text -> result (list (result text)).
Variable detect : text -> result text.
Variable spacy_split : text -> nat -> nat -> text -> result (list text).
Variable recursive_split : nat -> nat -> text -> result (list text).
Variable encode : text -> result Embedding.
Variable path_exists : World Embedding -> text -> bool.

Abbreviation extract := (extract_indicators_by_category U phone_matches ipv6_hextets).
Abbreviation relational_phase' :=
  (relational_phase Embedding U phone_matches ipv6_hextets config fault
                    uuid4_draw fitz_open detect spacy_split recursive_split encode).
Abbreviation graph_body' :=
  (graph_body Embedding U phone_matches ipv6_hextets fault uuid4_draw).
Abbreviation graph_phase' :=
  (graph_phase Embedding U phone_matches ipv6_hextets fault uuid4_draw).
Abbreviation artifact_phase' :=
  (artifact_phase Embedding U phone_matches ipv6_hextets config fault).
Abbreviation process_pdf' :=
  (process_pdf Embedding U phone_matches ipv6_hextets config fault uuid4_draw
               fitz_open detect spacy_split recursive_split encode).
Abbreviation process_each' :=
  (process_each Embedding U phone_matches ipv6_hextets config fault uuid4_draw
                fitz_open detect spacy_split recursive_split encode path_exists).
Abbreviation process_multiple_pdfs' :=
  (process_multiple_pdfs Embedding U phone_matches ipv6_hextets config fault
                         uuid4_draw fitz_open detect spacy_split recursive_split
                         encode path_exists).

Abbreviation say := (fun ev w => set_log Embedding (log w ++ [ev]) w).
Abbreviation artifacts := (Pipeline.artifacts U phone_matches ipv6_hextets config).
Abbreviation closing_lines := (Pipeline.closing_lines config).

(** The graph phase returns whatever happens in it. *)
Lemma graph_phase_returns neo4j_driver pdf_path name l w :
  exists ok w', graph_phase' neo4j_driver pdf_path name l w = (Ok ok, w').
Proof.
  unfold graph_phase. destruct neo4j_driver as [driver|]; [|eexists _, _; reflexivity].
  unfold try_except. destruct (graph_body' driver pdf_path name l w) as [[ok|e] w1].
  - eexists _, _. reflexivity.
  - eexists _, _. reflexivity.
Qed.

Lemma graph_phase_absorbs driver pdf_path name l w w1 e :
  graph_body' driver pdf_path name l w = (Raise e, w1) ->
  graph_phase' (Some driver) pdf_path name l w
    = (Ok false, say (LogNeo4jOperationsFailed name e) w1).
Proof. unfold graph_phase, try_except. intros ->. reflexivity. Qed.

Lemma artifact_phase_writes name l graph_ok w :
  (forall w f, fault w (OpFile f) = None) ->
  exists w',
    artifact_phase' name l graph_ok w = (Ok tt, w') /\
    files w' = files w ++ artifacts name l graph_ok /\
    log w' = log w ++ closing_lines name l graph_ok /\
    documents w' = documents w /\ chunks w' = chunks w /\ graph w' = graph w.
Proof.
  intros Hdisk.
  unfold artifact_phase, save_clean_and_json, file_op, perform, bind, print,
    modify.
  repeat (rewrite Hdisk; simpl).
  eexists. split; [reflexivity|]. simpl.
  rewrite <- !app_assoc. simpl. repeat split; reflexivity.
Qed.

(** C4: when the graph phase of [process_pdf] raises, wherever in it
    (repository construction, document node, indicators), the exception
    is caught in place and a line is printed; the pipeline goes on to the
    artifacts, writes the clean text and the indicators file whose
    metadata say [neo4j_success = false], and returns to the batch driver
    without raising.  The graph phase itself never raises.  (The disk is
    taken not to fail: an error of the disk is another exception.) *)
Theorem graph_failure_does_not_abort
    (pdf_path : text) (driver : Neo4jDriver) (w w3 w4 : World Embedding)
    (l : Locals) (e : exn) :
  let name := path_stem pdf_path in
  relational_phase' pdf_path name (say (LogProcessing name) w) = (Ok l, w3) ->
  graph_body' driver pdf_path name l w3 = (Raise e, w4) ->
  (forall w f, fault w (OpFile f) = None) ->
  (forall d p n l' w0, exists ok w', graph_phase' d p n l' w0 = (Ok ok, w')) /\
  exists w',
    process_pdf' pdf_path (Some driver) w = (Ok tt, w') /\
    files w' = files w4 ++ artifacts name l false /\
    In (WriteJson (path_join (RAW_DIR config) (name ++ str "_indicators.json"))
                  (extract (full_text l))
                  {| document_uuid := document l; document_name := name;
                     language := lang l; total_pages := length (raw_pages l);
                     neo4j_success := false |})
       (files w') /\
    log w' = log w4 ++ LogNeo4jOperationsFailed name e
                       :: closing_lines name l false /\
    documents w' = documents w4 /\ chunks w' = chunks w4 /\ graph w' = graph w4.
Proof.
  intros name Hrel Hgraph Hdisk.
  split; [intros; apply graph_phase_returns|].
  destruct (artifact_phase_writes name l false
              (say (LogNeo4jOperationsFailed name e) w4) Hdisk)
    as (w' & Hart & Hfiles & Hlog & Hdocs & Hchunks & Hgr).
  exists w'. split.
  - unfold process_pdf. fold name.
    erewrite bind_step by reflexivity.
    apply try_ok.
    erewrite bind_step by exact Hrel.
    erewrite bind_step by (apply graph_phase_absorbs, Hgraph).
    exact Hart.
  - rewrite Hfiles, Hlog, Hdocs, Hchunks, Hgr. simpl.
    rewrite <- app_assoc. simpl. repeat split; try reflexivity.
    apply in_or_app. right. simpl. auto 10.
Qed.

(** *** The batch driver *)

Lemma process_each_missing pdf_path pdfs d n w :
  path_exists w pdf_path = false ->
  process_each' (pdf_path :: pdfs) d n w
    = process_each' pdfs d n (say (LogFileNotFound pdf_path) w).
Proof.
  intros Hex. cbn [process_each]. unfold bind at 1. unfold get.
  rewrite Hex. reflexivity.
Qed.

Lemma process_each_processed pdf_path pdfs d n w w1 :
  path_exists w pdf_path = true ->
  process_pdf' pdf_path d w = (Ok tt, w1) ->
  process_each' (pdf_path :: pdfs) d n w = process_each' pdfs d (S n) w1.
Proof.
  intros Hex Hrun. cbn [process_each]. unfold bind at 1. unfold get.
  rewrite Hex. unfold bind at 1. unfold try_except. unfold bind at 1.
  rewrite Hrun. reflexivity.
Qed.

Lemma process_each_failed pdf_path pdfs d n w w1 e :
  path_exists w pdf_path = true ->
  process_pdf' pdf_path d w = (Raise e, w1) ->
  process_each' (pdf_path :: pdfs) d n w
    = process_each' pdfs d n (say (LogErrorProcessing pdf_path e) w1).
Proof.
  intros Hex Hrun. cbn [process_each]. unfold bind at 1. unfold get.
  rewrite Hex. unfold bind at 1. unfold try_except. unfold bind at 1.
  rewrite Hrun. reflexivity.
Qed.

(** The loop never raises, and counts at most one per document. *)
Lemma process_each_returns pdfs d :
  forall n w, exists k w',
    process_each' pdfs d n w = (Ok k, w') /\ (n <= k <= n + length pdfs)%nat.
Proof.
  induction pdfs as [|p pdfs IH]; intros n w.
  - exists n, w. split; [reflexivity | simpl; lia].
  - destruct (path_exists w p) eqn:Hex.
    + destruct (process_pdf' p d w) as [[[]|e] w1] eqn:Hrun.
      * rewrite (process_each_processed _ _ _ _ _ _ Hex Hrun).
        destruct (IH (S n) w1) as (k & w' & -> & Hk).
        exists k, w'. split; [reflexivity | simpl; lia].
      * rewrite (process_each_failed _ _ _ _ _ _ _ Hex Hrun).
        destruct (IH n (say (LogErrorProcessing p e) w1)) as (k & w' & -> & Hk).
        exists k, w'. split; [reflexivity | simpl; lia].
    + rewrite (process_each_missing _ _ _ _ _ Hex).
      destruct (IH n (say (LogFileNotFound p) w)) as (k & w' & -> & Hk).
      exists k, w'. split; [reflexivity | simpl; lia].
Qed.

(** A document whose extraction raises leaves two lines and nothing else. *)
Lemma process_pdf_extraction_fails pdf_path d w e :
  extract_text_from_pdf config fitz_open pdf_path = Raise e ->
  process_pdf' pdf_path d w
    = (Raise e, say (LogFailedToProcess (path_stem pdf_path) e)
                    (say (LogProcessing (path_stem pdf_path)) w)).
Proof.
  intros Hext. unfold process_pdf.
  erewrite bind_step by reflexivity.
  erewrite try_raise.
  2:{ unfold relational_phase. erewrite bind_raise; [reflexivity|].
      erewrite bind_raise; [reflexivity|]. unfold lift. rewrite Hext. reflexivity. }
  reflexivity.
Qed.

(** C8 (as amended): for every non-empty configured list, the batch
    driver returns without raising and ends by printing the number of
    documents processed out of the length of the list.  A path that does
    not exist costs one line and is skipped; a document whose pipeline
    raises costs one line and is not counted; a document whose pipeline
    returns is counted.  With three paths of which the second is missing
    and the third fails in extraction, the count printed is 1 of 3. *)
Theorem batch_reports_successes
    (pdfs : list text) (d : option Neo4jDriver) (w : World Embedding) :
  PDFS config = Some pdfs -> pdfs <> [] ->
  (exists k w',
      process_each' pdfs d 0%nat w = (Ok k, w') /\ (k <= length pdfs)%nat /\
      process_multiple_pdfs' d w
        = (Ok tt, say (LogSummary k (length pdfs)) w')) /\
  (forall p ps n w0,
      path_exists w0 p = false ->
      process_each' (p :: ps) d n w0
        = process_each' ps d n (say (LogFileNotFound p) w0)) /\
  (forall p ps n w0 w1 e,
      path_exists w0 p = true -> process_pdf' p d w0 = (Raise e, w1) ->
      process_each' (p :: ps) d n w0
        = process_each' ps d n (say (LogErrorProcessing p e) w1)) /\
  (forall p ps n w0 w1,
      path_exists w0 p = true -> process_pdf' p d w0 = (Ok tt, w1) ->
      process_each' (p :: ps) d n w0 = process_each' ps d (S n) w1) /\
  (forall p1 p2 p3 w1 e,
      pdfs = [p1; p2; p3] ->
      path_exists w p1 = true -> process_pdf' p1 d w = (Ok tt, w1) ->
      path_exists w1 p2 = false ->
      path_exists (say (LogFileNotFound p2) w1) p3 = true ->
      extract_text_from_pdf config fitz_open p3 = Raise e ->
      process_multiple_pdfs' d w
        = (Ok tt,
           say (LogSummary 1 3)
             (say (LogErrorProcessing p3 e)
                (say (LogFailedToProcess (path_stem p3) e)
                   (say (LogProcessing (path_stem p3))
                      (say (LogFileNotFound p2) w1)))))).
Proof.
  intros Hcfg Hne. split; [|split; [|split; [|split]]].
  - destruct (process_each_returns pdfs d 0%nat w) as (k & w' & Hrun & Hk).
    exists k, w'. split; [assumption|]. split; [lia|].
    unfold process_multiple_pdfs. rewrite Hcfg.
    destruct pdfs as [|p ps]; [congruence|].
    erewrite bind_step by exact Hrun. reflexivity.
  - intros. apply process_each_missing. assumption.
  - intros. eapply process_each_failed; eassumption.
  - intros. eapply process_each_processed; eassumption.
  - intros p1 p2 p3 w1 e -> H1 R1 H2 H3 E3.
    unfold process_multiple_pdfs. rewrite Hcfg.
    erewrite bind_step; [reflexivity|].
    rewrite (process_each_processed _ _ _ _ _ _ H1 R1).
    rewrite (process_each_missing _ _ _ _ _ H2).
    rewrite (process_each_failed _ _ _ _ _ _ _ H3
               (process_pdf_extraction_fails _ _ _ _ E3)).
    reflexivity.
Qed.

End Orchestrator.

(** *** What each phase leaves alone *)

#[export] Instance same_preorder (Embedding X : Type) (part : World Embedding -> X) :
  PreOrder (same Embedding part).
Proof.
  split.
  - intros w. reflexivity.
  - intros w1 w2 w3 H1 H2. unfold same in *. congruence.
Qed.

(** Programs built from [bind], [try_except], [for_each] and the
    primitives, taken apart rule by rule. *)
Ltac steps_structure :=
  first
    [ apply steps_ret; apply _
    | apply steps_lift; apply _
    | apply steps_raise; apply _
    | apply steps_get; apply _
    | apply steps_bind; [apply _ | | intros ?]
    | apply steps_try; [apply _ | | intros ?]
    | apply steps_for_each; [apply _ | intros ? ?] ].

Ltac steps_primitive :=
  first
    [ apply steps_modify; intros ?; reflexivity
    | apply steps_perform; [apply _ | intros ?; reflexivity]
    | apply steps_modify; intros ?; apply graph_grows_same; reflexivity
    | apply steps_perform; [apply _ | intros ?; apply graph_grows_same; reflexivity]
    | apply grows_uuid4
    | apply grows_fetchone
    | match goal with
      | |- steps _ _ (uuid4 _ _) => unfold steps, uuid4; intros ?; reflexivity
      | |- steps _ _ (fetchone _) =>
        let w := fresh "w" in
        unfold steps, fetchone; intros w; destruct (pending w); reflexivity
      end ].

Ltac steps_case :=
  match goal with
  | |- steps _ _ (match ?x with _ => _ end) => destruct x
  | |- steps _ _ (if ?x then _ else _) => destruct x
  end.

Ltac steps_auto :=
  unfold print, file_op, session, run, execute;
  repeat first [ steps_structure | steps_primitive | steps_case ].

Section Frames.

Variable Embedding : Type.
Variable U : Unicode.
Variable phone_matches : text -> text -> list text.
Variable ipv6_hextets : text -> bool.
Variable config : Config.
Variable fault : World Embedding -> Op Embedding -> option exn.
Variable uuid4_draw : nat -> text.
Variable fitz_open : text -> result (list (result text)).
Variable detect : text -> result text.
Variable spacy_split : text -> nat -> nat -> text -> result (list text).
Variable recursive_split : nat -> nat -> text -> result (list text).
Variable encode : text -> result Embedding.

Abbreviation extract := (extract_indicators_by_category U phone_matches ipv6_hextets).

Lemma insert_document_same_chunks name path lang given :
  steps Embedding (same Embedding chunks)
        (insert_document Embedding fault uuid4_draw name path lang given).
Proof. unfold insert_document. steps_auto. Qed.

Lemma insert_document_same_graph P name path lang given :
  steps Embedding (graph_grows Embedding P)
        (insert_document Embedding fault uuid4_draw name path lang given).
Proof. unfold insert_document. steps_auto. Qed.

Lemma chunk_text_same_chunks t language use_spacy :
  steps Embedding (same Embedding chunks)
        (chunk_text Embedding config spacy_split recursive_split t language use_spacy).
Proof. unfold chunk_text. steps_auto. Qed.

Lemma chunk_text_same_graph P t language use_spacy :
  steps Embedding (graph_grows Embedding P)
        (chunk_text Embedding config spacy_split recursive_split t language use_spacy).
Proof. unfold chunk_text. steps_auto. Qed.

Lemma insert_chunk_same_graph P doc t vals page language given :
  steps Embedding (graph_grows Embedding P)
        (insert_chunk Embedding fault uuid4_draw encode doc t vals page language given).
Proof. unfold insert_chunk. steps_auto. Qed.

Lemma artifact_phase_same_chunks name l ok :
  steps Embedding (same Embedding chunks)
        (artifact_phase Embedding U phone_matches ipv6_hextets config fault name l ok).
Proof. unfold artifact_phase, save_clean_and_json. steps_auto. Qed.

Lemma artifact_phase_same_graph P name l ok :
  steps Embedding (graph_grows Embedding P)
        (artifact_phase Embedding U phone_matches ipv6_hextets config fault name l ok).
Proof. unfold artifact_phase, save_clean_and_json. steps_auto. Qed.

Lemma graph_phase_same_chunks d pdf_path name l :
  steps Embedding (same Embedding chunks)
        (graph_phase Embedding U phone_matches ipv6_hextets fault uuid4_draw
                     d pdf_path name l).
Proof.
  unfold graph_phase, graph_body, Neo4jRepository, test_connection,
    neo4j_insert_document, insert_indicators, mention.
  steps_auto.
Qed.

Lemma relational_phase_same_graph P pdf_path name :
  steps Embedding (graph_grows Embedding P)
        (relational_phase Embedding U phone_matches ipv6_hextets config fault
           uuid4_draw fitz_open detect spacy_split recursive_split encode
           pdf_path name).
Proof.
  unfold relational_phase, persist_chunk.
  repeat first
    [ apply insert_document_same_graph
    | apply chunk_text_same_graph
    | apply insert_chunk_same_graph
    | steps_structure
    | unfold print; steps_primitive ].
Qed.

(** Every indicator statement of the graph phase is about one of the
    extracted pages. *)
Lemma graph_phase_mentions_pages d pdf_path name l :
  steps Embedding
        (graph_grows Embedding
           (mentions_page (fun p => extract (clean_text U (page_text p)))
                          (raw_pages l)))
        (graph_phase Embedding U phone_matches ipv6_hextets fault uuid4_draw
                     d pdf_path name l).
Proof.
  unfold graph_phase. destruct d as [driver|]; [|apply steps_ret; apply _].
  apply steps_try; [apply _ | | intros e; steps_auto].
  unfold graph_body. apply steps_bind; [apply _ | |intros _].
  { unfold Neo4jRepository, test_connection.
    apply steps_try; [apply _ | | intros e; steps_auto].
    apply steps_bind; [apply _ | steps_auto | intros _].
    apply steps_bind; [apply _ | | intros _; steps_auto].
    apply grows_run. exact I. }
  apply steps_bind; [apply _ | |intros _].
  { unfold neo4j_insert_document.
    apply steps_try; [apply _ | | intros e; steps_auto].
    apply steps_bind; [apply _ | steps_auto | intros _].
    apply grows_run. exact I. }
  apply steps_bind; [apply _ | | intros _; apply steps_ret; apply _].
  unfold insert_indicators.
  apply steps_try; [apply _ | | intros e; steps_auto].
  apply steps_bind; [apply _ | steps_auto | intros _].
  apply steps_for_each; [apply _|]. intros [n found] Hpage.
  apply steps_for_each; [apply _|]. intros [cat vals] Hcat.
  apply steps_for_each; [apply _|]. intros val Hval.
  unfold mention.
  apply steps_bind; [apply _ | steps_auto | intros rel].
  apply steps_bind_lift; [apply _|]. intros ind _.
  apply grows_run. unfold mentions_page. cbn [fst snd] in *.
  unfold indicators_by_page in Hpage.
  apply list_elem_of_In, in_map_iff in Hpage as (p & Hp & Hin).
  injection Hp as <- <-.
  exists p, vals. repeat split; try assumption.
  - apply list_elem_of_In. assumption.
  - apply list_elem_of_In. assumption.
Qed.

(** The pages read are numbered from the first page on. *)
Lemma read_pages_numbers (pages : list (result text)) :
  forall n l, read_pages config n pages = Ok l ->
    map page_number l = seq n (length l).
Proof.
  induction pages as [|p pages IH]; intros n l; simpl.
  - intros [= <-]. reflexivity.
  - destruct (Nat.ltb (MAX_PAGES config) n); [intros [= <-]; reflexivity|].
    destruct p as [t|e]; [|discriminate].
    destruct (read_pages config (S n) pages) as [rest|e] eqn:Hrest;
      [|discriminate].
    intros [= <-]. simpl. f_equal. apply IH. assumption.
Qed.

Lemma enumerate_fst {A : Type} (l : list A) :
  forall n, map fst (enumerate n l) = seq n (length l).
Proof. induction l as [|x l IH]; intros n; simpl; [|rewrite IH]; reflexivity. Qed.

Lemma enumerate_snd {A : Type} (l : list A) :
  forall n, map snd (enumerate n l) = l.
Proof. induction l as [|x l IH]; intros n; simpl; [|rewrite IH]; reflexivity. Qed.

(** The rows of the chunk loop: one per chunk, numbered from [n] on. *)
Lemma persist_rows doc language (pieces : list text) :
  forall n w w',
    for_each Embedding (enumerate n pieces)
      (persist_chunk Embedding U phone_matches ipv6_hextets fault uuid4_draw
                     encode doc language) w = (Ok tt, w') ->
    exists rows,
      chunks w' = chunks w ++ rows /\
      map (fun r => (chunk_page r, chunk_text_of r)) rows = enumerate n pieces /\
      Forall (fun r => chunk_document_uuid r = doc /\
                       chunk_indicators r = flat_map snd (extract (chunk_text_of r)))
             rows.
Proof.
  induction pieces as [|piece pieces IH]; intros n w w' Hrun; simpl in Hrun.
  - injection Hrun as <-. exists []. rewrite app_nil_r.
    repeat split; constructor.
  - apply bind_ok in Hrun as ([] & w1 & Hone & Hrest).
    unfold persist_chunk in Hone. simpl in Hone.
    apply bind_ok in Hone as (u & w2 & Hins & Hret).
    injection Hret as <-.
    unfold insert_chunk in Hins.
    apply bind_ok in Hins as (u' & wa & Hdraw & Hins).
    apply bind_ok in Hins as (emb & wb & Hemb & Hins).
    apply bind_ok in Hins as ([] & wc & Hexec & Hret).
    injection Hret as -> <-.
    unfold uuid4 in Hdraw. injection Hdraw as <- <-.
    unfold lift in Hemb. injection Hemb as Hemb <-.
    unfold execute, perform in Hexec.
    destruct (fault _ _); [discriminate|]. injection Hexec as <-.
    apply IH in Hrest as (rows & Hrows & Hmap & Hall).
    eexists (_ :: rows). split; [|split].
    + rewrite Hrows. simpl. rewrite <- app_assoc. reflexivity.
    + simpl. rewrite Hmap. reflexivity.
    + constructor; [|assumption]. simpl. auto.
Qed.

End Frames.

Section Pages.

Variable Embedding : Type.
Variable U : Unicode.
Variable phone_matches : text -> text -> list text.
Variable ipv6_hextets : text -> bool.
Variable config : Config.
Variable fault : World Embedding -> Op Embedding -> option exn.
Variable uuid4_draw : nat -> text.
Variable fitz_open : text -> result (list (result text)).
Variable detect : text -> result text.
Variable spacy_split : text -> nat -> nat -> text -> result (list text).
Variable recursive_split : nat -> nat -> text -> result (list text).
Variable encode : text -> result Embedding.

Abbreviation extract := (extract_indicators_by_category U phone_matches ipv6_hextets).
Abbreviation process_pdf' :=
  (process_pdf Embedding U phone_matches ipv6_hextets config fault uuid4_draw
               fitz_open detect spacy_split recursive_split encode).

(** C9: when [process_pdf] returns, the rows it added to the chunk table
    are the chunks returned by [chunk_text], in order, and the page stored
    with the i-th of them is i, counted from 1, whatever page its text
    comes from; every indicator statement sent to the graph carries the
    number of an extracted page on whose text the value was found, and
    the extracted pages are numbered 1, 2, ... as in the document. *)
Theorem chunk_page_is_chunk_position
    (pdf_path : text) (d : option Neo4jDriver) (w w' : World Embedding) :
  process_pdf' pdf_path d w = (Ok tt, w') ->
  exists l : Locals,
    extract_text_from_pdf config fitz_open pdf_path = Ok (raw_pages l) /\
    (exists wa wb,
        chunk_text Embedding config spacy_split recursive_split
                   (full_text l) (lang l) true wa = (Ok (pieces l), wb)) /\
    (let rows := rows_inserted Embedding (process_pdf' pdf_path d) w in
     chunks w' = chunks w ++ rows /\
     map (fun r => chunk_text_of r) rows = pieces l /\
     map (fun r => chunk_page r) rows = seq 1 (length (pieces l))) /\
    Forall (mentions_page (fun p => extract (clean_text U (page_text p)))
                          (raw_pages l))
           (statements_sent Embedding (process_pdf' pdf_path d) w) /\
    map page_number (raw_pages l) = seq 1 (length (raw_pages l)).
Proof.
  intros Hrun. pose proof Hrun as Hwhole.
  unfold process_pdf in Hrun.
  apply bind_ok in Hrun as ([] & w0 & Hsay & Hrun).
  unfold print, modify in Hsay. injection Hsay as <-.
  set (name := path_stem pdf_path) in *.
  set (w0 := set_log Embedding (log w ++ [LogProcessing name]) w) in *.
  unfold try_except in Hrun.
  match type of Hrun with
  | match ?body with _ => _ end = _ => destruct body as [[[]|e] w9] eqn:Hbody
  end; [|discriminate].
  injection Hrun as ->.
  apply bind_ok in Hbody as (l & w3 & Hrel & Hbody).
  apply bind_ok in Hbody as (ok & w4 & Hgraph & Hart).
  pose proof Hrel as Hrel'.
  unfold relational_phase in Hrel.
  apply bind_ok in Hrel as (raw & w1 & Hext & Hrel).
  unfold lift in Hext. injection Hext as Hext <-.
  apply bind_ok in Hrel as (doc & wa & Hdoc & Hrel).
  apply bind_ok in Hrel as (ps & wb & Hchunk & Hrel).
  apply bind_ok in Hrel as ([] & wc & Hprint & Hrel).
  unfold print, modify in Hprint. injection Hprint as <-.
  apply bind_ok in Hrel as ([] & wd & Hloop & Hret).
  injection Hret as <- ->.
  set (L := {| raw_pages := raw;
               full_text := join 32 (map (fun p => clean_text U (page_text p)) raw);
               lang := detect_language detect
                         (join 32 (map (fun p => clean_text U (page_text p)) raw));
               document := doc; pieces := ps |}) in *.
  exists L. split; [exact Hext|]. split; [subst L; simpl; eauto|].
  apply persist_rows in Hloop as (rows & Hrows & Hmap & _).
  assert (Hchunks : chunks w' = chunks w ++ rows).
  { pose proof (artifact_phase_same_chunks
                  Embedding U phone_matches ipv6_hextets config fault name
                  L ok w4) as H4.
    pose proof (graph_phase_same_chunks
                  Embedding U phone_matches ipv6_hextets fault uuid4_draw d
                  pdf_path name L w3) as H3.
    pose proof (chunk_text_same_chunks
                  Embedding config spacy_split recursive_split
                  (full_text L) (lang L) true wa) as Hb.
    pose proof (insert_document_same_chunks
                  Embedding fault uuid4_draw name pdf_path (lang L) None w0) as Ha.
    unfold same in *. cbn [full_text lang L] in Hb, Ha.
    rewrite Hart in H4. rewrite Hgraph in H3. rewrite Hchunk in Hb.
    rewrite Hdoc in Ha. simpl in *.
    rewrite H4, H3, Hrows. simpl. rewrite Hb, Ha. reflexivity. }
  split.
  { unfold rows_inserted. rewrite Hwhole. simpl.
    rewrite Hchunks, drop_app_length. split; [reflexivity|].
    split.
    - replace (map (fun r => chunk_text_of r) rows)
        with (map snd (map (fun r => (chunk_page r, chunk_text_of r)) rows))
        by (rewrite map_map; reflexivity).
      rewrite Hmap. apply enumerate_snd.
    - replace (map (fun r => chunk_page r) rows)
        with (map fst (map (fun r => (chunk_page r, chunk_text_of r)) rows))
        by (rewrite map_map; reflexivity).
      rewrite Hmap. apply enumerate_fst. }
  split.
  { set (P := mentions_page (fun p => extract (clean_text U (page_text p))) raw).
    assert (Hg : graph_grows Embedding P w w').
    { pose proof (artifact_phase_same_graph
                    Embedding U phone_matches ipv6_hextets config fault P name
                    L ok w4) as H4.
      pose proof (graph_phase_mentions_pages
                    Embedding U phone_matches ipv6_hextets fault uuid4_draw d
                    pdf_path name L w3) as H3.
      pose proof (relational_phase_same_graph
                    Embedding U phone_matches ipv6_hextets config fault
                    uuid4_draw fitz_open detect spacy_split recursive_split
                    encode P pdf_path name w0) as H0.
      rewrite Hart in H4. rewrite Hgraph in H3. rewrite Hrel' in H0.
      cbn [snd raw_pages] in *.
      transitivity w3; [|transitivity w4; assumption].
      transitivity w0; [apply graph_grows_same; reflexivity | exact H0]. }
    destruct Hg as (sent & Hsent & HP).
    unfold statements_sent. rewrite Hwhole. simpl.
    rewrite Hsent, drop_app_length. exact HP. }
  unfold extract_text_from_pdf in Hext.
  destruct (fitz_open pdf_path) as [pages|e]; [|discriminate].
  eapply read_pages_numbers. exact Hext.
Qed.

End Pages.

End PipelineFacts.

(** ** The model on known values

    Values of the standard library functions modelled above, as CPython
    computes them. *)

Module Checks.

Example uuid5_python_org :
  uuid5 NAMESPACE_DNS (str "python.org")
    = Some (str "886313e1-3b8a-5372-9b90-0c9aee199e5d").
Proof. vm_compute. reflexivity. Qed.

Example uuid5_of_an_email :
  uuid5 NAMESPACE_DNS (str "emails:alerts@ti-example.com")
    = Some (str "4cb189f5-c78d-5f50-8a19-e9b7e30eb51b").
Proof. vm_compute. reflexivity. Qed.

Example uuid5_beyond_ascii :
  uuid5 NAMESPACE_DNS (str "urls:http://x.test/" ++ [233; 8364; 128512])
    = Some (str "3ec9376c-45e3-5785-8e88-52f142cdef31").
Proof. vm_compute. reflexivity. Qed.

Example ip_address_accepts :
  map (ip_address (fun _ => false))
      (map str ["8.8.8.8"; "0.0.0.0"; "255.255.255.255"; "10.0.0.5"]%string)
    = [true; true; true; true].
Proof. vm_compute. reflexivity. Qed.

Example ip_address_rejects :
  map (ip_address (fun _ => false))
      (map str ["999.1.1.1"; "256.1.1.1"; "01.1.1.1"; "1.1.1.00"; "1.2.3";
                "1.2.3.4.5"; "1..2.3"; "1.2.3.4/8"]%string)
    = [false; false; false; false; false; false; false; false].
Proof. vm_compute. reflexivity. Qed.

Example path_stem_examples :
  map path_stem (map str ["/app/pdfs/report.pdf"; "/a/b/c.tar.gz"; "/a/.bashrc";
                          "x."; "plain"]%string)
    = map str ["report"; "c.tar"; ".bashrc"; "x."; "plain"]%string.
Proof. vm_compute. reflexivity. Qed.

Example domains_exclude_file_names :
  dict_get (str "domains")
    (extract_indicators_by_category ascii_only (fun _ _ => []) (fun _ => false)
       (str "report.pdf and cti-feed.example.com"))
    = Some [str "cti-feed.example.com"].
Proof. vm_compute. reflexivity. Qed.

Example extract_mixed_text :
  extract_indicators_by_category ascii_only (fun _ _ => []) (fun _ => false)
    (str "a@.b.com x@y.zz 999.1.1.1 and 8.8.8.8 01.2.3.4 UA-12345-6 Pub-123456 http://x.y/z")
    = [ (str "domains", [str "b.com"; str "y.zz"]);
        (str "urls", [str "http://x.y/z"]);
        (str "ips", [str "8.8.8.8"]);
        (str "emails", [str "a@.b.com"; str "x@y.zz"]);
        (str "phones", []);
        (str "social_handles", [str "@y"]);
        (str "tracking_ids", [str "Pub-123456"; str "UA-12345-6"]) ].
Proof. vm_compute. reflexivity. Qed.

Example clean_text_example :
  clean_text ascii_only (str "  a  b " ++ [9; 10] ++ str "c " ++ [8211] ++ str " d  ")
    = str "a b c - d".
Proof. vm_compute. reflexivity. Qed.

End Checks.


(** ** The theorems at work on the test doubles *)

Module Scenarios.

Import Doubles.

(** C2 at work: the report is registered, then registered again from
    another path and in another language. *)
Lemma insert_document_twice :
  let first :=
    insert_document unit no_fault uuid4_draw (str "report")
                    (str "/in/report.pdf") (str "en") None empty_world in
  let second :=
    insert_document unit no_fault uuid4_draw (str "report")
                    (str "/other/report.pdf") (str "fr") None (snd first) in
  exists id,
    fst first = Ok id /\ fst second = Ok id /\
    documents (snd second) = documents (snd first) /\
    find_document (str "report") (documents (snd second)) =
      Some {| doc_uuid := id; doc_name := str "report";
              doc_path := str "/in/report.pdf"; doc_language := str "en" |}.
Proof.
  intros first second.
  destruct (PipelineFacts.insert_document_first_write_wins
              unit no_fault uuid4_draw (fun _ _ => eq_refl)
              (str "report") (str "/in/report.pdf") (str "en")
              (str "/other/report.pdf") (str "fr") None None
              empty_world (snd first)
              (ex_intro _ [] (eq_sym (app_nil_r _))))
    as (id & H1 & H2 & H3 & _ & H5).
  exists id. repeat split; try assumption. apply H5. reflexivity.
Defined.

(** C3 at work: the same address found on page 1 of one document and on
    page 7 of another, in runs with different random draws. *)
Lemma same_indicator_two_documents :
  uuid5 NAMESPACE_DNS (str "ips" ++ str ":" ++ str "10.0.0.5")
    = Some (str "5e8887ee-dc17-5966-8ac6-0299b9da0486").
Proof.
  refine (proj2 (PipelineFacts.indicator_identity_deterministic
            unit unit no_fault no_fault uuid4_draw (fun n => decimal n)
            (str "doc-a") (str "doc-b")
            [(1%nat, [(str "ips", [str "10.0.0.5"])])]
            [(7%nat, [(str "urls", []); (str "ips", [str "10.0.0.5"])])]
            empty_world (set_draws unit 5 empty_world)
            (str "ips") (str "10.0.0.5")
            (str "5e8887ee-dc17-5966-8ac6-0299b9da0486")
            (str "5e8887ee-dc17-5966-8ac6-0299b9da0486")
            (str "doc-a") (str "doc-b") (str "1") (str "7")
            (str "uuid-0") (str "5") _ _));
    apply list_elem_of_In; vm_compute; left; reflexivity.
Defined.

(** C7 at work: the primary splitter returns the sample whole, 82
    characters for a chunk size of 40; it is cut in its place. *)
Lemma chunk_text_on_sample :
  exists l,
    chunk_text unit (small_chunks []) spacy_split recursive_split
               sample (str "en") true empty_world = (Ok l, empty_world) /\
    map length l = [40; 40; 2]%nat.
Proof. eexists. split; vm_compute; reflexivity. Qed.

(** C7 (counterexample): chunks of 100 characters with the overlap of 200
    that config.py sets.  The constructor of the primary splitter refuses
    the sizes, which is caught; the constructor of the secondary splitter
    refuses them too, and its exception leaves [chunk_text]. *)
Lemma narrow_chunks_raise :
  ~ chunking_as_specified unit (narrow_chunks []) strict_spacy strict_recursive.
Proof.
  intros H.
  destruct (H ltac:(vm_compute; lia) sample (str "en") empty_world)
    as (l & w' & Hrun & _).
  vm_compute in Hrun. discriminate Hrun.
Qed.

(** C10 at work: the address of the sample text. *)
Lemma sample_email_handle :
  ([64] ++ take_while (handle_char ascii_only) (str "ti-example.com"))
    ∈ sorted (social_handles_set ascii_only sample).
Proof.
  refine (proj1 (proj2 (ExtractorFacts.email_yields_social_handle
            ascii_only no_phones no_ipv6 sample
            (str "alerts") (str "ti-example.com") _ _))).
  - apply list_elem_of_In. vm_compute. left. reflexivity.
  - vm_compute. discriminate.
Defined.

(** C4 at work: the graph server refuses the connection; the report is
    saved all the same, flagged. *)
Lemma graph_down_report_saved :
  exists w',
    process_pdf unit ascii_only no_phones no_ipv6 (small_chunks [sample_pdf])
                graph_down uuid4_draw fitz_open detect spacy_split
                recursive_split encode sample_pdf (Some driver) empty_world
      = (Ok tt, w') /\
    exists path found metadata,
      In (WriteJson path found metadata) (files w') /\
      neo4j_success metadata = false.
Proof.
  edestruct (PipelineFacts.graph_failure_does_not_abort
               unit ascii_only no_phones no_ipv6 (small_chunks [sample_pdf])
               graph_down uuid4_draw fitz_open detect spacy_split
               recursive_split encode sample_pdf driver empty_world)
    as (_ & w' & Hrun & _ & Hin & _).
  - vm_compute. reflexivity.
  - vm_compute. reflexivity.
  - intros w f. reflexivity.
  - exists w'. split; [exact Hrun|].
    eexists _, _, _. split; [exact Hin | reflexivity].
Defined.

(** C8 at work: the report, a missing file and a broken document. *)
Lemma batch_of_three :
  exists w',
    process_multiple_pdfs unit ascii_only no_phones no_ipv6
      (config [sample_pdf; missing_pdf; corrupt_pdf]) no_fault uuid4_draw
      fitz_open detect spacy_split recursive_split encode path_exists
      (Some driver) empty_world = (Ok tt, w') /\
    last (log w') = Some (LogSummary 1 3) /\
    In (LogFileNotFound missing_pdf) (log w').
Proof.
  pose proof (PipelineFacts.batch_reports_successes
                unit ascii_only no_phones no_ipv6
                (config [sample_pdf; missing_pdf; corrupt_pdf]) no_fault
                uuid4_draw fitz_open detect spacy_split recursive_split encode
                path_exists [sample_pdf; missing_pdf; corrupt_pdf]
                (Some driver) empty_world eq_refl
                ltac:(discriminate)) as (_ & _ & _ & _ & Hthree).
  eexists. split.
  - eapply (Hthree sample_pdf missing_pdf corrupt_pdf);
      vm_compute; reflexivity.
  - split; vm_compute; [reflexivity|]. auto 10.
Defined.

(** C8 (counterexample): with an empty list the driver prints one line,
    which is not a count. *)
Lemma empty_batch_reports_no_count :
  ~ reports_count unit
      (process_multiple_pdfs unit ascii_only no_phones no_ipv6 (config [])
         no_fault uuid4_draw fitz_open detect spacy_split recursive_split
         encode path_exists (Some driver))
      empty_world 0.
Proof.
  intros [processed H]. vm_compute in H. destruct H as [H|[]]. discriminate H.
Qed.

(** C9 at work: a document of two pages cut in three chunks; the third
    row says page 3, the statements sent to the graph say page 1. *)
Lemma three_chunks_two_pages :
  let run :=
    process_pdf unit ascii_only no_phones no_ipv6 (small_chunks [sample_pdf])
                no_fault uuid4_draw fitz_open detect spacy_split
                recursive_split encode sample_pdf (Some driver) in
  map (fun r => chunk_page r) (rows_inserted unit run empty_world)
    = [1; 2; 3]%nat /\
  exists l,
    map page_number (raw_pages l) = [1; 2]%nat /\
    Forall (mentions_page
              (fun p => extract_indicators_by_category ascii_only no_phones
                          no_ipv6 (clean_text ascii_only (page_text p)))
              (raw_pages l))
           (statements_sent unit run empty_world).
Proof.
  cbv zeta.
  edestruct (PipelineFacts.chunk_page_is_chunk_position
               unit ascii_only no_phones no_ipv6 (small_chunks [sample_pdf])
               no_fault uuid4_draw fitz_open detect spacy_split
               recursive_split encode sample_pdf (Some driver) empty_world)
    as (l & Hext & _ & (_ & _ & Hpages) & Hsent & Hnum).
  - vm_compute. reflexivity.
  - split; [vm_compute; reflexivity|].
    exists l. split; [|exact Hsent].
    clear Hsent Hnum Hpages. remember (raw_pages l) as raw eqn:Hraw. clear Hraw.
    vm_compute in Hext. injection Hext as <-. reflexivity.
Defined.

End Scenarios.

(** * Further properties of the module *)

(** ** What the extractor returns, category by category *)

Module ExtractorMore.

Section Shapes.

Variable U : Unicode.
Variable phone_matches : text -> text -> list text.
Variable ipv6_hextets : text -> bool.

Abbreviation extract := (extract_indicators_by_category U phone_matches ipv6_hextets).

Lemma den_chr (a : ascii) (m : text) : den (chr a) m -> m = [ch a].
Proof.
  unfold chr. simpl. intros (c & -> & Hc). apply N.eqb_eq in Hc. congruence.
Qed.

Lemma den_lit_list (l : list ascii) (m : text) :
  den (fold_right (fun a r => Seq (chr a) r) Eps l) m -> m = map N_of_ascii l.
Proof.
  revert m. induction l as [|a l IH]; intros m; cbn [fold_right den].
  - auto.
  - intros (u & v & -> & Hu & Hv). apply den_chr in Hu. subst u.
    rewrite (IH v Hv). reflexivity.
Qed.

Lemma den_lit (s : string) (m : text) : den (lit s) m -> m = str s.
Proof. apply den_lit_list. Qed.

(** Each category in terms of the matches of its pattern. *)
Lemma category_elem (t : text) (k : text) (v : list text) (x : text) :
  dict_get k (extract t) = Some v -> x ∈ v ->
  (k = str "domains" /\ x ∈ domains_set U t) \/
  (k = str "urls" /\ x ∈ urls_set U t) \/
  (k = str "ips" /\ x ∈ ips_set U ipv6_hextets t) \/
  (k = str "emails" /\ x ∈ emails_set U t) \/
  (k = str "phones" /\ x ∈ phones_set phone_matches t) \/
  (k = str "social_handles" /\ x ∈ social_handles_set U t) \/
  (k = str "tracking_ids" /\ x ∈ tracking_ids_set U t).
Proof.
  unfold extract_indicators_by_category, indicators.
  cbn [map fst snd dict_get].
  repeat match goal with
  | |- context [text_eqb ?a k] =>
    let E := fresh "E" in
    destruct (text_eqb a k) eqn:E;
      [apply text_eqb_eq in E; subst k; intros [= <-]; rewrite sorted_elem_of;
       tauto |]
  end.
  discriminate.
Qed.

Lemma lowered_elem (l : list text) (x : text) :
  x ∈ (list_to_set (map (lower U) l) : gset text) ->
  exists m, m ∈ l /\ x = lower U m.
Proof.
  rewrite elem_of_list_to_set. intros H.
  apply list_elem_of_In, in_map_iff in H as (m & <- & Hm).
  exists m. split; [apply list_elem_of_In; assumption | reflexivity].
Qed.

Lemma domains_elem (t x : text) :
  x ∈ domains_set U t ->
  exists m, m ∈ findall U domain_pattern t /\ has_file_ext U m = false /\
            x = lower U m.
Proof.
  unfold domains_set. rewrite elem_of_list_to_set. intros H.
  apply list_elem_of_In, in_map_iff in H as (m & <- & Hm).
  apply list_elem_of_In, list_elem_of_filter in Hm as [Hext Hm].
  exists m. split; [assumption|]. split; [|reflexivity].
  destruct (has_file_ext U m); [contradiction | reflexivity].
Qed.

Lemma tracking_elem (t x : text) :
  x ∈ tracking_ids_set U t ->
  x ∈ findall U (ua_pattern U) t \/ x ∈ findall U (pub_pattern U) t.
Proof.
  unfold tracking_ids_set. rewrite elem_of_union, !elem_of_list_to_set. tauto.
Qed.

Lemma found_occurs (r : regex) (t m : text) :
  m ∈ findall U r t -> occurs_in m t /\ den r m.
Proof.
  intros H. apply findall_sound in H as (pre & post & -> & Hd).
  split; [exists pre, post; reflexivity | assumption].
Qed.

(** X1: the extractor never makes text up.  Whatever it returns under
    urls, ips, social_handles or tracking_ids occurs in the text
    character for character, and whatever it returns under domains or
    emails is the lower-case form of something that occurs in the text. *)
Theorem indicators_occur_in_text (t k : text) (v : list text) (x : text) :
  dict_get k (extract t) = Some v -> x ∈ v ->
  (In k verbatim_keys -> occurs_in x t) /\
  (In k lowered_keys -> exists m, occurs_in m t /\ x = lower U m).
Proof.
  intros Hk Hx.
  destruct (category_elem t k v x Hk Hx)
    as [[-> H]|[[-> H]|[[-> H]|[[-> H]|[[-> H]|[[-> H]|[-> H]]]]]]].
  - split; [intros Hin; vm_compute in Hin; intuition discriminate|].
    intros _. apply domains_elem in H as (m & Hm & _ & ->).
    exists m. split; [apply (found_occurs _ _ _ Hm) | reflexivity].
  - split; [|intros Hin; vm_compute in Hin; intuition discriminate].
    intros _. unfold urls_set in H. rewrite elem_of_list_to_set in H.
    apply (found_occurs _ _ _ H).
  - split; [|intros Hin; vm_compute in Hin; intuition discriminate].
    intros _. apply (ExtractorFacts.ips_set_elem U phone_matches) in H as [H _].
    apply (found_occurs _ _ _ H).
  - split; [intros Hin; vm_compute in Hin; intuition discriminate|].
    intros _. apply lowered_elem in H as (m & Hm & ->).
    exists m. split; [apply (found_occurs _ _ _ Hm) | reflexivity].
  - split; intros Hin; vm_compute in Hin; intuition discriminate.
  - split; [|intros Hin; vm_compute in Hin; intuition discriminate].
    intros _. unfold social_handles_set in H. rewrite elem_of_list_to_set in H.
    apply (found_occurs _ _ _ H).
  - split; [|intros Hin; vm_compute in Hin; intuition discriminate].
    intros _. apply tracking_elem in H as [H|H]; apply (found_occurs _ _ _ H).
Qed.

(** *** Characters *)

Ltac char_facts :=
  unfold label_char, local_char, host_char, host_lower_char, lower_ascii,
    is_alnum_ascii, is_alpha_ascii, is_upper_ascii, is_lower_ascii,
    is_digit_ascii, in_range, one_of in *;
  cbn [existsb str map list_ascii_of_string N_of_ascii N_of_digits] in *;
  repeat match goal with
  | |- context [if ?b then _ else _] => destruct b eqn:?
  | H : context [if ?b then _ else _] |- _ => destruct b eqn:?
  end;
  repeat rewrite ?orb_true_iff, ?andb_true_iff, ?orb_false_iff,
    ?andb_false_iff, ?N.leb_le, ?N.leb_gt, ?N.eqb_eq, ?N.eqb_neq,
    ?N.ltb_lt, ?N.ltb_ge in *;
  try lia.

Lemma lower_char_host (c : char) :
  host_char c = true \/ label_char c = true \/ is_alpha_ascii c = true \/
  local_char c = true \/ c = 46 \/ c = 64 ->
  lower_char U c = [lower_ascii c] /\ is_upper_ascii (lower_ascii c) = false /\
  lower_ascii c < 128.
Proof.
  intros H. assert (Hc : c < 128) by char_facts.
  unfold lower_char. apply N.ltb_lt in Hc as Hc'. rewrite Hc'.
  split; [reflexivity|]. split.
  - apply not_true_is_false. intros Hup. char_facts.
  - char_facts.
Qed.

Lemma lower_ascii_keeps_at (c : char) : c <> 64 -> lower_ascii c <> 64.
Proof.
  unfold lower_ascii, is_upper_ascii, in_range. intros Hc.
  destruct ((65 <=? c) && (c <=? 90)) eqn:E; [|assumption].
  apply andb_true_iff in E as [E1 E2]. apply N.leb_le in E1, E2. lia.
Qed.

Lemma lower_host_char (c : char) :
  label_char c = true \/ is_alpha_ascii c = true \/ c = 46 ->
  host_lower_char (lower_ascii c) = true.
Proof. intros H. char_facts. Qed.

Lemma lower_singletons (m : text) :
  Forall (fun c => lower_char U c = [lower_ascii c]) m ->
  lower U m = map lower_ascii m.
Proof.
  unfold lower. induction 1 as [|c m Hc _ IH]; simpl; [reflexivity|].
  rewrite Hc, IH. reflexivity.
Qed.

Lemma domain_alphabet (c : char) :
  alphabet domain_pattern c = true ->
  label_char c = true \/ is_alpha_ascii c = true \/ c = 46.
Proof.
  unfold domain_pattern, plus, chr. cbn [seqs alphabet].
  change (ch ".") with 46. intros H.
  repeat match type of H with
  | (_ || _) = true => apply orb_true_iff in H as [H|H]
  end; try discriminate H; try (apply N.eqb_eq in H; symmetry in H); auto.
Qed.

Lemma email_alphabet (c : char) :
  alphabet email_pattern c = true ->
  local_char c = true \/ host_char c = true \/ is_alpha_ascii c = true \/
  c = 46 \/ c = 64.
Proof.
  unfold email_pattern, plus, chr. cbn [seqs alphabet].
  change (ch ".") with 46. change (ch "@") with 64. intros H.
  repeat match type of H with
  | (_ || _) = true => apply orb_true_iff in H as [H|H]
  end; try discriminate H; try (apply N.eqb_eq in H; symmetry in H);
    auto 10.
Qed.

(** *** Domains *)

Lemma domain_has_dot (m : text) : den domain_pattern m -> In 46 m.
Proof.
  unfold domain_pattern, plus, chr. cbn [seqs den].
  intros (u0 & r0 & -> & -> & (body & tail & -> & (ws & -> & Hws & Hlen & _) & _)).
  destruct Hws as [|w ws (lbl & dot & -> & _ & (c & -> & Hc)) _];
    [simpl in Hlen; lia|].
  apply N.eqb_eq in Hc. subst c. change (ch ".") with 46.
  simpl. rewrite !in_app_iff. simpl. auto.
Qed.

(** X2: a domain returned by the extractor is written in lower-case
    letters, digits, dots and hyphens, contains a dot, and does not end in
    a dot followed by one of the excluded file extensions. *)
Theorem domains_are_lower_case_hosts (t : text) (v : list text) (x : text) :
  dict_get (str "domains") (extract t) = Some v -> x ∈ v ->
  Forall (fun c => host_lower_char c = true) x /\
  In 46 x /\
  Forall (fun ext => endswith x (str "." ++ ext) = false) file_exts.
Proof.
  intros Hk Hx.
  destruct (category_elem t _ v x Hk Hx)
    as [[_ H]|[[E _]|[[E _]|[[E _]|[[E _]|[[E _]|[E _]]]]]]];
    try (vm_compute in E; discriminate E).
  apply domains_elem in H as (m & Hm & Hext & ->).
  apply found_occurs in Hm as [_ Hden].
  pose proof (den_alphabet _ _ Hden) as Halpha.
  assert (Hlow : lower U m = map lower_ascii m).
  { apply lower_singletons. eapply Forall_impl; [exact Halpha|].
    intros c Hc. apply domain_alphabet in Hc.
    apply lower_char_host. intuition auto. }
  split; [|split].
  - rewrite Hlow. apply Forall_forall. intros c Hc.
    apply list_elem_of_In, in_map_iff in Hc as (c0 & <- & Hc0).
    rewrite Forall_forall in Halpha.
    apply lower_host_char, domain_alphabet, Halpha, list_elem_of_In, Hc0.
  - rewrite Hlow. apply domain_has_dot in Hden.
    apply in_map_iff. exists 46. split; [reflexivity | assumption].
  - unfold has_file_ext in Hext. apply Forall_forall. intros ext Hin.
    apply not_true_is_false. intros Hends.
    assert (Hex : existsb (fun ext => endswith (lower U m) (str "." ++ ext))
                          file_exts = true).
    { apply existsb_exists. exists ext. split;
        [apply list_elem_of_In; assumption | assumption]. }
    congruence.
Qed.

(** *** E-mail addresses *)

Lemma den_rep_cls (p : char -> bool) (lo : nat) (hi : option nat) (w : text) :
  den (Rep (Cls p) lo hi) w ->
  Forall (fun c => p c = true) w /\ (lo <= length w)%nat /\ within (length w) hi.
Proof.
  cbn [den]. intros (ws & -> & Hws & Hlo & Hhi).
  assert (Hlen : length (concat ws) = length ws /\
                 Forall (fun c => p c = true) (concat ws)).
  { clear Hlo Hhi. induction Hws as [|x ws (c & -> & Hc) _ [IH1 IH2]]; simpl.
    - split; [reflexivity | constructor].
    - split; [congruence | constructor; assumption]. }
  destruct Hlen as [-> Hall]. split; [assumption|]. split; [assumption|].
  destruct hi; assumption.
Qed.

Lemma count_app (c : char) (u v : text) :
  count c (u ++ v) = (count c u + count c v)%nat.
Proof.
  induction u as [|x u IH]; simpl; [reflexivity|].
  destruct (x =? c); simpl; rewrite IH; reflexivity.
Qed.

Lemma email_parts (m : text) :
  den email_pattern m ->
  exists l h, m = l ++ 64 :: h /\ l <> [] /\ In 46 h /\
    Forall (fun c => local_char c = true) l /\
    Forall (fun c => host_char c = true \/ is_alpha_ascii c = true) h.
Proof.
  unfold email_pattern, plus, chr. cbn [seqs]. change (ch ".") with 46.
  change (ch "@") with 64.
  intros (l & r1 & -> & Hl & (a & r2 & -> & (c1 & -> & Hc1)
            & (x & r3 & -> & Hx & (b & tl & -> & (c2 & -> & Hc2) & Htl)))).
  apply N.eqb_eq in Hc1, Hc2. subst c1 c2.
  apply den_rep_cls in Hl as (Hl & Hlen & _).
  apply den_rep_cls in Hx as (Hx & _ & _).
  apply den_rep_cls in Htl as (Htl & _ & _).
  exists l, (x ++ [46] ++ tl). split; [reflexivity|]. split; [|split; [|split]].
  - destruct l; [simpl in Hlen; lia | discriminate].
  - rewrite !in_app_iff. simpl. auto.
  - assumption.
  - apply Forall_app. split; [eapply Forall_impl; [exact Hx|]; auto|].
    constructor; [left; reflexivity|].
    eapply Forall_impl; [exact Htl|]; auto.
Qed.

(** X3: an e-mail address returned by the extractor is written in ASCII
    without capital letters and has exactly one "@", with a non-empty
    local part before it and a dot somewhere after it. *)
Theorem emails_are_lower_case_addresses (t : text) (v : list text) (x : text) :
  dict_get (str "emails") (extract t) = Some v -> x ∈ v ->
  (exists l h, x = l ++ 64 :: h /\ l <> [] /\ In 46 h) /\
  count 64 x = 1%nat /\
  Forall (fun c => c < 128 /\ is_upper_ascii c = false) x.
Proof.
  intros Hk Hx.
  destruct (category_elem t _ v x Hk Hx)
    as [[E _]|[[E _]|[[E _]|[[_ H]|[[E _]|[[E _]|[E _]]]]]]];
    try (vm_compute in E; discriminate E).
  apply lowered_elem in H as (m & Hm & ->).
  apply found_occurs in Hm as [_ Hden].
  apply email_parts in Hden as (l & h & -> & Hne & Hdot & Hl & Hh).
  assert (Hchars : Forall (fun c => lower_char U c = [lower_ascii c] /\
                                    is_upper_ascii (lower_ascii c) = false /\
                                    lower_ascii c < 128 /\
                                    (c <> 64 -> lower_ascii c <> 64))
                          (l ++ 64 :: h)).
  { apply Forall_app. split; [|constructor].
    - eapply Forall_impl; [exact Hl|]. intros c Hc.
      destruct (lower_char_host c) as (H1 & H2 & H3); [auto|].
      repeat split; auto using lower_ascii_keeps_at.
    - destruct (lower_char_host 64) as (H1 & H2 & H3); [auto 10|].
      repeat split; auto; congruence.
    - eapply Forall_impl; [exact Hh|]. intros c Hc.
      destruct (lower_char_host c) as (H1 & H2 & H3);
        [destruct Hc; auto 10|].
      repeat split; auto using lower_ascii_keeps_at. }
  assert (Hlow : lower U (l ++ 64 :: h) = map lower_ascii (l ++ 64 :: h)).
  { apply lower_singletons. eapply Forall_impl; [exact Hchars|].
    intros c Hc. cbv beta in Hc. apply Hc. }
  rewrite Hlow, map_app. cbn [map]. change (lower_ascii 64) with 64.
  split; [|split].
  - exists (map lower_ascii l), (map lower_ascii h). split; [reflexivity|].
    split; [destruct l; [congruence | discriminate]|].
    apply in_map_iff. exists 46. split; [reflexivity | assumption].
  - rewrite count_app. cbn [count]. rewrite N.eqb_refl.
    apply Forall_app in Hchars as [Hcl Hch]. apply Forall_cons in Hch as [_ Hch].
    assert (Hh0 : count 64 (map lower_ascii h) = O).
    { apply count_absent, Forall_forall. intros c Hc.
      apply list_elem_of_In, in_map_iff in Hc as (c0 & <- & Hc0).
      rewrite Forall_forall in Hch, Hh.
      apply list_elem_of_In in Hc0. apply (Hch c0 Hc0).
      intros ->. destruct (Hh 64 Hc0) as [E|E]; vm_compute in E; discriminate E. }
    assert (Hl0 : count 64 (map lower_ascii l) = O).
    { apply count_absent, Forall_forall. intros c Hc.
      apply list_elem_of_In, in_map_iff in Hc as (c0 & <- & Hc0).
      rewrite Forall_forall in Hcl, Hl.
      apply list_elem_of_In in Hc0. apply (Hcl c0 Hc0).
      intros ->. pose proof (Hl 64 Hc0) as E. vm_compute in E. discriminate E. }
    rewrite Hh0, Hl0. reflexivity.
  - change (map lower_ascii l ++ 64 :: map lower_ascii h)
      with (map lower_ascii l ++ map lower_ascii (64 :: h)).
    rewrite <- map_app. apply Forall_forall. intros c Hc.
    apply list_elem_of_In, in_map_iff in Hc as (c0 & <- & Hc0).
    rewrite Forall_forall in Hchars. apply list_elem_of_In in Hc0.
    destruct (Hchars c0 Hc0) as (_ & H2 & H3 & _). auto.
Qed.

(** *** URLs, handles and tracking identifiers *)

Lemma den_opt_chr (a : ascii) (u : text) :
  den (opt (chr a)) u -> u = [] \/ u = [ch a].
Proof.
  unfold opt. cbn [den]. intros (ws & -> & Hws & _ & Hhi).
  destruct Hws as [|w ws Hw Hws]; [left; reflexivity|].
  destruct Hws as [|w' ws' _ _]; [|simpl in Hhi; lia].
  apply den_chr in Hw. subst w. right. reflexivity.
Qed.

Lemma urls_elem (t x : text) :
  x ∈ urls_set U t -> x ∈ findall U (url_pattern U) t.
Proof. unfold urls_set. rewrite elem_of_list_to_set. auto. Qed.

Lemma url_parts (m : text) :
  den (url_pattern U) m ->
  exists scheme c1 c2 rest,
    m = scheme ++ c1 :: c2 :: rest /\
    (scheme = str "http://" \/ scheme = str "https://") /\
    is_space U c1 = false /\ one_of "/$.?#" c1 = false /\ c2 <> 10 /\
    Forall (fun c => is_space U c = false) rest.
Proof.
  unfold url_pattern, dot, star. cbn [seqs].
  intros (u1 & r1 & -> & H1 & (u2 & r2 & -> & H2 & (u3 & r3 & -> & H3
            & (u4 & r4 & -> & (c1 & -> & Hc1) & (u5 & rest & -> & (c2 & -> & Hc2)
            & Hrest))))).
  apply den_lit in H1, H3. subst u1 u3.
  apply den_rep_cls in Hrest as (Hrest & _ & _).
  apply negb_true_iff, orb_false_iff in Hc1 as [Hsp Hone].
  apply negb_true_iff, N.eqb_neq in Hc2.
  assert (Hrest' : Forall (fun c => is_space U c = false) rest).
  { eapply Forall_impl; [exact Hrest|]. intros c Hc.
    apply negb_true_iff in Hc. exact Hc. }
  apply den_opt_chr in H2 as [-> | ->].
  - exists (str "http://"), c1, c2, rest. repeat split; auto.
  - exists (str "https://"), c1, c2, rest. repeat split; auto.
Qed.

(** X4: a URL returned by the extractor starts with "http://" or
    "https://"; at least two characters follow, the first of which is
    neither white space nor one of "/", "$", ".", "?", "#", the second of
    which is anything but a line feed (a blank included), and no white
    space comes after them. *)
Theorem urls_start_with_scheme (t : text) (v : list text) (x : text) :
  dict_get (str "urls") (extract t) = Some v -> x ∈ v ->
  exists scheme c1 c2 rest,
    x = scheme ++ c1 :: c2 :: rest /\
    (scheme = str "http://" \/ scheme = str "https://") /\
    is_space U c1 = false /\ one_of "/$.?#" c1 = false /\ c2 <> 10 /\
    Forall (fun c => is_space U c = false) rest.
Proof.
  intros Hk Hx.
  destruct (category_elem t _ v x Hk Hx)
    as [[E _]|[[_ H]|[[E _]|[[E _]|[[E _]|[[E _]|[E _]]]]]]];
    try (vm_compute in E; discriminate E).
  apply urls_elem, found_occurs in H as [_ Hden].
  apply url_parts. assumption.
Qed.

Lemma handle_parts (m : text) :
  den (social_pattern U) m ->
  exists h, m = 64 :: h /\ h <> [] /\ Forall (fun c => handle_char U c = true) h.
Proof.
  unfold social_pattern, plus.
  intros (u & h & -> & Hu & Hh). apply den_chr in Hu. subst u.
  apply den_rep_cls in Hh as (Hh & Hlen & _).
  exists h. split; [reflexivity|]. split; [|assumption].
  destruct h; [simpl in Hlen; lia | discriminate].
Qed.

Lemma tracking_parts (m : text) :
  den (ua_pattern U) m \/ den (pub_pattern U) m ->
  (exists account property,
      m = str "UA-" ++ account ++ 45 :: property /\
      (4 <= length account)%nat /\ property <> [] /\
      Forall (fun c => is_digit U c = true) (account ++ property)) \/
  (exists publisher,
      m = str "Pub-" ++ publisher /\ (5 <= length publisher)%nat /\
      Forall (fun c => is_digit U c = true) publisher).
Proof.
  unfold ua_pattern, pub_pattern, plus. cbn [seqs]. intros [H|H].
  - left.
    destruct H as (b1 & r1 & -> & -> & (u & r2 & -> & Hu & (a & r3 & -> & Ha
                     & (d & r4 & -> & Hd & (p & b2 & -> & Hp & ->))))).
    apply den_lit in Hu. subst u. apply den_chr in Hd. subst d.
    apply den_rep_cls in Ha as (Ha & Hla & _).
    apply den_rep_cls in Hp as (Hp & Hlp & _).
    exists a, p. rewrite !app_nil_l, !app_nil_r. split; [reflexivity|].
    split; [assumption|]. split.
    + destruct p; [simpl in Hlp; lia | discriminate].
    + apply Forall_app. split; assumption.
  - right.
    destruct H as (b1 & r1 & -> & -> & (u & r2 & -> & Hu & (p & b2 & -> & Hp & ->))).
    apply den_lit in Hu. subst u.
    apply den_rep_cls in Hp as (Hp & Hlp & _).
    exists p. rewrite !app_nil_l, !app_nil_r. auto.
Qed.

(** X5: a tracking identifier returned by the extractor is "UA-", at
    least four digits, a hyphen and at least one digit, or "Pub-" and at
    least five digits; a social handle is "@" and at least one word
    character or hyphen. *)
Theorem tracking_ids_and_handles_shape (t : text) (v : list text) (x : text) :
  x ∈ v ->
  (dict_get (str "tracking_ids") (extract t) = Some v ->
   (exists account property,
       x = str "UA-" ++ account ++ 45 :: property /\
       (4 <= length account)%nat /\ property <> [] /\
       Forall (fun c => is_digit U c = true) (account ++ property)) \/
   (exists publisher,
       x = str "Pub-" ++ publisher /\ (5 <= length publisher)%nat /\
       Forall (fun c => is_digit U c = true) publisher)) /\
  (dict_get (str "social_handles") (extract t) = Some v ->
   exists h, x = 64 :: h /\ h <> [] /\
             Forall (fun c => handle_char U c = true) h).
Proof.
  intros Hx. split; intros Hk.
  - destruct (category_elem t _ v x Hk Hx)
      as [[E _]|[[E _]|[[E _]|[[E _]|[[E _]|[[E _]|[_ H]]]]]]];
      try (vm_compute in E; discriminate E).
    apply tracking_parts.
    apply tracking_elem in H as [H|H]; apply found_occurs in H as [_ H]; auto.
  - destruct (category_elem t _ v x Hk Hx)
      as [[E _]|[[E _]|[[E _]|[[E _]|[[E _]|[[_ H]|[E _]]]]]]];
      try (vm_compute in E; discriminate E).
    unfold social_handles_set in H. rewrite elem_of_list_to_set in H.
    apply found_occurs in H as [_ H]. apply handle_parts. assumption.
Qed.

(** *** Texts without the characters the patterns need *)

Lemma occurs_in_In (m t : text) (c : char) :
  occurs_in m t -> In c m -> In c t.
Proof.
  intros (pre & post & ->) Hc. rewrite !in_app_iff. auto.
Qed.

Lemma ip_has_dot (m : text) : den (ip_pattern U) m -> In 46 m.
Proof.
  unfold ip_pattern, chr. cbn [seqs den].
  intros (u0 & r0 & -> & -> & (body & tail & -> & (ws & -> & Hws & Hlen & _) & _)).
  destruct Hws as [|w ws (lbl & dot & -> & _ & (c & -> & Hc)) _];
    [simpl in Hlen; lia|].
  apply N.eqb_eq in Hc. subst c. change (ch ".") with 46.
  simpl. rewrite !in_app_iff. simpl. auto.
Qed.

(** The matches behind the elements of a category all contain [c]. *)
Lemma carried (t : text) (c : char) (s : gset text) :
  (forall x, x ∈ s -> exists m, occurs_in m t /\ In c m) ->
  ~ In c t -> sorted s = [].
Proof.
  intros Hs Hc. destruct (sorted s) as [|x l] eqn:E; [reflexivity|].
  assert (Hx : x ∈ sorted s) by (rewrite E; left).
  apply sorted_elem_of in Hx. destruct (Hs x Hx) as (m & Hocc & Hin).
  exfalso. apply Hc. eapply occurs_in_In; eassumption.
Qed.

(** X6: a text without a dot has no domains, IP addresses or e-mail
    addresses; without "@", no e-mail addresses or handles; without a
    colon or without a slash, no URLs; without a hyphen, no tracking
    identifiers. *)
Theorem no_marker_no_indicator (t k : text) (c : char) :
  In (k, c) markers -> ~ In c t -> dict_get k (extract t) = Some [].
Proof.
  intros Hk Hc. unfold markers in Hk. cbn [In] in Hk.
  destruct Hk as [E|[E|[E|[E|[E|[E|[E|[E|[]]]]]]]]];
    injection E as <- <-;
    unfold extract_indicators_by_category, indicators;
    cbn [map fst snd dict_get text_eqb str list_ascii_of_string N_of_ascii
         N_of_digits N.eqb Pos.eqb andb N.add N.mul];
    f_equal; (eapply carried; [|exact Hc]); intros x Hx.
  - apply domains_elem in Hx as (m & Hm & _ & ->).
    apply found_occurs in Hm as [Hocc Hden]. exists m.
    split; [assumption | apply domain_has_dot; assumption].
  - apply (ExtractorFacts.ips_set_elem U phone_matches) in Hx as [Hx _].
    apply found_occurs in Hx as [Hocc Hden]. exists x.
    split; [assumption | apply ip_has_dot; assumption].
  - apply lowered_elem in Hx as (m & Hm & ->).
    apply found_occurs in Hm as [Hocc Hden]. exists m. split; [assumption|].
    apply email_parts in Hden as (l & h & -> & _ & Hdot & _).
    rewrite in_app_iff. right. right. assumption.
  - apply lowered_elem in Hx as (m & Hm & ->).
    apply found_occurs in Hm as [Hocc Hden]. exists m. split; [assumption|].
    apply email_parts in Hden as (l & h & -> & _).
    rewrite in_app_iff. right. left. reflexivity.
  - apply urls_elem, found_occurs in Hx as [Hocc Hden]. exists x.
    split; [assumption|].
    apply url_parts in Hden as (s & c1 & c2 & r & -> & [-> | ->] & _);
      rewrite in_app_iff; left; vm_compute; auto 10.
  - apply urls_elem, found_occurs in Hx as [Hocc Hden]. exists x.
    split; [assumption|].
    apply url_parts in Hden as (s & c1 & c2 & r & -> & [-> | ->] & _);
      rewrite in_app_iff; left; vm_compute; auto 10.
  - unfold social_handles_set in Hx. rewrite elem_of_list_to_set in Hx.
    apply found_occurs in Hx as [Hocc Hden]. exists x. split; [assumption|].
    apply handle_parts in Hden as (h & -> & _). left. reflexivity.
  - apply tracking_elem in Hx.
    assert (Hx' : occurs_in x t /\
                  (den (ua_pattern U) x \/ den (pub_pattern U) x)).
    { destruct Hx as [Hx|Hx]; apply found_occurs in Hx as [Hocc Hden]; auto. }
    destruct Hx' as [Hocc Hden]. exists x. split; [assumption|].
    apply tracking_parts in Hden as [(a & p & -> & _)|(p & -> & _)];
      rewrite in_app_iff; left; vm_compute; auto 10.
Qed.

End Shapes.

End ExtractorMore.

(** ** The rest of the pipeline *)

Module PipelineMore.

Import PipelineFacts.

(** *** PDFExtractor.extract_text_from_pdf *)

Section Reading.

Variable config : Config.
Variable fitz_open : text -> result (list (result text)).

Lemma read_pages_limit (pages : list (result text)) :
  forall n l,
    read_pages config n pages = Ok l <->
    map (fun p => Ok (page_text p)) l = take (S (MAX_PAGES config) - n) pages /\
    map page_number l = seq n (length l).
Proof.
  induction pages as [|p pages IH]; intros n l; cbn [read_pages].
  - rewrite take_nil. split.
    + intros [= <-]. split; reflexivity.
    + intros [H _]. destruct l; [reflexivity | discriminate].
  - destruct (Nat.ltb_spec (MAX_PAGES config) n) as [Hn|Hn].
    + replace (S (MAX_PAGES config) - n)%nat with O by lia. split.
      * intros [= <-]. split; reflexivity.
      * intros [H _]. destruct l; [reflexivity | discriminate].
    + replace (S (MAX_PAGES config) - n)%nat
        with (S (S (MAX_PAGES config) - S n)) by lia.
      cbn [take]. destruct p as [t|e].
      * destruct (read_pages config (S n) pages) as [rest|e] eqn:Hrest.
        -- pose proof (proj1 (IH _ _) Hrest) as [Ht Hn']. split.
           ++ intros [= <-]. cbn [map length seq page_text page_number].
              rewrite Ht, Hn'. split; reflexivity.
           ++ intros [H1 H2]. destruct l as [|[k t'] l]; [discriminate|].
              cbn [map length seq page_text page_number] in H1, H2.
              injection H1 as -> H1. injection H2 as -> H2.
              assert (Hl : read_pages config (S n) pages = Ok l)
                by (apply IH; split; assumption).
              rewrite Hrest in Hl. injection Hl as ->. reflexivity.
        -- split; [discriminate|]. intros [H1 H2].
           destruct l as [|[k t'] l]; [discriminate|].
           cbn [map length seq page_text page_number] in H1, H2.
           injection H1 as -> H1. injection H2 as -> H2.
           assert (Hl : read_pages config (S n) pages = Ok l)
             by (apply IH; split; assumption).
           rewrite Hrest in Hl. discriminate Hl.
      * split; [discriminate|]. intros [H _].
        destruct l; discriminate H.
Qed.

Lemma read_pages_raises (pages : list (result text)) :
  forall n e,
    read_pages config n pages = Raise e ->
    In (Raise e) (take (S (MAX_PAGES config) - n) pages).
Proof.
  induction pages as [|p pages IH]; intros n e; cbn [read_pages];
    [discriminate|].
  destruct (Nat.ltb_spec (MAX_PAGES config) n) as [Hn|Hn]; [discriminate|].
  replace (S (MAX_PAGES config) - n)%nat
    with (S (S (MAX_PAGES config) - S n)) by lia.
  cbn [take]. destruct p as [t|e'].
  - destruct (read_pages config (S n) pages) as [rest|e'] eqn:Hrest;
      [discriminate|].
    intros [= ->]. right. apply IH. assumption.
  - intros [= ->]. left. reflexivity.
Qed.

(** X7: of a document that opens, [extract_text_from_pdf] returns the
    texts of the first [MAX_PAGES] pages (of all pages when there are
    fewer), numbered 1, 2, ... in order, and nothing else; it raises only
    what extracting the text of one of these pages raises: the text of a
    page beyond the limit is never asked for. *)
Theorem extract_text_reads_first_pages
    (pdf_path : text) (pages : list (result text)) :
  fitz_open pdf_path = Ok pages ->
  (forall l,
      extract_text_from_pdf config fitz_open pdf_path = Ok l <->
      map (fun p => Ok (page_text p)) l = take (MAX_PAGES config) pages /\
      map page_number l = seq 1 (length l)) /\
  (forall e,
      extract_text_from_pdf config fitz_open pdf_path = Raise e ->
      In (Raise e) (take (MAX_PAGES config) pages)).
Proof.
  intros Hopen. unfold extract_text_from_pdf. rewrite Hopen. split.
  - intros l. rewrite read_pages_limit.
    replace (S (MAX_PAGES config) - 1)%nat with (MAX_PAGES config) by lia.
    reflexivity.
  - intros e He. apply read_pages_raises in He.
    replace (S (MAX_PAGES config) - 1)%nat with (MAX_PAGES config) in He by lia.
    assumption.
Qed.

End Reading.

(** *** TextProcessor.clean_text *)

Section Cleaning.

Variable U : Unicode.

Abbreviation space := (is_space U).

Lemma spaced_weaken (b : bool) (s : text) :
  spaced space b s = true -> spaced space false s = true.
Proof.
  destruct s as [|c s]; cbn [spaced]; [auto|].
  destruct (space c); [|auto].
  rewrite !andb_true_iff. intros [[H1 _] H2]. auto.
Qed.

Lemma spaced_suffix (u v : text) :
  forall b, spaced space b (u ++ v) = true -> spaced space false v = true.
Proof.
  induction u as [|c u IH]; intros b; cbn [app spaced].
  - apply spaced_weaken.
  - destruct (space c); [|apply IH].
    rewrite !andb_true_iff. intros [_ H]. eapply IH. exact H.
Qed.

Lemma spaced_prefix (u v : text) :
  forall b, spaced space b (u ++ v) = true -> spaced space b u = true.
Proof.
  induction u as [|c u IH]; intros b; cbn [app spaced]; [reflexivity|].
  destruct (space c); [|apply IH].
  rewrite !andb_true_iff. intros [H1 H2]. split; [assumption|].
  apply IH. assumption.
Qed.

Lemma spaced_first (c : char) (s : text) :
  spaced space false (c :: s) = true -> space c = false ->
  spaced space true (c :: s) = true.
Proof. cbn [spaced]. intros H Hc. rewrite Hc in *. assumption. Qed.

Lemma spaced_blanks (s : text) :
  forall b, spaced space b s = true ->
    Forall (fun c => space c = true -> c = 32) s.
Proof.
  induction s as [|c s IH]; intros b; cbn [spaced]; [constructor|].
  destruct (space c) eqn:Hc.
  - rewrite !andb_true_iff. intros [[H1 _] H2]. apply N.eqb_eq in H1.
    constructor; [auto | eapply IH; eassumption].
  - intros H. constructor; [intros E; congruence | eapply IH; eassumption].
Qed.

Lemma spaced_apart (pre : text) (x y : char) (post : text) :
  forall b, spaced space b (pre ++ x :: y :: post) = true ->
    space x = true -> space y = false.
Proof.
  intros b H Hx. apply spaced_suffix in H. cbn [spaced] in H.
  rewrite Hx in H. destruct (space y); [|reflexivity].
  rewrite !andb_true_iff in H. destruct H as [_ [[_ H] _]]. discriminate H.
Qed.

Lemma space_blank : space 32 = true.
Proof. reflexivity. Qed.

Lemma drop_while_head (p : char -> bool) (s : text) (c : char) (r : text) :
  drop_while p s = c :: r -> p c = false.
Proof.
  induction s as [|x s IH]; simpl; [discriminate|].
  destruct (p x) eqn:Hx; [assumption|]. intros [= <- _]. assumption.
Qed.

Lemma match_here_run (p : char -> bool) (prev : option char) (s : text) :
  match_here U (plus (Cls p)) prev s =
  match take_while p s with
  | [] => None
  | _ :: _ => Some (last_char prev (take_while p s), drop_while p s)
  end.
Proof.
  unfold match_here, plus. rewrite exec_Rep, iter_cls_greedy by lia.
  destruct (take_while p s); reflexivity.
Qed.

(** [re.sub(r"\s+", " ", s)] leaves single blanks only. *)
Lemma sub_spaced (fuel : nat) :
  forall prev s, (length s < fuel)%nat ->
    let out := sub_from U (plus (Cls space)) (str " ") fuel prev s in
    spaced space false out = true /\
    (forall c r, s = c :: r -> space c = false -> spaced space true out = true).
Proof.
  induction fuel as [|fuel IH]; intros prev s Hlen; [lia|].
  cbn [sub_from]. rewrite match_here_run.
  destruct s as [|c s]; [split; [reflexivity | discriminate]|].
  cbn [take_while drop_while]. destruct (space c) eqn:Hc.
  - pose proof (take_drop_while space s) as Htd.
    assert (Hshort : (length (drop_while space s) <= length s)%nat).
    { rewrite <- Htd at 2. rewrite length_app. lia. }
    replace (Nat.ltb (length (drop_while space s)) (length (c :: s))) with true
      by (symmetry; apply Nat.ltb_lt; simpl; lia).
    destruct (IH (last_char prev (c :: take_while space s))
                 (drop_while space s)) as [IH1 IH2];
      [simpl in Hlen; lia|].
    split.
    + change (str " ") with [32]. cbn [app spaced]. rewrite space_blank.
      cbn [N.eqb Pos.eqb negb andb].
      destruct (drop_while space s) as [|x r] eqn:Hd.
      * destruct fuel; reflexivity.
      * apply (IH2 x r eq_refl). eapply drop_while_head. exact Hd.
    + intros c' r [= <- <-] Hc'. congruence.
  - destruct (IH (Some c) s) as [IH1 _]; [simpl in Hlen; lia|].
    cbn [spaced]. rewrite Hc. split; [assumption|]. intros; assumption.
Qed.

(** [str.replace] by one character that is not white space keeps the
    blanks single. *)
Lemma replace_spaced (old : text) (q : char) (fuel : nat) :
  space q = false ->
  forall s b, spaced space b s = true ->
    spaced space b (replace_nonempty old [q] s fuel) = true.
Proof.
  intros Hq. induction fuel as [|fuel IH]; intros s b Hs; [exact Hs|].
  cbn [replace_nonempty]. destruct s as [|c s]; [reflexivity|].
  destruct (startswith (c :: s) old).
  - cbn [app spaced]. rewrite Hq. apply IH.
    rewrite <- (take_drop (length old) (c :: s)) in Hs.
    eapply spaced_suffix. exact Hs.
  - cbn [spaced] in *. destruct (space c).
    + rewrite !andb_true_iff in *. destruct Hs as [H1 H2].
      split; [assumption | apply IH; assumption].
    + apply IH. assumption.
Qed.

Lemma replace_char_gone (a q : char) (fuel : nat) :
  a <> q ->
  forall s, (length s < fuel)%nat -> ~ In a (replace_nonempty [a] [q] s fuel).
Proof.
  intros Hq. induction fuel as [|fuel IH]; intros s Hlen; [lia|].
  cbn [replace_nonempty]. destruct s as [|c s]; [auto|].
  cbn [startswith]. simpl in Hlen. destruct (N.eqb_spec c a) as [->|Hc].
  - destruct s; cbn [startswith andb app skipn length];
      intros [H|H]; try congruence; revert H; apply IH; simpl in *; lia.
  - cbn [andb]. intros [H|H]; [congruence|]. revert H. apply IH. lia.
Qed.

Lemma drop_while_suffix (p : char -> bool) (s : text) :
  exists u, s = u ++ drop_while p s.
Proof. exists (take_while p s). symmetry. apply take_drop_while. Qed.

(** [str.strip()] returns a stretch of the text that neither starts nor
    ends with white space. *)
Lemma strip_stretch (s : text) :
  exists u v, s = u ++ strip U s ++ v /\
    (forall c r, strip U s = c :: r -> space c = false) /\
    (forall c, last (strip U s) = Some c -> space c = false).
Proof.
  unfold strip.
  destruct (drop_while_suffix space s) as [u Hu].
  set (y := drop_while space s) in *.
  destruct (drop_while_suffix space (rev y)) as [v Hv].
  set (z := drop_while space (rev y)) in *.
  assert (Hy : y = rev z ++ rev v).
  { rewrite <- (rev_involutive y), Hv, rev_app_distr. reflexivity. }
  exists u, (rev v). split; [rewrite Hu at 1; rewrite Hy; reflexivity|].
  split.
  - intros c r Hz. rewrite Hz in Hy. cbn [app] in Hy.
    eapply drop_while_head. exact Hy.
  - intros c Hlast. destruct z as [|x z'] eqn:Ez; [discriminate|].
    cbn [rev] in Hlast. rewrite last_snoc in Hlast.
    injection Hlast as <-. subst z. eapply drop_while_head. exact Ez.
Qed.

(** X8: in the text that [clean_text] returns, white space occurs only
    as single blanks between two other characters: the text neither
    starts nor ends with white space, every white space character in it
    is a blank, and no two follow each other.  It contains no en dash. *)
Theorem clean_text_single_blanks (t : text) :
  let s := clean_text U t in
  (forall c r, s = c :: r -> space c = false) /\
  (forall c, last s = Some c -> space c = false) /\
  Forall (fun c => space c = true -> c = 32) s /\
  (forall pre x y post, s = pre ++ x :: y :: post ->
     space x = true -> space y = false) /\
  ~ In 8211 s.
Proof.
  cbv zeta. unfold clean_text.
  set (s1 := sub U (plus (Cls space)) (str " ") t).
  set (s2 := replace _ [34] s1).
  set (s3 := replace [39] [39] s2).
  set (s4 := replace [8211] (str "-") s3).
  assert (H1 : spaced space false s1 = true).
  { apply (sub_spaced (S (length t)) None t). lia. }
  assert (H2 : spaced space false s2 = true).
  { apply replace_spaced; [reflexivity | assumption]. }
  assert (H3 : spaced space false s3 = true).
  { apply replace_spaced; [reflexivity | assumption]. }
  assert (H4 : spaced space false s4 = true).
  { apply replace_spaced; [reflexivity | assumption]. }
  assert (Hdash : ~ In 8211 s4).
  { apply replace_char_gone; [discriminate | lia]. }
  destruct (strip_stretch s4) as (u & v & Hs & Hhead & Hlast).
  assert (H5 : spaced space false (strip U s4) = true).
  { rewrite Hs in H4. apply spaced_suffix in H4.
    eapply spaced_prefix. exact H4. }
  split; [exact Hhead|]. split; [exact Hlast|]. split; [|split].
  - eapply spaced_blanks. exact H5.
  - intros pre x y post E. rewrite E in H5. eapply spaced_apart. exact H5.
  - intros Hin. apply Hdash. rewrite Hs, !in_app_iff. auto.
Qed.

End Cleaning.

(** *** TextProcessor.detect_language and chunk_text *)

Section Languages.

Variable Embedding : Type.
Variable config : Config.
Variable detect : text -> result text.
Variable spacy_split : text -> nat -> nat -> text -> result (list text).
Variable recursive_split : nat -> nat -> text -> result (list text).

Abbreviation chunk_size := (getattr (CHUNK_SIZE config) 500%nat).
Abbreviation chunk_overlap := (getattr (CHUNK_OVERLAP config) 50%nat).
Abbreviation secondary := (recursive_split chunk_size chunk_overlap).
Abbreviation chunk_text' :=
  (chunk_text Embedding config spacy_split recursive_split).

(** X9: whatever the detector answers or raises, [detect_language]
    returns "en", "fr" or "de" ("en" when the detector raises), and the
    spaCy pipeline that [chunk_text] picks for it is the one whose name
    starts with that code: the default of the pipeline map is never
    needed for a detected language. *)
Theorem detect_language_supported (t : text) :
  In (detect_language detect t) (map str ["en"; "fr"; "de"]%string) /\
  (forall e, detect t = Raise e -> detect_language detect t = str "en") /\
  pipeline_for (detect_language detect t)
    = detect_language detect t ++
      (if text_eqb (detect_language detect t) (str "en")
       then str "_core_web_sm" else str "_core_news_sm").
Proof.
  unfold detect_language. destruct (detect t) as [lang|e].
  - destruct (startswith lang (str "en"));
      [|destruct (startswith lang (str "fr"));
        [|destruct (startswith lang (str "de"))]];
      (split; [vm_compute; auto | split; [discriminate | reflexivity]]).
  - split; [vm_compute; auto | split; reflexivity].
Qed.

Lemma resplit_small (chunks : list text) :
  within_size chunk_size chunks ->
  resplit recursive_split chunk_size chunk_overlap chunks = Ok chunks.
Proof.
  induction 1 as [|c chunks Hc _ IH]; cbn [resplit]; [reflexivity|].
  destruct (Nat.ltb_spec chunk_size (length c)) as [Hlt|_]; [lia|].
  rewrite IH. reflexivity.
Qed.

(** X10: [chunk_text] raises only what the secondary splitter raises on
    the whole text (an exception of the primary splitter, or of the
    secondary splitter on one oversized chunk, is caught); and when the
    primary splitter returns chunks that are all within [chunk_size],
    these are returned as they are, without a line printed. *)
Theorem chunk_text_raises_only_secondary
    (t language : text) (use_spacy : bool) (w : World Embedding) :
  (forall e w', chunk_text' t language use_spacy w = (Raise e, w') ->
                secondary t = Raise e) /\
  (forall chunks,
      spacy_split (pipeline_for language) chunk_size chunk_overlap t = Ok chunks ->
      within_size chunk_size chunks ->
      chunk_text' t language true w = (Ok chunks, w)).
Proof.
  split.
  - intros e w'. unfold chunk_text, try_except, bind, lift, print, modify.
    destruct use_spacy.
    + destruct (spacy_split _ _ _ t) as [chunks|e1].
      * destruct (resplit _ _ _ chunks) as [l|e2]; [discriminate|].
        destruct (secondary t); [discriminate|]. intros [= -> _]. reflexivity.
      * destruct (secondary t); [discriminate|]. intros [= -> _]. reflexivity.
    + destruct (secondary t); [discriminate|]. intros [= -> _]. reflexivity.
  - intros chunks Hprimary Hsmall.
    unfold chunk_text, try_except, bind, lift.
    rewrite Hprimary, (resplit_small _ Hsmall). reflexivity.
Qed.

End Languages.

(** *** FileManager and the Neo4j repository *)

Section Effects.

Variable Embedding : Type.
Variable config : Config.
Variable fault : World Embedding -> Op Embedding -> option exn.
Variable uuid4_draw : nat -> text.

Abbreviation save' := (save_clean_and_json Embedding config fault).

Abbreviation done := (after_disk Embedding).

Lemma after_disk_nil (w : World Embedding) : done [] w = w.
Proof. destruct w. unfold after_disk, set_files. cbn. rewrite app_nil_r. reflexivity. Qed.

Lemma after_disk_app (a b : list FileOp) (w : World Embedding) :
  done b (done a w) = done (a ++ b) w.
Proof.
  destruct w. unfold after_disk, set_files. cbn. rewrite app_assoc. reflexivity.
Qed.

(** A sequence of disk operations stops at the first that raises. *)
Lemma file_ops_run (ops : list FileOp) :
  forall (w : World Embedding) (n : nat),
    (forall k op, (k < n)%nat -> ops !! k = Some op ->
                  fault (done (take k ops) w) (OpFile op) = None) ->
    match ops !! n with
    | Some op =>
      forall e, fault (done (take n ops) w) (OpFile op) = Some e ->
        for_each Embedding ops (file_op Embedding fault) w
          = (Raise e, done (take n ops) w)
    | None =>
      for_each Embedding ops (file_op Embedding fault) w = (Ok tt, done ops w)
    end.
Proof.
  induction ops as [|f ops IH]; intros w n Hbefore.
  - rewrite lookup_nil. cbn [for_each]. rewrite after_disk_nil. reflexivity.
  - destruct n as [|n].
    + cbn [lookup list_lookup take]. intros e He.
      rewrite after_disk_nil in *. cbn [for_each].
      unfold bind, file_op, perform. rewrite He. reflexivity.
    + assert (H0 : fault w (OpFile f) = None).
      { rewrite <- (after_disk_nil w) at 1. apply (Hbefore 0%nat); [lia | reflexivity]. }
      assert (Hstep : for_each Embedding (f :: ops) (file_op Embedding fault) w
                      = for_each Embedding ops (file_op Embedding fault) (done [f] w)).
      { cbn [for_each]. unfold bind, file_op at 1, perform. rewrite H0. reflexivity. }
      rewrite Hstep. cbn [lookup list_lookup take].
      specialize (IH (done [f] w) n).
      assert (Hrest : forall k op, (k < n)%nat -> ops !! k = Some op ->
                fault (done (take k ops) (done [f] w)) (OpFile op) = None).
      { intros k op Hk Hop. rewrite after_disk_app.
        apply (Hbefore (S k)); [lia | exact Hop]. }
      specialize (IH Hrest).
      destruct (ops !! n) as [op|].
      * intros e He. change (f :: take n ops) with ([f] ++ take n ops) in *.
        rewrite <- after_disk_app in *. apply IH. exact He.
      * rewrite IH, after_disk_app. reflexivity.
Qed.

(** What a sequence of disk operations leaves, however it ends: the
    first [n] operations done, where [n] is the operation that raised
    or, when none did, the number of operations. *)
Lemma file_ops_outcome (ops : list FileOp) :
  forall w : World Embedding,
    let r := for_each Embedding ops (file_op Embedding fault) w in
    exists n,
      snd r = done (take n ops) w /\
      match fst r with
      | Ok _ => n = length ops
      | Raise e => exists op, ops !! n = Some op /\
                              fault (done (take n ops) w) (OpFile op) = Some e
      end.
Proof.
  induction ops as [|f ops IH]; intros w; cbv zeta.
  - exists 0%nat. cbn. rewrite after_disk_nil. auto.
  - cbn [for_each]. unfold bind.
    assert (Hstep : file_op Embedding fault f w =
                    match fault w (OpFile f) with
                    | Some e => (Raise e, w)
                    | None => (Ok tt, done [f] w)
                    end) by reflexivity.
    rewrite Hstep. clear Hstep.
    destruct (fault w (OpFile f)) as [e|] eqn:Hf.
    + exists 0%nat. cbn [fst snd take]. rewrite after_disk_nil.
      split; [reflexivity|]. exists f. auto.
    + specialize (IH (done [f] w)). cbv zeta in IH.
      destruct IH as (n & Hsnd & Hfst).
      exists (S n). cbn [take]. rewrite Hsnd, after_disk_app. split; [reflexivity|].
      destruct (fst _) as [[]|e].
      * simpl. congruence.
      * destruct Hfst as (op & Hop & He). exists op. split; [exact Hop|].
        rewrite after_disk_app in He. exact He.
Qed.

Lemma save_as_loop (name full : text) (found : list (text * list text))
    (metadata : Metadata) (w : World Embedding) :
  save' name full found metadata w =
  bind Embedding
    (for_each Embedding (save_operations config name full found metadata)
              (file_op Embedding fault))
    (fun _ =>
       bind Embedding
         (print Embedding
            (LogSavedClean (path_join (CLEAN_DIR config) (name ++ str "_clean.txt"))))
         (fun _ =>
            print Embedding
              (LogSavedIndicators
                 (path_join (RAW_DIR config) (name ++ str "_indicators.json")))))
    w.
Proof.
  unfold save_clean_and_json, save_operations. cbn [for_each]. unfold bind.
  repeat match goal with
  | |- context [file_op Embedding fault ?f ?w0] =>
    destruct (file_op Embedding fault f w0) as [[[]|?] ?]
  end; reflexivity.
Qed.

(** X11: [save_clean_and_json] does its six disk operations in order:
    the two directories, the opening and the writing of the clean text,
    the opening and the writing of the indicators.  It stops at the first
    of them that raises and raises the same exception: the operations
    before it are done (so a file whose writing raised has been created
    or emptied by its opening), nothing is printed and nothing else is
    touched.  When none of them raises it returns, having printed the two
    "Saved" lines after the last write (printing is taken not to fail). *)
Theorem save_reports_what_is_written
    (name full : text) (found : list (text * list text)) (metadata : Metadata)
    (w : World Embedding) (n : nat) :
  let clean_file := path_join (CLEAN_DIR config) (name ++ str "_clean.txt") in
  let raw_file := path_join (RAW_DIR config) (name ++ str "_indicators.json") in
  let ops := save_operations config name full found metadata in
  (forall k op, (k < n)%nat -> ops !! k = Some op ->
                fault (done (take k ops) w) (OpFile op) = None) ->
  match ops !! n with
  | Some op =>
    forall e, fault (done (take n ops) w) (OpFile op) = Some e ->
      save' name full found metadata w = (Raise e, done (take n ops) w)
  | None =>
    save' name full found metadata w
      = (Ok tt, set_log Embedding
                  (log w ++ [LogSavedClean clean_file; LogSavedIndicators raw_file])
                  (done ops w))
  end.
Proof.
  cbv zeta. intros Hbefore.
  pose proof (file_ops_run (save_operations config name full found metadata)
                w n Hbefore) as Hrun.
  destruct (save_operations config name full found metadata !! n) as [op|].
  - intros e He. rewrite save_as_loop. unfold bind. rewrite (Hrun e He).
    reflexivity.
  - rewrite save_as_loop. unfold bind. rewrite Hrun.
    unfold print, modify. cbn. rewrite <- app_assoc. reflexivity.
Qed.

Abbreviation connect := (Neo4jRepository Embedding fault).
Abbreviation merge_document := (neo4j_insert_document Embedding fault).
Abbreviation insert_indicators' := (insert_indicators Embedding fault uuid4_draw).

(** The statements of the three nested loops, whether they complete or
    not. *)
Lemma mention_sends (doc : text) (page : nat) (cat val : text) (w : World Embedding) :
  let r := mention Embedding fault uuid4_draw doc page cat val w in
  log (snd r) = log w /\
  match fst r with
  | Ok _ =>
    exists ind,
      uuid5 NAMESPACE_DNS (cat ++ str ":" ++ val) = Some ind /\
      graph (snd r) = graph w ++
        [MergeIndicator ind val cat doc (decimal page) (uuid4_draw (draws w))] /\
      draws (snd r) = S (draws w)
  | Raise _ => graph (snd r) = graph w
  end.
Proof.
  cbv zeta. unfold mention, bind, uuid4, lift, indicator_uuid, run, perform.
  destruct (uuid5 NAMESPACE_DNS _) as [ind|] eqn:Hind; cbn.
  - destruct (fault _ _); cbn; [auto|]. split; [reflexivity|].
    exists ind. auto.
  - auto.
Qed.

Lemma for_each_ext {A : Type} (l : list A) (f g : A -> M Embedding unit) :
  (forall x w, f x w = g x w) ->
  forall w, for_each Embedding l f w = for_each Embedding l g w.
Proof.
  intros Hfg. induction l as [|x l IH]; intros w; cbn [for_each];
    [reflexivity|].
  unfold bind. rewrite Hfg. destruct (g x w) as [[[]|e] w1]; [apply IH|reflexivity].
Qed.

Lemma for_each_app {A : Type} (l1 l2 : list A) (f : A -> M Embedding unit) :
  forall w, for_each Embedding (l1 ++ l2) f w =
            bind Embedding (for_each Embedding l1 f)
                 (fun _ => for_each Embedding l2 f) w.
Proof.
  induction l1 as [|x l1 IH]; intros w; cbn [app for_each].
  - reflexivity.
  - unfold bind in *. destruct (f x w) as [[[]|e] w1]; [apply IH|reflexivity].
Qed.

Lemma for_each_map {A B : Type} (h : A -> B) (l : list A)
    (f : B -> M Embedding unit) :
  forall w, for_each Embedding (map h l) f w =
            for_each Embedding l (fun x => f (h x)) w.
Proof.
  induction l as [|x l IH]; intros w; cbn [map for_each]; [reflexivity|].
  unfold bind. destruct (f (h x) w) as [[[]|e] w1]; [apply IH|reflexivity].
Qed.

Lemma for_each_flat_map {A B : Type} (g : A -> list B) (l : list A)
    (f : B -> M Embedding unit) :
  forall w, for_each Embedding l (fun x => for_each Embedding (g x) f) w =
            for_each Embedding (flat_map g l) f w.
Proof.
  induction l as [|x l IH]; intros w; cbn [flat_map for_each]; [reflexivity|].
  rewrite for_each_app. unfold bind.
  destruct (for_each Embedding (g x) f w) as [[[]|e] w1]; [apply IH|reflexivity].
Qed.

Abbreviation mention_triple doc :=
  (fun t : nat * text * text =>
     mention Embedding fault uuid4_draw doc (fst (fst t)) (snd (fst t)) (snd t)).

(** The three nested loops are one loop over the triples. *)
Lemma loops_flat (doc : text) (pages : list (nat * list (text * list text))) :
  forall w,
    for_each Embedding pages (fun page_entry =>
      for_each Embedding (snd page_entry) (fun category_entry =>
        for_each Embedding (snd category_entry) (fun value =>
          mention Embedding fault uuid4_draw doc (fst page_entry)
                  (fst category_entry) value))) w
    = for_each Embedding (triples pages) (mention_triple doc) w.
Proof.
  intros w. unfold triples. rewrite <- for_each_flat_map.
  apply for_each_ext. intros pe w1. rewrite <- for_each_flat_map.
  apply for_each_ext. intros ce w2. rewrite for_each_map. reflexivity.
Qed.

Lemma loop_sends (doc : text) (ts : list (nat * text * text)) :
  forall w,
    let r := for_each Embedding ts (mention_triple doc) w in
    exists n sent,
      (n <= length ts)%nat /\
      graph (snd r) = graph w ++ sent /\
      map mention_of sent =
        map (fun t : nat * text * text =>
               Some (doc, decimal (fst (fst t)), snd (fst t), snd t))
            (take n ts) /\
      map relationship_of sent =
        map (fun i => Some (uuid4_draw i)) (seq (draws w) n) /\
      log (snd r) = log w /\
      (fst r = Ok tt -> n = length ts).
Proof.
  induction ts as [|t ts IH]; intros w; cbv zeta; cbn [for_each].
  - exists 0%nat, []. cbn. rewrite app_nil_r. repeat split; lia.
  - pose proof (mention_sends doc (fst (fst t)) (snd (fst t)) (snd t) w) as Hm.
    cbv zeta in Hm. unfold bind.
    destruct (mention Embedding fault uuid4_draw doc _ _ _ w) as [[[]|e] w1];
      cbn [fst snd] in *.
    + destruct Hm as (Hlog & ind & _ & Hg & Hd).
      destruct (IH w1) as (n & sent & Hn & Hg' & Hm' & Hr' & Hlog' & Hok).
      exists (S n), (MergeIndicator ind (snd t) (snd (fst t)) doc
                       (decimal (fst (fst t))) (uuid4_draw (draws w)) :: sent).
      split; [simpl; lia|]. split; [rewrite Hg', Hg, <- app_assoc; reflexivity|].
      split; [cbn [map take mention_of]; rewrite Hm'; reflexivity|].
      split; [cbn [map seq relationship_of]; rewrite Hr', Hd; reflexivity|].
      split; [congruence|]. intros H. simpl. rewrite (Hok H). reflexivity.
    + destruct Hm as (Hlog & Hg).
      exists 0%nat, []. cbn. rewrite app_nil_r. repeat split; try lia; auto.
      discriminate.
Qed.

Lemma insert_indicators_run
    (doc : text) (pages : list (nat * list (text * list text)))
    (w : World Embedding) :
  let r := insert_indicators' doc pages w in
  exists n sent,
    graph (snd r) = graph w ++ sent /\
    map mention_of sent =
      map (fun t : nat * text * text =>
             Some (doc, decimal (fst (fst t)), snd (fst t), snd t))
          (take n (triples pages)) /\
    map relationship_of sent =
      map (fun i => Some (uuid4_draw i)) (seq (draws w) n) /\
    match fst r with
    | Ok _ => n = length (triples pages) /\ log (snd r) = log w
    | Raise e => log (snd r) = log w ++ [LogNeo4jIndicatorsFailed e]
    end.
Proof.
  cbv zeta. unfold insert_indicators, try_except, bind, session, perform.
  destruct (fault w OpSession) as [e|].
  - exists 0%nat, []. cbn. rewrite app_nil_r. auto.
  - rewrite loops_flat.
    destruct (loop_sends doc (triples pages) w)
      as (n & sent & Hn & Hg & Hm & Hr & Hlog & Hok).
    cbv zeta in Hg, Hlog, Hok.
    destruct (for_each Embedding (triples pages) (mention_triple doc) w)
      as [[[]|e] w1]; cbn [fst snd] in *.
    + exists n, sent. specialize (Hok eq_refl). auto.
    + exists n, sent. cbn. rewrite Hlog. auto.
Qed.

(** X12: [insert_indicators] sends one statement per (page, category,
    value) triple, in the order of the pages, of the categories of a page
    and of the values of a category, each with the document identity, the
    page number in decimal and the next random relationship identity;
    when it returns, every triple had its statement and nothing is
    printed; when it raises, the statements already sent are those of
    the first triples, and exactly one line, with the exception, is
    printed before the exception is raised again. *)
Theorem insert_indicators_sends_triples
    (doc : text) (pages : list (nat * list (text * list text)))
    (w : World Embedding) :
  let r := insert_indicators' doc pages w in
  let sent := statements_sent Embedding (insert_indicators' doc pages) w in
  exists n,
    graph (snd r) = graph w ++ sent /\
    map mention_of sent =
      map (fun t : nat * text * text =>
             Some (doc, decimal (fst (fst t)), snd (fst t), snd t))
          (take n (triples pages)) /\
    map relationship_of sent =
      map (fun i => Some (uuid4_draw i)) (seq (draws w) n) /\
    match fst r with
    | Ok _ => n = length (triples pages) /\ log (snd r) = log w
    | Raise e => log (snd r) = log w ++ [LogNeo4jIndicatorsFailed e]
    end.
Proof.
  cbv zeta. unfold statements_sent.
  destruct (insert_indicators_run doc pages w)
    as (n & sent & Hg & Hm & Hr & Hout).
  exists n. rewrite Hg, drop_app_length. auto.
Qed.

Lemma connect_outcome (driver : Neo4jDriver) (w : World Embedding) :
  let r := connect driver w in
  draws (snd r) = draws w /\
  match fst r with
  | Ok _ => graph (snd r) = graph w ++ [ReturnOne] /\
            log (snd r) = log w ++ [LogNeo4jConnected] /\
            fault w OpSession = None /\ fault w (OpRun ReturnOne) = None
  | Raise e => graph (snd r) = graph w /\
               log (snd r) = log w ++ [LogNeo4jConnectionFailed e] /\
               (fault w OpSession = Some e \/
                fault w (OpRun ReturnOne) = Some e)
  end.
Proof.
  cbv zeta. unfold Neo4jRepository, test_connection, try_except, bind, session,
    run, perform, print, modify, raise.
  destruct (fault w OpSession) eqn:H1; cbn; [auto|].
  destruct (fault w (OpRun ReturnOne)) eqn:H2; cbn; auto.
Qed.

Lemma merge_document_outcome (doc name path lang : text) (w : World Embedding) :
  let r := merge_document doc name path lang w in
  draws (snd r) = draws w /\
  match fst r with
  | Ok _ => graph (snd r) = graph w ++ [MergeDocument doc name path lang] /\
            log (snd r) = log w /\
            fault w OpSession = None /\
            fault w (OpRun (MergeDocument doc name path lang)) = None
  | Raise e => graph (snd r) = graph w /\
               log (snd r) = log w ++ [LogNeo4jDocumentFailed e] /\
               (fault w OpSession = Some e \/
                fault w (OpRun (MergeDocument doc name path lang)) = Some e)
  end.
Proof.
  cbv zeta. unfold neo4j_insert_document, try_except, bind, session,
    run, perform, print, modify, raise.
  destruct (fault w OpSession) eqn:H1; cbn; [auto|].
  destruct (fault w (OpRun _)) eqn:H2; cbn; auto.
Qed.

(** X13: the connection test of [Neo4jRepository(driver)] and
    [Neo4jRepository.insert_document] each send exactly one statement
    when they return ("RETURN 1", the MERGE of the document node).  They
    raise exactly when opening the session or running that statement
    raises: then nothing was sent, one line carrying the exception is
    printed, and the same exception is raised again. *)
Theorem neo4j_repository_reraises
    (driver : Neo4jDriver) (doc name path lang : text) (w : World Embedding) :
  (let r := connect driver w in
   match fst r with
   | Ok _ => graph (snd r) = graph w ++ [ReturnOne] /\
             log (snd r) = log w ++ [LogNeo4jConnected] /\
             fault w OpSession = None /\ fault w (OpRun ReturnOne) = None
   | Raise e => graph (snd r) = graph w /\
                log (snd r) = log w ++ [LogNeo4jConnectionFailed e] /\
                (fault w OpSession = Some e \/
                 fault w (OpRun ReturnOne) = Some e)
   end) /\
  (let r := merge_document doc name path lang w in
   match fst r with
   | Ok _ => graph (snd r) = graph w ++ [MergeDocument doc name path lang] /\
             log (snd r) = log w /\
             fault w OpSession = None /\
             fault w (OpRun (MergeDocument doc name path lang)) = None
   | Raise e => graph (snd r) = graph w /\
                log (snd r) = log w ++ [LogNeo4jDocumentFailed e] /\
                (fault w OpSession = Some e \/
                 fault w (OpRun (MergeDocument doc name path lang)) = Some e)
   end).
Proof.
  split.
  - apply (connect_outcome driver w).
  - apply (merge_document_outcome doc name path lang w).
Qed.

End Effects.

(** *** PDFProcessor *)

#[export] Instance keeps_preorder (Embedding X : Type)
    (part : World Embedding -> X) (Inv : X -> Prop) :
  PreOrder (keeps Embedding part Inv).
Proof.
  split.
  - intros w H. exact H.
  - intros w1 w2 w3 H1 H2 H. apply H2, H1, H.
Qed.

Lemma same_keeps (Embedding X A : Type) (part : World Embedding -> X)
    (Inv : X -> Prop) (m : M Embedding A) :
  steps Embedding (same Embedding part) m ->
  steps Embedding (keeps Embedding part Inv) m.
Proof. intros H w Hinv. unfold same in H. rewrite H. exact Hinv. Qed.

Section Orchestration.

Variable Embedding : Type.
Variable U : Unicode.
Variable phone_matches : text -> text -> list text.
Variable ipv6_hextets : text -> bool.
Variable config : Config.
Variable fault : World Embedding -> Op Embedding -> option exn.
Variable uuid4_draw : nat -> text.
Variable fitz_open : text -> result (list (result text)).
Variable detect : text -> result text.
Variable spacy_split : text -> nat -> nat -> text -> result (list text).
Variable recursive_split : nat -> nat -> text -> result (list text).
Variable encode : text -> result Embedding.
Variable path_exists : World Embedding -> text -> bool.

Abbreviation extract := (extract_indicators_by_category U phone_matches ipv6_hextets).
Abbreviation insert_document' := (insert_document Embedding fault uuid4_draw).
Abbreviation chunk_text' :=
  (chunk_text Embedding config spacy_split recursive_split).
Abbreviation persist_chunk' :=
  (persist_chunk Embedding U phone_matches ipv6_hextets fault uuid4_draw encode).
Abbreviation relational_phase' :=
  (relational_phase Embedding U phone_matches ipv6_hextets config fault
                    uuid4_draw fitz_open detect spacy_split recursive_split encode).
Abbreviation graph_body' :=
  (graph_body Embedding U phone_matches ipv6_hextets fault uuid4_draw).
Abbreviation graph_phase' :=
  (graph_phase Embedding U phone_matches ipv6_hextets fault uuid4_draw).
Abbreviation artifact_phase' :=
  (artifact_phase Embedding U phone_matches ipv6_hextets config fault).
Abbreviation process_pdf' :=
  (process_pdf Embedding U phone_matches ipv6_hextets config fault uuid4_draw
               fitz_open detect spacy_split recursive_split encode).
Abbreviation process_each' :=
  (process_each Embedding U phone_matches ipv6_hextets config fault uuid4_draw
                fitz_open detect spacy_split recursive_split encode path_exists).
Abbreviation process_multiple_pdfs' :=
  (process_multiple_pdfs Embedding U phone_matches ipv6_hextets config fault
                         uuid4_draw fitz_open detect spacy_split recursive_split
                         encode path_exists).
Abbreviation say := (fun ev w => set_log Embedding (log w ++ [ev]) w).
Abbreviation artifacts := (Pipeline.artifacts U phone_matches ipv6_hextets config).

(** **** What [insert_document] does to the table, whatever the server
    answers *)

Lemma insert_document_outcome (name path lang : text) (given : option text)
    (w : World Embedding) :
  let r := insert_document' name path lang given w in
  chunks (snd r) = chunks w /\
  match fst r with
  | Raise _ => documents (snd r) = documents w
  | Ok id =>
    match find_document name (documents w) with
    | Some row => id = doc_uuid row /\ documents (snd r) = documents w
    | None =>
      id = drawn Embedding uuid4_draw given w /\
      documents (snd r) = documents w ++
        [{| doc_uuid := id; doc_name := name; doc_path := path;
            doc_language := lang |}]
    end
  end.
Proof.
  cbv zeta. unfold insert_document, find_document.
  assert (Hgen : forall new_uuid (w1 : World Embedding),
             documents w1 = documents w -> chunks w1 = chunks w ->
             let r := bind Embedding (execute Embedding fault (SelectDocumentUuid name))
                        (fun _ => bind Embedding (fetchone Embedding)
                           (fun res => match res with
                            | Some found => ret Embedding found
                            | None =>
                              bind Embedding
                                (execute Embedding fault
                                   (InsertDocument
                                      {| doc_uuid := new_uuid; doc_name := name;
                                         doc_path := path; doc_language := lang |}))
                                (fun _ => ret Embedding new_uuid)
                            end)) w1 in
             chunks (snd r) = chunks w /\
             match fst r with
             | Raise _ => documents (snd r) = documents w
             | Ok id =>
               match head (List.filter (has_name name) (documents w)) with
               | Some row => id = doc_uuid row /\ documents (snd r) = documents w
               | None =>
                 id = new_uuid /\
                 documents (snd r) = documents w ++
                   [{| doc_uuid := id; doc_name := name; doc_path := path;
                       doc_language := lang |}]
               end
             end).
  { intros new_uuid w1 Hd Hc. cbv zeta.
    unfold bind, execute, perform, fetchone, ret.
    destruct (fault w1 _); cbn; [auto|].
    rewrite Hd. destruct (List.filter (has_name name) (documents w)) as [|row rows];
      cbn; [|auto].
    destruct (fault _ _); cbn; [auto|]. rewrite Hd. auto. }
  destruct given as [u|]; unfold bind at 1; unfold uuid4, ret.
  - apply (Hgen u w); reflexivity.
  - apply (Hgen (uuid4_draw (draws w))); reflexivity.
Qed.

Lemma find_document_none (name : text) (rows : list DocRow) :
  find_document name rows = None -> ~ In name (map doc_name rows).
Proof.
  unfold find_document. intros Hnone Hin.
  apply in_map_iff in Hin as (r & Hr & Hin).
  assert (Hf : In r (List.filter (has_name name) rows)).
  { apply List.filter_In. split; [assumption|].
    unfold has_name. rewrite Hr. apply text_eqb_refl. }
  destruct (List.filter (has_name name) rows); [contradiction | discriminate].
Qed.

Lemma insert_document_keeps_names (name path lang : text) (given : option text) :
  steps Embedding (keeps Embedding documents names_unique)
        (insert_document' name path lang given).
Proof.
  intros w Hinv.
  pose proof (insert_document_outcome name path lang given w) as [_ H].
  destruct (fst (insert_document' name path lang given w)) as [id|e].
  - destruct (find_document name (documents w)) as [row|] eqn:Hfind.
    + destruct H as [_ ->]. exact Hinv.
    + destruct H as [_ ->]. unfold names_unique in *.
      rewrite map_app. cbn [map doc_name].
      apply NoDup_app. split; [exact Hinv|]. split.
      * intros x Hx Hx'. apply list_elem_of_In in Hx.
        apply list_elem_of_In in Hx'. destruct Hx' as [<-|[]].
        revert Hx. apply find_document_none. assumption.
      * apply NoDup_singleton.
  - rewrite H. exact Hinv.
Qed.

(** **** Parts of the state that a phase leaves alone *)

Lemma relational_rest_same {X : Type} (part : World Embedding -> X)
    (name lang doc : text) (raw : list Page) (t : text) :
  (forall w x, part (set_log Embedding x w) = part w) ->
  (forall w x, part (set_draws Embedding x w) = part w) ->
  (forall w x, part (set_chunks Embedding x w) = part w) ->
  (forall w x, part (set_pending Embedding x w) = part w) ->
  steps Embedding (same Embedding part)
    (bind Embedding (chunk_text' t lang true) (fun pieces =>
     bind Embedding (print Embedding (LogCreatedChunks (length pieces) name))
       (fun _ =>
     bind Embedding (for_each Embedding (enumerate 1 pieces)
                       (persist_chunk' doc lang)) (fun _ =>
     ret Embedding {| raw_pages := raw; full_text := t; lang := lang;
                      document := doc; pieces := pieces |})))).
Proof.
  intros Hlog Hdraws Hchunks Hpending.
  unfold chunk_text, persist_chunk, insert_chunk, print, execute.
  repeat first
    [ steps_structure
    | steps_case
    | apply steps_modify; intros ?; unfold same; rewrite Hlog; reflexivity
    | apply steps_perform; [apply _ | intros ?; unfold same, run_sql;
                                      rewrite Hpending, Hchunks; reflexivity]
    | unfold steps, uuid4, same; intros ?; cbn [snd]; rewrite Hdraws; reflexivity ].
Qed.

Lemma graph_phase_same {X : Type} (part : World Embedding -> X)
    (d : option Neo4jDriver) (pdf_path name : text) (l : Locals) :
  (forall w x, part (set_log Embedding x w) = part w) ->
  (forall w x, part (set_draws Embedding x w) = part w) ->
  (forall w x, part (set_graph Embedding x w) = part w) ->
  steps Embedding (same Embedding part) (graph_phase' d pdf_path name l).
Proof.
  intros Hlog Hdraws Hgraph.
  unfold graph_phase, graph_body, Neo4jRepository, test_connection,
    neo4j_insert_document, insert_indicators, mention, print, session, run.
  repeat first
    [ steps_structure
    | steps_case
    | apply steps_modify; intros ?; unfold same; rewrite Hlog; reflexivity
    | apply steps_perform; [apply _ | intros ?; unfold same;
                                      rewrite ?Hgraph; reflexivity]
    | unfold steps, uuid4, same; intros ?; cbn [snd]; rewrite Hdraws; reflexivity ].
Qed.

Lemma artifact_phase_same {X : Type} (part : World Embedding -> X)
    (name : text) (l : Locals) (ok : bool) :
  (forall w x, part (set_log Embedding x w) = part w) ->
  (forall w x, part (set_files Embedding x w) = part w) ->
  steps Embedding (same Embedding part) (artifact_phase' name l ok).
Proof.
  intros Hlog Hfiles.
  unfold artifact_phase, save_clean_and_json, file_op, print.
  repeat first
    [ steps_structure
    | apply steps_modify; intros ?; unfold same; rewrite Hlog; reflexivity
    | apply steps_perform; [apply _ | intros ?; unfold same;
                                      rewrite Hfiles; reflexivity] ].
Qed.

(** **** The names in the documents table *)

Lemma process_pdf_keeps_names (pdf_path : text) (d : option Neo4jDriver) :
  steps Embedding (keeps Embedding documents names_unique)
        (process_pdf' pdf_path d).
Proof.
  unfold process_pdf.
  apply steps_bind; [apply _ | apply same_keeps; steps_auto | intros _].
  apply steps_try; [apply _ | | intros e; apply same_keeps; steps_auto].
  apply steps_bind; [apply _ | | intros l].
  - unfold relational_phase.
    apply steps_bind_lift; [apply _|]. intros raw _.
    apply steps_bind; [apply _ | apply insert_document_keeps_names | intros doc].
    apply same_keeps. apply relational_rest_same; reflexivity.
  - apply steps_bind; [apply _ | | intros ok].
    + apply same_keeps. apply graph_phase_same; reflexivity.
    + apply same_keeps. apply artifact_phase_same; reflexivity.
Qed.

Lemma process_each_keeps_names (d : option Neo4jDriver) (pdfs : list text) :
  forall n,
    steps Embedding (keeps Embedding documents names_unique)
          (process_each' pdfs d n).
Proof.
  induction pdfs as [|p pdfs IH]; intros n; cbn [process_each].
  - apply steps_ret. apply _.
  - apply steps_bind; [apply _ | apply steps_get; apply _ | intros w0].
    apply steps_bind; [apply _ | | intros k; apply IH].
    destruct (path_exists w0 p).
    + apply steps_try; [apply _ | |].
      * apply steps_bind; [apply _ | apply process_pdf_keeps_names | intros _].
        apply steps_ret. apply _.
      * intros e. apply same_keeps. steps_auto.
    + apply same_keeps. steps_auto.
Qed.

(** X14: the batch never stores two documents under one name: if the
    names in the documents table are pairwise different before
    [process_multiple_pdfs], they are so after it, whichever documents
    are processed, skipped or fail, and whatever the servers and the disk
    do. *)
Theorem batch_keeps_names_unique (d : option Neo4jDriver) (w : World Embedding) :
  names_unique (documents w) ->
  names_unique (documents (snd (process_multiple_pdfs' d w))).
Proof.
  revert w. change (steps Embedding (keeps Embedding documents names_unique)
                          (process_multiple_pdfs' d)).
  unfold process_multiple_pdfs.
  destruct (PDFS config) as [[|p pdfs]|];
    try solve [apply same_keeps; steps_auto].
  apply steps_bind; [apply _ | apply process_each_keeps_names | intros k].
  apply same_keeps. steps_auto.
Qed.

(** **** The phases of [process_pdf], one after the other *)

Lemma process_pdf_phases (pdf_path : text) (d : option Neo4jDriver)
    (w : World Embedding) :
  let name := path_stem pdf_path in
  match relational_phase' pdf_path name (say (LogProcessing name) w) with
  | (Raise e, w1) =>
    process_pdf' pdf_path d w = (Raise e, say (LogFailedToProcess name e) w1)
  | (Ok l, w3) =>
    exists ok w4,
      graph_phase' d pdf_path name l w3 = (Ok ok, w4) /\
      match artifact_phase' name l ok w4 with
      | (Ok _, w5) => process_pdf' pdf_path d w = (Ok tt, w5)
      | (Raise e, w5) =>
        process_pdf' pdf_path d w = (Raise e, say (LogFailedToProcess name e) w5)
      end
  end.
Proof.
  cbv zeta. unfold process_pdf, try_except, bind, print, modify, raise.
  cbv beta iota.
  destruct (relational_phase' pdf_path _ _) as [[l|e] w3]; [|reflexivity].
  destruct (graph_phase_returns Embedding U phone_matches ipv6_hextets fault
              uuid4_draw d pdf_path (path_stem pdf_path) l w3)
    as (ok & w4 & Hgraph).
  exists ok, w4. split; [exact Hgraph|]. rewrite Hgraph.
  destruct (artifact_phase' _ l ok w4) as [[[]|e] w5]; reflexivity.
Qed.

Lemma relational_phase_inv (pdf_path name : text) (w0 w3 : World Embedding)
    (l : Locals) :
  relational_phase' pdf_path name w0 = (Ok l, w3) ->
  extract_text_from_pdf config fitz_open pdf_path = Ok (raw_pages l) /\
  full_text l = join 32 (map (fun p => clean_text U (page_text p)) (raw_pages l)) /\
  lang l = detect_language detect (full_text l) /\
  exists wa wb,
    insert_document' name pdf_path (lang l) None w0 = (Ok (document l), wa) /\
    chunk_text' (full_text l) (lang l) true wa = (Ok (pieces l), wb) /\
    for_each Embedding (enumerate 1 (pieces l))
             (persist_chunk' (document l) (lang l))
             (say (LogCreatedChunks (length (pieces l)) name) wb) = (Ok tt, w3).
Proof.
  intros Hrel. unfold relational_phase in Hrel.
  apply bind_ok in Hrel as (raw & w1 & Hext & Hrel).
  unfold lift in Hext. injection Hext as Hext <-.
  apply bind_ok in Hrel as (doc & wa & Hdoc & Hrel).
  apply bind_ok in Hrel as (ps & wb & Hchunk & Hrel).
  apply bind_ok in Hrel as ([] & wc & Hprint & Hrel).
  unfold print, modify in Hprint. injection Hprint as <-.
  apply bind_ok in Hrel as ([] & wd & Hloop & Hret).
  injection Hret as <- ->. cbn [raw_pages full_text lang document pieces].
  split; [exact Hext|]. split; [reflexivity|]. split; [reflexivity|].
  exists wa, wb. auto.
Qed.

Lemma insert_document_same {X : Type} (part : World Embedding -> X)
    (name path lang : text) (given : option text) :
  (forall w x, part (set_draws Embedding x w) = part w) ->
  (forall w x, part (set_pending Embedding x w) = part w) ->
  (forall w x, part (set_documents Embedding x w) = part w) ->
  steps Embedding (same Embedding part) (insert_document' name path lang given).
Proof.
  intros Hdraws Hpending Hdocs. unfold insert_document, execute.
  repeat first
    [ steps_structure
    | steps_case
    | apply steps_perform; [apply _ | intros ?; unfold same, run_sql;
                                      rewrite Hpending, ?Hdocs; reflexivity]
    | unfold steps, uuid4, same; intros ?; cbn [snd]; rewrite Hdraws; reflexivity
    | let w := fresh "w" in
      unfold steps, fetchone, same; intros w; destruct (pending w); cbn [snd];
      rewrite ?Hpending; reflexivity ].
Qed.

Lemma relational_phase_same {X : Type} (part : World Embedding -> X)
    (pdf_path name : text) :
  (forall w x, part (set_log Embedding x w) = part w) ->
  (forall w x, part (set_draws Embedding x w) = part w) ->
  (forall w x, part (set_chunks Embedding x w) = part w) ->
  (forall w x, part (set_pending Embedding x w) = part w) ->
  (forall w x, part (set_documents Embedding x w) = part w) ->
  steps Embedding (same Embedding part) (relational_phase' pdf_path name).
Proof.
  intros Hlog Hdraws Hchunks Hpending Hdocs. unfold relational_phase.
  apply steps_bind_lift; [apply _|]. intros raw _.
  apply steps_bind; [apply _ | apply insert_document_same; assumption | intros doc].
  apply relational_rest_same; assumption.
Qed.

Lemma process_pdf_returns_inv (pdf_path : text) (d : option Neo4jDriver)
    (w w' : World Embedding) :
  let name := path_stem pdf_path in
  process_pdf' pdf_path d w = (Ok tt, w') ->
  exists l w3 ok w4,
    relational_phase' pdf_path name (say (LogProcessing name) w) = (Ok l, w3) /\
    graph_phase' d pdf_path name l w3 = (Ok ok, w4) /\
    artifact_phase' name l ok w4 = (Ok tt, w').
Proof.
  cbv zeta. intros Hrun.
  pose proof (process_pdf_phases pdf_path d w) as Hphases. cbv zeta in Hphases.
  destruct (relational_phase' pdf_path _ _) as [[l|e] w3]; [|congruence].
  destruct Hphases as (ok & w4 & Hgraph & Hart).
  exists l, w3, ok, w4. split; [reflexivity|]. split; [exact Hgraph|].
  destruct (artifact_phase' _ l ok w4) as [[[]|e] w5]; congruence.
Qed.

Lemma persist_rows_linked (doc language : text) (pieces : list text) :
  forall n w w',
    for_each Embedding (enumerate n pieces) (persist_chunk' doc language) w
      = (Ok tt, w') ->
    exists rows,
      chunks w' = chunks w ++ rows /\
      documents w' = documents w /\
      Forall (fun r => chunk_document_uuid r = doc /\
                       chunk_language r = language /\
                       encode (chunk_text_of r) = Ok (chunk_embedding r) /\
                       chunk_indicators r = flat_map snd (extract (chunk_text_of r)))
             rows /\
      map (fun r => chunk_text_of r) rows = pieces.
Proof.
  induction pieces as [|piece pieces IH]; intros n w w' Hrun; simpl in Hrun.
  - injection Hrun as <-. exists []. rewrite app_nil_r.
    repeat split; constructor.
  - apply bind_ok in Hrun as ([] & w1 & Hone & Hrest).
    unfold persist_chunk in Hone. simpl in Hone.
    apply bind_ok in Hone as (u & w2 & Hins & Hret).
    injection Hret as <-.
    unfold insert_chunk in Hins.
    apply bind_ok in Hins as (u' & wa & Hdraw & Hins).
    apply bind_ok in Hins as (emb & wb & Hemb & Hins).
    apply bind_ok in Hins as ([] & wc & Hexec & Hret).
    injection Hret as -> <-.
    unfold uuid4 in Hdraw. injection Hdraw as <- <-.
    unfold lift in Hemb. injection Hemb as Hemb <-.
    unfold execute, perform in Hexec.
    destruct (fault _ _); [discriminate|]. injection Hexec as <-.
    apply IH in Hrest as (rows & Hrows & Hdocs & Hall & Htexts).
    eexists (_ :: rows). split; [|split; [|split]].
    + rewrite Hrows. simpl. rewrite <- app_assoc. reflexivity.
    + rewrite Hdocs. reflexivity.
    + constructor; [|assumption]. simpl. auto.
    + simpl. rewrite Htexts. reflexivity.
Qed.

(** **** A run that returns: its local variables, and what it stored *)

Lemma process_pdf_returns_rows (pdf_path : text) (d : option Neo4jDriver)
    (w w' : World Embedding) :
  let name := path_stem pdf_path in
  process_pdf' pdf_path d w = (Ok tt, w') ->
  exists l w3 ok w4 rows,
    relational_phase' pdf_path name (say (LogProcessing name) w) = (Ok l, w3) /\
    graph_phase' d pdf_path name l w3 = (Ok ok, w4) /\
    artifact_phase' name l ok w4 = (Ok tt, w') /\
    chunks w' = chunks w ++ rows /\
    map (fun r => chunk_text_of r) rows = pieces l /\
    Forall (fun r => chunk_document_uuid r = document l /\
                     chunk_language r = lang l /\
                     encode (chunk_text_of r) = Ok (chunk_embedding r) /\
                     chunk_indicators r = flat_map snd (extract (chunk_text_of r)))
           rows /\
    match find_document name (documents w) with
    | Some row => document l = doc_uuid row /\ documents w' = documents w
    | None =>
      document l = uuid4_draw (draws w) /\
      documents w' = documents w ++
        [{| doc_uuid := document l; doc_name := name; doc_path := pdf_path;
            doc_language := lang l |}]
    end /\
    exists row, find_document name (documents w') = Some row /\
                doc_uuid row = document l.
Proof.
  cbv zeta. intros Hrun. set (name := path_stem pdf_path) in *.
  apply process_pdf_returns_inv in Hrun
    as (l & w3 & ok & w4 & Hrel & Hgraph & Hart).
  fold name in Hrel, Hgraph, Hart.
  exists l, w3, ok, w4.
  pose proof Hrel as Hinv.
  apply relational_phase_inv in Hinv
    as (_ & _ & _ & wa & wb & Hdoc & Hchunk & Hloop).
  pose proof (insert_document_outcome name pdf_path (lang l) None
                (say (LogProcessing name) w)) as Hout.
  cbv beta zeta in Hout, Hdoc. rewrite Hdoc in Hout.
  cbn [fst snd documents chunks draws set_log drawn] in Hout.
  destruct Hout as [Hca Hda].
  pose proof (chunk_text_same_chunks Embedding config spacy_split recursive_split
                (full_text l) (lang l) true wa) as Hcb.
  assert (Hdb : documents wb = documents wa).
  { unfold chunk_text, try_except, bind, lift, print, modify in Hchunk.
    destruct (spacy_split _ _ _ _) as [cs|e1];
      [destruct (resplit _ _ _ cs) as [fs|e2]|];
      try (injection Hchunk as _ <-; reflexivity);
      destruct (recursive_split _ _ _); injection Hchunk as _ <-; reflexivity. }
  apply persist_rows_linked in Hloop as (rows & Hrows & Hd3 & Hall & Htexts).
  pose proof (graph_phase_same documents d pdf_path name l
                (fun _ _ => eq_refl) (fun _ _ => eq_refl) (fun _ _ => eq_refl)
                w3) as Hd4.
  pose proof (graph_phase_same chunks d pdf_path name l
                (fun _ _ => eq_refl) (fun _ _ => eq_refl) (fun _ _ => eq_refl)
                w3) as Hc4.
  pose proof (artifact_phase_same documents name l ok
                (fun _ _ => eq_refl) (fun _ _ => eq_refl) w4) as Hd5.
  pose proof (artifact_phase_same chunks name l ok
                (fun _ _ => eq_refl) (fun _ _ => eq_refl) w4) as Hc5.
  unfold same in *. rewrite Hchunk in Hcb. rewrite Hgraph in Hd4, Hc4.
  rewrite Hart in Hd5, Hc5. cbn [snd chunks documents set_log] in *.
  exists rows.
  split; [exact Hrel|]. split; [exact Hgraph|]. split; [exact Hart|].
  split; [rewrite Hc5, Hc4, Hrows, Hcb, Hca; reflexivity|].
  split; [exact Htexts|]. split; [exact Hall|].
  rewrite Hd5, Hd4, Hd3, Hdb.
  destruct (find_document name (documents w)) as [row|] eqn:Hfind.
  - split; [exact Hda|]. destruct Hda as [Hid ->].
    exists row. auto.
  - split; [exact Hda|]. destruct Hda as [Hid ->].
    eexists. split; [apply find_document_new; [exact Hfind | reflexivity]|].
    reflexivity.
Qed.

Lemma process_pdf_returns_locals (pdf_path : text) (d : option Neo4jDriver)
    (w w' : World Embedding) :
  let name := path_stem pdf_path in
  process_pdf' pdf_path d w = (Ok tt, w') ->
  exists l w3 ok w4,
    relational_phase' pdf_path name (say (LogProcessing name) w) = (Ok l, w3) /\
    graph_phase' d pdf_path name l w3 = (Ok ok, w4) /\
    artifact_phase' name l ok w4 = (Ok tt, w') /\
    locals_of Embedding U config fitz_open detect pdf_path w'
              (rows_inserted Embedding (process_pdf' pdf_path d) w) l.
Proof.
  cbv zeta. intros Hrun.
  destruct (process_pdf_returns_rows pdf_path d w w' Hrun)
    as (l & w3 & ok & w4 & rows & Hrel & Hgraph & Hart & Hrows & Htexts & _ & _
        & Hstored).
  exists l, w3, ok, w4.
  split; [exact Hrel|]. split; [exact Hgraph|]. split; [exact Hart|].
  apply relational_phase_inv in Hrel as (Hext & Hfull & Hlang & _).
  unfold locals_of, rows_inserted. rewrite Hrun. cbn [snd].
  rewrite Hrows, drop_app_length.
  split; [exact Hext|]. split; [exact Hfull|]. split; [exact Hlang|].
  split; [exact Hstored | symmetry; exact Htexts].
Qed.

Abbreviation done := (after_disk Embedding).

(** **** The artifact phase, operation by operation *)

Lemma artifact_phase_run (name : text) (l : Locals) (ok : bool)
    (w : World Embedding) (n : nat) :
  (forall k op, (k < n)%nat -> artifacts name l ok !! k = Some op ->
                fault (done (take k (artifacts name l ok)) w) (OpFile op) = None) ->
  match artifacts name l ok !! n with
  | Some op =>
    forall e, fault (done (take n (artifacts name l ok)) w) (OpFile op) = Some e ->
      artifact_phase' name l ok w = (Raise e, done (take n (artifacts name l ok)) w)
  | None =>
    artifact_phase' name l ok w
      = (Ok tt, set_log Embedding (log w ++ Pipeline.closing_lines config name l ok)
                  (done (artifacts name l ok) w))
  end.
Proof.
  intros Hbefore.
  change (artifacts name l ok)
    with (save_operations config name (full_text l) (extract (full_text l))
                          (run_metadata name l ok)) in *.
  pose proof (file_ops_run Embedding fault _ w n Hbefore) as Hrun.
  destruct (save_operations config name _ _ _ !! n) as [op|].
  - intros e He. unfold artifact_phase. unfold bind at 1.
    rewrite save_as_loop. unfold bind at 1. rewrite (Hrun e He). reflexivity.
  - unfold artifact_phase. unfold bind at 1.
    rewrite save_as_loop. unfold bind at 1. rewrite Hrun.
    unfold bind, print, modify, Pipeline.closing_lines.
    cbn. rewrite <- !app_assoc. reflexivity.
Qed.

Lemma artifact_phase_returns (name : text) (l : Locals) (ok : bool)
    (w w' : World Embedding) :
  artifact_phase' name l ok w = (Ok tt, w') ->
  w' = set_log Embedding (log w ++ Pipeline.closing_lines config name l ok)
               (done (artifacts name l ok) w).
Proof.
  intros Hrun.
  pose proof (file_ops_outcome Embedding fault (artifacts name l ok) w) as Hout.
  cbv zeta in Hout. destruct Hout as (n & Hsnd & Hfst).
  unfold artifact_phase in Hrun. unfold bind at 1 in Hrun.
  rewrite save_as_loop in Hrun. unfold bind at 1 in Hrun.
  change (save_operations config name (full_text l) (extract (full_text l))
                          (run_metadata name l ok))
    with (artifacts name l ok) in Hrun.
  destruct (for_each Embedding (artifacts name l ok) (file_op Embedding fault) w)
    as [[[]|e] w1]; cbn [fst snd] in *; [|discriminate Hrun].
  subst n. rewrite firstn_all in Hsnd. subst w1.
  unfold bind, print, modify in Hrun. injection Hrun as <-.
  unfold Pipeline.closing_lines. cbn. rewrite <- !app_assoc. reflexivity.
Qed.

(** X15: what a run of [process_pdf] leaves on the disk, by the way it
    ends.  When it returns, this run has completed the six disk
    operations of the document, the writing of the indicators last, for
    the pages extracted from the PDF, their cleaned texts joined by
    blanks, the language detected on that text, the identity stored under
    the name of the document and the chunks this run inserted; its last
    line is the "Processed" line.  When the relational phase (reading,
    the two tables, chunking, embedding) raises, [process_pdf] raises the
    same exception and this run has done nothing on the disk.  When a
    disk operation is the first one to raise, [process_pdf] raises the
    same exception with exactly the operations before it completed and
    nothing else changed by the artifact phase: the indicators file may
    have been created or emptied by its opening, but its writing has not
    been completed.  In both failures the "Failed to process" line with
    the exception is the last line (printing is taken not to fail). *)
Theorem process_pdf_disk_by_outcome
    (pdf_path : text) (d : option Neo4jDriver) (w : World Embedding) :
  let name := path_stem pdf_path in
  let run := process_pdf' pdf_path d in
  let started := say (LogProcessing name) w in
  (forall w', run w = (Ok tt, w') ->
     exists l ok,
       locals_of Embedding U config fitz_open detect pdf_path w'
                 (rows_inserted Embedding run w) l /\
       files_written Embedding run w = artifacts name l ok /\
       last (log w') =
         Some (LogProcessed ok name (length (pieces l)) (length (raw_pages l)))) /\
  (forall e w1,
     relational_phase' pdf_path name started = (Raise e, w1) ->
     run w = (Raise e, say (LogFailedToProcess name e) w1) /\
     files_written Embedding run w = []) /\
  (forall l w3 ok w4 n op e,
     relational_phase' pdf_path name started = (Ok l, w3) ->
     graph_phase' d pdf_path name l w3 = (Ok ok, w4) ->
     artifacts name l ok !! n = Some op ->
     (forall k op', (k < n)%nat -> artifacts name l ok !! k = Some op' ->
        fault (done (take k (artifacts name l ok)) w4) (OpFile op') = None) ->
     fault (done (take n (artifacts name l ok)) w4) (OpFile op) = Some e ->
     run w = (Raise e, say (LogFailedToProcess name e)
                           (done (take n (artifacts name l ok)) w4)) /\
     files_written Embedding run w = take n (artifacts name l ok)).
Proof.
  cbv zeta. set (name := path_stem pdf_path).
  pose proof (process_pdf_phases pdf_path d w) as Hphases.
  cbv zeta in Hphases. fold name in Hphases.
  pose proof (relational_phase_same files pdf_path name
                (fun _ _ => eq_refl) (fun _ _ => eq_refl) (fun _ _ => eq_refl)
                (fun _ _ => eq_refl) (fun _ _ => eq_refl)
                (say (LogProcessing name) w)) as Hrel.
  unfold same in Hrel. cbn [files set_log] in Hrel. cbv beta in *.
  split; [|split].
  - intros w' Hrun.
    destruct (process_pdf_returns_locals pdf_path d w w' Hrun)
      as (l & w3 & ok & w4 & Hphase & Hgraph & Hart & Hlocals).
    fold name in Hphase, Hgraph, Hart.
    exists l, ok. split; [exact Hlocals|].
    rewrite Hphase in Hrel. cbn [snd] in Hrel.
    pose proof (graph_phase_same files d pdf_path name l
                  (fun _ _ => eq_refl) (fun _ _ => eq_refl) (fun _ _ => eq_refl)
                  w3) as Hg.
    unfold same in Hg. rewrite Hgraph in Hg. cbn [snd] in Hg.
    apply artifact_phase_returns in Hart.
    unfold files_written. rewrite Hrun. cbn [snd]. subst w'.
    unfold after_disk. cbn [files set_log set_files log].
    rewrite Hg, Hrel, drop_app_length. split; [reflexivity|].
    unfold Pipeline.closing_lines. rewrite last_app. reflexivity.
  - intros e w1 Hphase. rewrite Hphase in Hphases, Hrel. cbn [snd] in Hrel.
    split; [exact Hphases|].
    unfold files_written. rewrite Hphases. cbn [snd files set_log].
    rewrite Hrel. apply drop_all.
  - intros l w3 ok w4 n op e Hphase Hgraph Hop Hbefore He.
    rewrite Hphase in Hphases, Hrel. cbn [snd] in Hrel.
    destruct Hphases as (ok' & w4' & Hgraph' & Hart).
    rewrite Hgraph in Hgraph'. injection Hgraph' as <- <-.
    pose proof (graph_phase_same files d pdf_path name l
                  (fun _ _ => eq_refl) (fun _ _ => eq_refl) (fun _ _ => eq_refl)
                  w3) as Hg.
    unfold same in Hg. rewrite Hgraph in Hg. cbn [snd] in Hg.
    pose proof (artifact_phase_run name l ok w4 n Hbefore) as Hrun.
    rewrite Hop in Hrun. rewrite (Hrun e He) in Hart.
    split; [exact Hart|].
    unfold files_written. rewrite Hart. unfold after_disk.
    cbn [snd files set_log set_files]. rewrite Hg, Hrel. apply drop_app_length.
Qed.

(** X16: a document that cannot be read leaves no trace but two lines.
    When opening the PDF or reading one of its first [MAX_PAGES] pages
    raises, [process_pdf] raises the same exception, having touched
    neither table, sent nothing to the graph, written no file and drawn
    no identity; it has printed the "Processing" line and the "Failed to
    process" line. *)
Theorem unreadable_pdf_leaves_no_trace
    (pdf_path : text) (d : option Neo4jDriver) (w : World Embedding) (e : exn) :
  let name := path_stem pdf_path in
  let r := process_pdf' pdf_path d w in
  extract_text_from_pdf config fitz_open pdf_path = Raise e ->
  fst r = Raise e /\
  documents (snd r) = documents w /\ chunks (snd r) = chunks w /\
  graph (snd r) = graph w /\ files (snd r) = files w /\
  draws (snd r) = draws w /\
  log (snd r) = log w ++ [LogProcessing name; LogFailedToProcess name e].
Proof.
  cbv zeta. intros Hext.
  pose proof (process_pdf_phases pdf_path d w) as Hphases. cbv zeta in Hphases.
  unfold relational_phase in Hphases at 1. unfold bind at 1, lift in Hphases.
  rewrite Hext in Hphases. rewrite Hphases. cbn.
  rewrite <- app_assoc. repeat split.
Qed.

(** X17: without a graph driver [process_pdf] sends nothing to the
    graph, whether it returns or raises; and when it returns, the
    indicators file, written last, says [neo4j_success = true] although
    no graph was involved. *)
Theorem process_pdf_without_driver (pdf_path : text) (w : World Embedding) :
  let r := process_pdf' pdf_path None w in
  graph (snd r) = graph w /\
  match fst r with
  | Ok _ =>
    exists path found metadata,
      last (files (snd r)) = Some (WriteJson path found metadata) /\
      neo4j_success metadata = true
  | Raise _ => True
  end.
Proof.
  cbv zeta. split.
  - revert w.
    change (steps Embedding (same Embedding graph) (process_pdf' pdf_path None)).
    unfold process_pdf.
    apply steps_bind; [apply _ | steps_auto | intros _].
    apply steps_try; [apply _ | | intros e; steps_auto].
    apply steps_bind; [apply _ | | intros l].
    + apply relational_phase_same; reflexivity.
    + apply steps_bind; [apply _ | apply steps_ret; apply _ | intros ok].
      apply artifact_phase_same; reflexivity.
  - destruct (process_pdf' pdf_path None w) as [[[]|e] w'] eqn:Hrun; [|exact I].
    apply process_pdf_returns_inv in Hrun
      as (l & w3 & ok & w4 & _ & Hgraph & Hart).
    injection Hgraph as <- <-.
    apply artifact_phase_returns in Hart. subst w'.
    unfold after_disk, Pipeline.artifacts. cbn [snd files set_log set_files].
    eexists _, _, _. split; [rewrite last_app; reflexivity | reflexivity].
Qed.

Lemma graph_body_sent (driver : Neo4jDriver) (pdf_path name : text) (l : Locals)
    (w3 w4 : World Embedding) (ok : bool) :
  graph_body' driver pdf_path name l w3 = (Ok ok, w4) ->
  ok = true /\
  exists sent,
    graph w4 = graph w3 ++
      ReturnOne :: MergeDocument (document l) name pdf_path (lang l) :: sent /\
    map mention_of sent =
      map (fun t : nat * text * text =>
             Some (document l, decimal (fst (fst t)), snd (fst t), snd t))
          (triples (indicators_by_page U phone_matches ipv6_hextets l)).
Proof.
  unfold graph_body. intros Hbody.
  apply bind_ok in Hbody as ([] & wa & Hconnect & Hbody).
  apply bind_ok in Hbody as ([] & wb & Hmerge & Hbody).
  apply bind_ok in Hbody as ([] & wc & Hind & Hret).
  injection Hret as <- <-. split; [reflexivity|].
  pose proof (connect_outcome Embedding fault driver w3) as Hc.
  cbv zeta in Hc. rewrite Hconnect in Hc. destruct Hc as (_ & Hc & _).
  pose proof (merge_document_outcome Embedding fault (document l) name pdf_path
                (lang l) wa) as Hm.
  cbv zeta in Hm. rewrite Hmerge in Hm. destruct Hm as (_ & Hm & _).
  pose proof (insert_indicators_run Embedding fault uuid4_draw (document l)
                (indicators_by_page U phone_matches ipv6_hextets l) wb) as Hi.
  cbv zeta in Hi. rewrite Hind in Hi. cbn [fst snd] in *.
  destruct Hi as (n & sent & Hg & Hmention & _ & -> & _).
  rewrite firstn_all in Hmention.
  exists sent. split; [|exact Hmention].
  rewrite Hg, Hm, Hc, <- !app_assoc. reflexivity.
Qed.

(** X18: the flag in the indicators file is truthful when a driver is
    given.  When [process_pdf] returns, the disk operations of this run
    are those of the document for the pages extracted from the PDF, their
    cleaned texts joined by blanks, the language detected on that text,
    the identity stored under the name of the document and the chunks
    this run inserted, and for a flag [neo4j_success].  When the flag is
    [true], what this run sent to the graph is exactly: the connection
    test, the MERGE of the document node with that identity, the name,
    the path and that language, and one statement for every (page,
    category, value) triple found on the extracted pages, each with the
    number of its page, in order.  When the flag is [false], the line
    reporting the graph failure was printed right before the closing
    lines of the run. *)
Theorem graph_flag_is_truthful
    (pdf_path : text) (driver : Neo4jDriver) (w w' : World Embedding) :
  let name := path_stem pdf_path in
  let run := process_pdf' pdf_path (Some driver) in
  run w = (Ok tt, w') ->
  exists l ok,
    locals_of Embedding U config fitz_open detect pdf_path w'
              (rows_inserted Embedding run w) l /\
    files_written Embedding run w = artifacts name l ok /\
    if ok then
      exists sent,
        statements_sent Embedding run w =
          ReturnOne :: MergeDocument (document l) name pdf_path (lang l) :: sent /\
        map mention_of sent =
          map (fun t : nat * text * text =>
                 Some (document l, decimal (fst (fst t)), snd (fst t), snd t))
              (triples
                 (map (fun p => (page_number p, extract (clean_text U (page_text p))))
                      (raw_pages l)))
    else
      exists e before,
        log w' = before ++ LogNeo4jOperationsFailed name e
                          :: Pipeline.closing_lines config name l false.
Proof.
  cbv zeta. intros Hrun.
  destruct (process_pdf_returns_locals pdf_path (Some driver) w w' Hrun)
    as (l & w3 & ok & w4 & Hrel & Hgraph & Hart & Hlocals).
  unfold files_written, statements_sent. rewrite Hrun.
  cbn [snd]. set (name := path_stem pdf_path) in *.
  pose proof (relational_phase_same files pdf_path name
                (fun _ _ => eq_refl) (fun _ _ => eq_refl) (fun _ _ => eq_refl)
                (fun _ _ => eq_refl) (fun _ _ => eq_refl)
                (say (LogProcessing name) w)) as Hf3.
  pose proof (relational_phase_same graph pdf_path name
                (fun _ _ => eq_refl) (fun _ _ => eq_refl) (fun _ _ => eq_refl)
                (fun _ _ => eq_refl) (fun _ _ => eq_refl)
                (say (LogProcessing name) w)) as Hg3.
  pose proof (graph_phase_same files (Some driver) pdf_path name l
                (fun _ _ => eq_refl) (fun _ _ => eq_refl) (fun _ _ => eq_refl)
                w3) as Hf4.
  unfold same in *. cbv beta in *.
  rewrite Hrel in Hf3, Hg3. rewrite Hgraph in Hf4.
  apply artifact_phase_returns in Hart. subst w'.
  unfold after_disk. cbn [fst snd files graph log set_log set_files] in *.
  exists l, ok. split; [exact Hlocals|]. split.
  { rewrite Hf4, Hf3, drop_app_length. reflexivity. }
  unfold graph_phase, try_except in Hgraph.
  destruct (graph_body' driver pdf_path name l w3) as [[b|e] wx] eqn:Hbody.
  - injection Hgraph as <- <-.
    apply graph_body_sent in Hbody as (-> & sent & Hsent & Hmention).
    exists sent. split; [|exact Hmention].
    rewrite Hsent, Hg3, drop_app_length. reflexivity.
  - unfold bind, print, modify, ret in Hgraph. injection Hgraph as <- <-.
    exists e, (log wx). cbn [log set_log].
    rewrite <- app_assoc. reflexivity.
Qed.

(** X19: the chunks of a run hang on the document row of that name.
    When [process_pdf] returns, every chunk row it inserted carries one
    and the same document identity, the language detected in this run
    (on the cleaned texts, joined by blanks, of the pages extracted from
    the PDF), the embedding of its own text and the indicators found in
    its own text, category after category.  If a document of that name
    (the stem of the path) was already stored, that identity is the
    stored one and the documents table is left as it was, so that the
    chunks of the new run are added to those of the earlier one;
    otherwise one row is added for the document, with a fresh identity,
    the path and the detected language.  Either way, looking the name up
    after the run gives that identity. *)
Theorem process_pdf_links_chunks
    (pdf_path : text) (d : option Neo4jDriver) (w w' : World Embedding) :
  let name := path_stem pdf_path in
  process_pdf' pdf_path d w = (Ok tt, w') ->
  exists pages id rows,
    extract_text_from_pdf config fitz_open pdf_path = Ok pages /\
    let language :=
      detect_language detect
        (join 32 (map (fun p => clean_text U (page_text p)) pages)) in
    chunks w' = chunks w ++ rows /\
    Forall (fun r => chunk_document_uuid r = id /\ chunk_language r = language /\
                     encode (chunk_text_of r) = Ok (chunk_embedding r) /\
                     chunk_indicators r = flat_map snd (extract (chunk_text_of r)))
           rows /\
    match find_document name (documents w) with
    | Some row => id = doc_uuid row /\ documents w' = documents w
    | None =>
      id = uuid4_draw (draws w) /\
      documents w' = documents w ++
        [{| doc_uuid := id; doc_name := name; doc_path := pdf_path;
            doc_language := language |}]
    end /\
    exists row, find_document name (documents w') = Some row /\
                doc_uuid row = id.
Proof.
  cbv zeta. intros Hrun.
  destruct (process_pdf_returns_rows pdf_path d w w' Hrun)
    as (l & w3 & ok & w4 & rows & Hrel & _ & _ & Hrows & _ & Hall & Hdocs
        & Hstored).
  apply relational_phase_inv in Hrel as (Hext & Hfull & Hlang & _).
  exists (raw_pages l), (document l), rows.
  rewrite <- Hfull, <- Hlang.
  split; [exact Hext|]. split; [exact Hrows|]. split; [exact Hall|].
  split; [exact Hdocs | exact Hstored].
Qed.

Lemma graph_phase_document_node (d : option Neo4jDriver) (pdf_path name : text)
    (l : Locals) :
  steps Embedding
        (graph_grows Embedding
           (document_node (document l) name pdf_path (lang l)))
        (graph_phase' d pdf_path name l).
Proof.
  unfold graph_phase. destruct d as [driver|]; [|apply steps_ret; apply _].
  apply steps_try; [apply _ | | intros e; steps_auto].
  unfold graph_body. apply steps_bind; [apply _ | |intros _].
  { unfold Neo4jRepository, test_connection.
    apply steps_try; [apply _ | | intros e; steps_auto].
    apply steps_bind; [apply _ | steps_auto | intros _].
    apply steps_bind; [apply _ | | intros _; steps_auto].
    apply grows_run. exact I. }
  apply steps_bind; [apply _ | |intros _].
  { unfold neo4j_insert_document.
    apply steps_try; [apply _ | | intros e; steps_auto].
    apply steps_bind; [apply _ | steps_auto | intros _].
    apply grows_run. repeat split. }
  apply steps_bind; [apply _ | | intros _; apply steps_ret; apply _].
  unfold insert_indicators.
  apply steps_try; [apply _ | | intros e; steps_auto].
  apply steps_bind; [apply _ | steps_auto | intros _].
  apply steps_for_each; [apply _|]. intros [n found] _.
  apply steps_for_each; [apply _|]. intros [cat vals] _.
  apply steps_for_each; [apply _|]. intros val _.
  unfold mention.
  apply steps_bind; [apply _ | steps_auto | intros rel].
  apply steps_bind_lift; [apply _|]. intros ind _.
  apply grows_run. exact I.
Qed.

(** X20: a document processed again is told to the graph as this run
    found it.  When [process_pdf] returns for a document whose name is
    already stored, the documents table is left as it was (the stored
    row keeps its path and language), while every statement of this run
    that merges the document node carries the stored identity together
    with the path and the detected language of this run. *)
Theorem graph_node_takes_latest_run
    (pdf_path : text) (d : option Neo4jDriver) (w w' : World Embedding)
    (row : DocRow) :
  let name := path_stem pdf_path in
  process_pdf' pdf_path d w = (Ok tt, w') ->
  find_document name (documents w) = Some row ->
  documents w' = documents w /\
  exists pages,
    extract_text_from_pdf config fitz_open pdf_path = Ok pages /\
    Forall (document_node
              (doc_uuid row) name pdf_path
              (detect_language detect
                 (join 32 (map (fun p => clean_text U (page_text p)) pages))))
           (statements_sent Embedding (process_pdf' pdf_path d) w).
Proof.
  cbv zeta. intros Hrun Hfind. unfold statements_sent. rewrite Hrun. cbn [snd].
  set (name := path_stem pdf_path) in *.
  apply process_pdf_returns_inv in Hrun
    as (l & w3 & ok & w4 & Hrel & Hgraph & Hart).
  fold name in Hrel, Hgraph, Hart.
  pose proof (relational_phase_same graph pdf_path name
                (fun _ _ => eq_refl) (fun _ _ => eq_refl) (fun _ _ => eq_refl)
                (fun _ _ => eq_refl) (fun _ _ => eq_refl)
                (say (LogProcessing name) w)) as Hg3.
  pose proof (graph_phase_same documents d pdf_path name l
                (fun _ _ => eq_refl) (fun _ _ => eq_refl) (fun _ _ => eq_refl)
                w3) as Hd4.
  pose proof (graph_phase_document_node d pdf_path name l w3) as Hg4.
  pose proof (artifact_phase_same documents name l ok
                (fun _ _ => eq_refl) (fun _ _ => eq_refl) w4) as Hd5.
  pose proof (artifact_phase_same graph name l ok
                (fun _ _ => eq_refl) (fun _ _ => eq_refl) w4) as Hg5.
  unfold same in *. rewrite Hrel in Hg3. rewrite Hgraph in Hd4, Hg4.
  rewrite Hart in Hd5, Hg5. cbn [snd graph documents set_log] in *.
  pose proof Hrel as Hinv.
  apply relational_phase_inv in Hinv
    as (Hext & Hfull & Hlang & wa & wb & Hdoc & Hchunk & Hloop).
  pose proof (insert_document_outcome name pdf_path (lang l) None
                (say (LogProcessing name) w)) as Hout.
  cbv beta zeta in Hout, Hdoc. rewrite Hdoc in Hout.
  cbn [fst snd documents chunks draws set_log drawn] in Hout.
  rewrite Hfind in Hout. destruct Hout as [_ [Hid Hda]].
  assert (Hdb : documents wb = documents wa).
  { unfold chunk_text, try_except, bind, lift, print, modify in Hchunk.
    destruct (spacy_split _ _ _ _) as [cs|e1];
      [destruct (resplit _ _ _ cs) as [fs|e2]|];
      try (injection Hchunk as _ <-; reflexivity);
      destruct (recursive_split _ _ _); injection Hchunk as _ <-; reflexivity. }
  apply persist_rows_linked in Hloop as (rows & _ & Hd3 & _).
  cbn [documents set_log] in Hd3.
  split; [rewrite Hd5, Hd4, Hd3, Hdb; exact Hda|].
  exists (raw_pages l). split; [exact Hext|].
  destruct Hg4 as (sent & Hsent & Hall).
  rewrite Hg5, Hsent, Hg3, drop_app_length.
  rewrite <- Hfull, <- Hlang, <- Hid. exact Hall.
Qed.

End Orchestration.

(** *** config.py *)

Lemma split_on_parts (sep : char) (s : text) :
  length (split_on sep s) = S (count sep s) /\
  Forall (fun part => ~ In sep part) (split_on sep s).
Proof.
  induction s as [|c s [IHn IHf]]; cbn [split_on count].
  - split; [reflexivity | repeat constructor; auto].
  - destruct (N.eqb_spec c sep) as [->|Hne].
    + split; [simpl; rewrite IHn; reflexivity | constructor; auto].
    + pose proof (split_on_nonempty sep s) as Hn.
      destruct (split_on sep s) as [|p ps]; [congruence|].
      split; [exact IHn|]. apply Forall_cons in IHf as [Hp Hps].
      constructor; [|exact Hps]. intros [E|E]; [congruence | auto].
Qed.

(** X21: [config.REGIONS] is the empty list when the variable REGIONS is
    unset or empty (not a list holding one empty region); otherwise it
    is the value cut at its commas, nothing stripped: joined again with
    commas the regions give the value back, there is one region more
    than there are commas, and no region contains a comma. *)
Theorem regions_cut_at_commas (env : option text) :
  match env with
  | None | Some [] => REGIONS env = []
  | Some value =>
    join 44 (REGIONS env) = value /\
    length (REGIONS env) = S (count 44 value) /\
    Forall (fun region => ~ In 44 region) (REGIONS env)
  end.
Proof.
  destruct env as [[|c s]|]; [reflexivity | | reflexivity].
  unfold REGIONS. split; [apply join_split | apply split_on_parts].
Qed.

End PipelineMore.

(** ** The further properties at work *)

Module MoreScenarios.

Import Doubles MoreDoubles.

(** X1 at work: the URL of the sample text. *)
Lemma sample_url_occurs :
  occurs_in (str "https://bad-domain.test/payload.exe") sample.
Proof.
  refine (proj1 (ExtractorMore.indicators_occur_in_text
            ascii_only no_phones no_ipv6 sample (str "urls")
            [str "https://bad-domain.test/payload.exe"]
            (str "https://bad-domain.test/payload.exe") _ _) _).
  - vm_compute. reflexivity.
  - apply list_elem_of_In. left. reflexivity.
  - vm_compute. auto.
Defined.

(** X2 at work: a domain of the sample text. *)
Lemma sample_domain_shape :
  Forall (fun c => host_lower_char c = true) (str "bad-domain.test") /\
  In 46 (str "bad-domain.test") /\
  Forall (fun ext => endswith (str "bad-domain.test") (str "." ++ ext) = false)
         file_exts.
Proof.
  refine (ExtractorMore.domains_are_lower_case_hosts
            ascii_only no_phones no_ipv6 sample
            [str "bad-domain.test"; str "payload.exe"; str "ti-example.com"]
            (str "bad-domain.test") _ _).
  - vm_compute. reflexivity.
  - apply list_elem_of_In. left. reflexivity.
Defined.

(** X3 at work: the address of the sample text. *)
Lemma sample_email_shape :
  (exists l h, str "alerts@ti-example.com" = l ++ 64 :: h /\ l <> [] /\ In 46 h) /\
  count 64 (str "alerts@ti-example.com") = 1%nat /\
  Forall (fun c => c < 128 /\ is_upper_ascii c = false)
         (str "alerts@ti-example.com").
Proof.
  refine (ExtractorMore.emails_are_lower_case_addresses
            ascii_only no_phones no_ipv6 sample
            [str "alerts@ti-example.com"] (str "alerts@ti-example.com") _ _).
  - vm_compute. reflexivity.
  - apply list_elem_of_In. left. reflexivity.
Defined.

(** X4 at work: the URL of the sample text. *)
Lemma sample_url_shape :
  exists scheme c1 c2 rest,
    str "https://bad-domain.test/payload.exe" = scheme ++ c1 :: c2 :: rest /\
    (scheme = str "http://" \/ scheme = str "https://") /\
    is_space ascii_only c1 = false /\ one_of "/$.?#" c1 = false /\ c2 <> 10 /\
    Forall (fun c => is_space ascii_only c = false) rest.
Proof.
  refine (ExtractorMore.urls_start_with_scheme
            ascii_only no_phones no_ipv6 sample
            [str "https://bad-domain.test/payload.exe"]
            (str "https://bad-domain.test/payload.exe") _ _).
  - vm_compute. reflexivity.
  - apply list_elem_of_In. left. reflexivity.
Defined.

(** X5 at work: a Universal Analytics identifier. *)
Lemma tracked_identifier_shape :
  (exists account property,
      str "UA-12345-6" = str "UA-" ++ account ++ 45 :: property /\
      (4 <= length account)%nat /\ property <> [] /\
      Forall (fun c => is_digit ascii_only c = true) (account ++ property)) \/
  (exists publisher,
      str "UA-12345-6" = str "Pub-" ++ publisher /\ (5 <= length publisher)%nat /\
      Forall (fun c => is_digit ascii_only c = true) publisher).
Proof.
  refine (proj1 (ExtractorMore.tracking_ids_and_handles_shape
            ascii_only no_phones no_ipv6 tracked [str "UA-12345-6"]
            (str "UA-12345-6") _) _).
  - apply list_elem_of_In. left. reflexivity.
  - vm_compute. reflexivity.
Defined.

(** X6 at work: no "@", no e-mail address. *)
Lemma plain_text_no_emails :
  dict_get (str "emails")
           (extract_indicators_by_category ascii_only no_phones no_ipv6 plain)
    = Some [].
Proof.
  refine (ExtractorMore.no_marker_no_indicator
            ascii_only no_phones no_ipv6 plain (str "emails") 64 _ _).
  - vm_compute. auto.
  - vm_compute. intuition discriminate.
Defined.

(** X7 at work: with a limit of one page, the text of the second page,
    which cannot be read, is not asked for. *)
Lemma torn_second_page_not_read :
  extract_text_from_pdf first_page_only fitz_torn torn_pdf
    = Ok [{| page_number := 1; page_text := str "first page" |}].
Proof.
  refine (proj2 (proj1 (PipelineMore.extract_text_reads_first_pages
            first_page_only fitz_torn torn_pdf
            [Ok (str "first page"); Raise (Exception (str "cannot read page 2"))]
            _) _) _).
  - reflexivity.
  - split; reflexivity.
Defined.

(** X11 at work: the disk is full when the indicators are written.  The
    clean text has been written; the indicators file has been opened, and
    so created or emptied, and its writing has raised. *)
Lemma indicators_on_full_disk :
  let clean_file := path_join (CLEAN_DIR (config [])) (str "report_clean.txt") in
  let raw_file := path_join (RAW_DIR (config [])) (str "report_indicators.json") in
  save_clean_and_json unit (config []) disk_full (str "report") sample []
                      sample_metadata empty_world
    = (Raise (Exception (str "No space left on device")),
       after_disk unit
         [ Mkdir (RAW_DIR (config [])); Mkdir (CLEAN_DIR (config []));
           OpenWrite clean_file; WriteText clean_file sample;
           OpenWrite raw_file ]
         empty_world).
Proof.
  cbv zeta.
  refine (PipelineMore.save_reports_what_is_written
            unit (config []) disk_full (str "report") sample [] sample_metadata
            empty_world 5 _ (Exception (str "No space left on device")) _).
  - intros k op Hk Hop.
    destruct k as [|[|[|[|[|k]]]]]; try lia; injection Hop as <-; reflexivity.
  - reflexivity.
Defined.

(** X14 at work: the report listed twice in one batch. *)
Lemma report_listed_twice :
  names_unique
    (documents
       (snd (process_multiple_pdfs unit ascii_only no_phones no_ipv6
               (config [sample_pdf; sample_pdf]) no_fault uuid4_draw fitz_open
               detect spacy_split recursive_split encode path_exists
               (Some driver) empty_world))).
Proof.
  refine (PipelineMore.batch_keeps_names_unique
            unit ascii_only no_phones no_ipv6 (config [sample_pdf; sample_pdf])
            no_fault uuid4_draw fitz_open detect spacy_split recursive_split
            encode path_exists (Some driver) empty_world _).
  vm_compute. constructor.
Defined.

(** X15 at work: the report processed on a disk that is full when the
    indicators are written.  The run raises what the disk raised, with
    the five operations before the writing of the indicators done. *)
Lemma report_on_full_disk :
  let run :=
    process_pdf unit ascii_only no_phones no_ipv6 (small_chunks [sample_pdf])
                disk_full uuid4_draw fitz_open detect spacy_split
                recursive_split encode sample_pdf (Some driver) in
  exists l ok,
    fst (run empty_world) = Raise (Exception (str "No space left on device")) /\
    files_written unit run empty_world
      = take 5 (artifacts ascii_only no_phones no_ipv6 (small_chunks [sample_pdf])
                          (path_stem sample_pdf) l ok).
Proof.
  cbv zeta.
  pose proof (proj2 (proj2 (PipelineMore.process_pdf_disk_by_outcome
            unit ascii_only no_phones no_ipv6 (small_chunks [sample_pdf])
            disk_full uuid4_draw fitz_open detect spacy_split recursive_split
            encode sample_pdf (Some driver) empty_world))) as H.
  cbv zeta in H.
  edestruct H with (n := 5%nat) (e := Exception (str "No space left on device"))
    as [Hrun Hfiles].
  - vm_compute. reflexivity.
  - vm_compute. reflexivity.
  - reflexivity.
  - intros k op Hk Hop.
    destruct k as [|[|[|[|[|k]]]]]; try lia; injection Hop as <-; reflexivity.
  - reflexivity.
  - eexists _, _. split; [rewrite Hrun; reflexivity | exact Hfiles].
Defined.

(** X16 at work: the broken document. *)
Lemma corrupt_pdf_no_trace :
  let r :=
    process_pdf unit ascii_only no_phones no_ipv6 (config [corrupt_pdf])
                no_fault uuid4_draw fitz_open detect spacy_split
                recursive_split encode corrupt_pdf (Some driver) empty_world in
  let e := Exception (str "cannot open broken document") in
  fst r = Raise e /\
  documents (snd r) = [] /\ chunks (snd r) = [] /\ graph (snd r) = [] /\
  files (snd r) = [] /\ draws (snd r) = 0%nat /\
  log (snd r) = [] ++ [LogProcessing (path_stem corrupt_pdf);
                       LogFailedToProcess (path_stem corrupt_pdf) e].
Proof.
  cbv zeta.
  refine (PipelineMore.unreadable_pdf_leaves_no_trace
            unit ascii_only no_phones no_ipv6 (config [corrupt_pdf])
            no_fault uuid4_draw fitz_open detect spacy_split recursive_split
            encode corrupt_pdf (Some driver) empty_world
            (Exception (str "cannot open broken document")) _).
  reflexivity.
Defined.

(** X18 at work: the report processed with a graph server that answers. *)
Lemma report_graph_flag :
  let run :=
    process_pdf unit ascii_only no_phones no_ipv6 (small_chunks [sample_pdf])
                no_fault uuid4_draw fitz_open detect spacy_split
                recursive_split encode sample_pdf (Some driver) in
  exists l ok,
    locals_of unit ascii_only (small_chunks [sample_pdf]) fitz_open detect
              sample_pdf (snd (run empty_world))
              (rows_inserted unit run empty_world) l /\
    files_written unit run empty_world
      = artifacts ascii_only no_phones no_ipv6 (small_chunks [sample_pdf])
                  (path_stem sample_pdf) l ok /\
    if ok then
      exists sent,
        statements_sent unit run empty_world =
          ReturnOne :: MergeDocument (document l) (path_stem sample_pdf)
                                     sample_pdf (lang l) :: sent /\
        map mention_of sent =
          map (fun t : nat * text * text =>
                 Some (document l, decimal (fst (fst t)), snd (fst t), snd t))
              (triples
                 (map (fun p =>
                         (page_number p,
                          extract_indicators_by_category
                            ascii_only no_phones no_ipv6
                            (clean_text ascii_only (page_text p))))
                      (raw_pages l)))
    else
      exists e before,
        log (snd (run empty_world)) =
          before ++ LogNeo4jOperationsFailed (path_stem sample_pdf) e
                 :: closing_lines (small_chunks [sample_pdf])
                                  (path_stem sample_pdf) l false.
Proof.
  cbv zeta.
  refine (PipelineMore.graph_flag_is_truthful
            unit ascii_only no_phones no_ipv6 (small_chunks [sample_pdf])
            no_fault uuid4_draw fitz_open detect spacy_split recursive_split
            encode sample_pdf driver empty_world _ _).
  vm_compute. reflexivity.
Defined.

(** X19 at work: the report processed a second time. *)
Lemma report_processed_again :
  let run :=
    process_pdf unit ascii_only no_phones no_ipv6 (small_chunks [sample_pdf])
                no_fault uuid4_draw fitz_open detect spacy_split
                recursive_split encode sample_pdf None in
  let first := snd (run empty_world) in
  let second := snd (run first) in
  exists pages id rows,
    extract_text_from_pdf (small_chunks [sample_pdf]) fitz_open sample_pdf
      = Ok pages /\
    let language :=
      detect_language detect
        (join 32 (map (fun p => clean_text ascii_only (page_text p)) pages)) in
    chunks second = chunks first ++ rows /\
    Forall (fun r => chunk_document_uuid r = id /\ chunk_language r = language /\
                     encode (chunk_text_of r) = Ok (chunk_embedding r) /\
                     chunk_indicators r =
                       flat_map snd (extract_indicators_by_category
                                       ascii_only no_phones no_ipv6
                                       (chunk_text_of r)))
           rows /\
    match find_document (path_stem sample_pdf) (documents first) with
    | Some row => id = doc_uuid row /\ documents second = documents first
    | None =>
      id = uuid4_draw (draws first) /\
      documents second = documents first ++
        [{| doc_uuid := id; doc_name := path_stem sample_pdf;
            doc_path := sample_pdf; doc_language := language |}]
    end /\
    exists row, find_document (path_stem sample_pdf) (documents second) = Some row /\
                doc_uuid row = id.
Proof.
  cbv zeta.
  refine (PipelineMore.process_pdf_links_chunks
            unit ascii_only no_phones no_ipv6 (small_chunks [sample_pdf])
            no_fault uuid4_draw fitz_open detect spacy_split recursive_split
            encode sample_pdf None _ _ _).
  vm_compute. reflexivity.
Defined.

(** X20 at work: the report processed again from another directory. *)
Lemma report_moved :
  let run path :=
    process_pdf unit ascii_only no_phones no_ipv6 (small_chunks [sample_pdf])
                no_fault uuid4_draw fitz_open detect spacy_split
                recursive_split encode path (Some driver) in
  let first := snd (run sample_pdf empty_world) in
  let second := snd (run moved_pdf first) in
  documents second = documents first /\
  exists pages,
    extract_text_from_pdf (small_chunks [sample_pdf]) fitz_open moved_pdf
      = Ok pages /\
    Forall (document_node
              (str "uuid-0") (path_stem moved_pdf) moved_pdf
              (detect_language detect
                 (join 32 (map (fun p => clean_text ascii_only (page_text p))
                               pages))))
           (statements_sent unit (run moved_pdf) first).
Proof.
  cbv zeta beta.
  refine (PipelineMore.graph_node_takes_latest_run
            unit ascii_only no_phones no_ipv6 (small_chunks [sample_pdf])
            no_fault uuid4_draw fitz_open detect spacy_split recursive_split
            encode moved_pdf (Some driver) _ _
            {| doc_uuid := str "uuid-0"; doc_name := str "report";
               doc_path := sample_pdf; doc_language := str "en" |} _ _).
  - vm_compute. reflexivity.
  - vm_compute. reflexivity.
Defined.

End MoreScenarios.
